(** * netdec: the TCP flow tracker and the decode kernel

    A shallow embedding of [src/modules/tcp.cc] (class [TCP], its nested
    [Session], [Stream] and [Segment]) and of [src/kernel.cc]
    ([Kernel::run], [Kernel::on], [Kernel::clear]), with the properties
    the specification states about them.

    Conventions.
    - [uint32_t], [uint16_t], [uint8_t] and [size_t] values are [Z] with the
      wrap-around written out ([u32], [u16], [u8], [usize]).
    - Byte buffers ([const byte_t*] with a length, [tb::Buffer]) are
      [list byte]; the length is the length of the list.
    - [Stream*] values are one of the two streams a session owns, so a
      pointer is a [StreamId]; [closing_] is an [option StreamId].
    - [std::map] is [gmap]; the [Segment] chain hanging off a [seg_map_]
      entry (linked through [next_], appended at [tail_]) is a [list]. *)

From Equations Require Import Equations.
From stdpp Require Import gmap strings list fin_maps sorting.
From Stdlib Require Import ZArith Lia.
From Stdlib.Strings Require Byte.

Local Open Scope Z_scope.

Abbreviation byte := Byte.byte.

(** ** Machine integers *)

Definition u8 (z : Z) : Z := z mod 2 ^ 8.
Definition u16 (z : Z) : Z := z mod 2 ^ 16.
Definition u32 (z : Z) : Z := z mod 2 ^ 32.
Definition usize (z : Z) : Z := z mod 2 ^ 64.

Definition byte_val (b : byte) : Z := Z.of_N (Byte.to_N b).

Definition byte_of_Z (z : Z) : byte :=
  match Byte.of_N (Z.to_N (u8 z)) with
  | Some b => b
  | None => Byte.x00
  end.

(** The [n] low bytes of [z], least significant first: the bytes of an
    [n]-byte unsigned integer in the memory of a little-endian host. *)
Fixpoint le_bytes (n : nat) (z : Z) : list byte :=
  match n with
  | O => []
  | S n' => byte_of_Z z :: le_bytes n' (Z.shiftr z 8)
  end.

(** Big-endian (network order) reading of a byte string. *)
Definition be_val (bs : list byte) : Z :=
  fold_left (fun acc b => acc * 256 + byte_val b) bs 0.

(** [::memcmp(a, b, n)]: the difference of the first pair of bytes that
    differ among the first [n], read as [unsigned char]; 0 when there is
    none.  Reading past either buffer is undefined in C; the model yields 0
    there, and no caller below reaches that case. *)
Fixpoint memcmp (a b : list byte) (n : nat) : Z :=
  match n, a, b with
  | S n', x :: a', y :: b' =>
      if byte_val x =? byte_val y then memcmp a' b' n'
      else byte_val x - byte_val y
  | _, _, _ => 0
  end.

(** ** Collaborators of the module that are not part of these sources *)

(** [struct timeval]. *)
Record timeval := Timeval { tv_sec : Z; tv_usec : Z }.

(** The [timersub] macro of <sys/time.h>. *)
Definition timersub (a b : timeval) : timeval :=
  let sec := tv_sec a - tv_sec b in
  let usec := tv_usec a - tv_usec b in
  if usec <? 0 then Timeval (sec - 1) (usec + 1000000) else Timeval sec usec.

(** The parameters the TCP module defines in its constructor
    ([define_param]); a [const ParamDef*] is one of these handles. *)
Inductive ParamDef :=
| p_src_port_ | p_dst_port_ | p_seq_ | p_ack_ | p_offset_ | p_flags_
| p_window_ | p_chksum_ | p_urgptr_
| p_flag_fin_ | p_flag_syn_ | p_flag_rst_ | p_flag_push_
| p_flag_ack_ | p_flag_urg_ | p_flag_ece_ | p_flag_cwr_
| p_optdata_ | p_segment_ | p_ssn_id_ | p_data_
| p_rtt_3wh_ | p_tx_server_ | p_tx_client_.

#[global] Instance ParamDef_eq_dec : EqDecision ParamDef.
Proof. solve_decision. Defined.

Definition ParamDef_code (p : ParamDef) : nat :=
  match p with
  | p_src_port_ => 0 | p_dst_port_ => 1 | p_seq_ => 2 | p_ack_ => 3
  | p_offset_ => 4 | p_flags_ => 5 | p_window_ => 6 | p_chksum_ => 7
  | p_urgptr_ => 8 | p_flag_fin_ => 9 | p_flag_syn_ => 10
  | p_flag_rst_ => 11 | p_flag_push_ => 12 | p_flag_ack_ => 13
  | p_flag_urg_ => 14 | p_flag_ece_ => 15 | p_flag_cwr_ => 16
  | p_optdata_ => 17 | p_segment_ => 18 | p_ssn_id_ => 19 | p_data_ => 20
  | p_rtt_3wh_ => 21 | p_tx_server_ => 22 | p_tx_client_ => 23
  end%nat.

Definition ParamDef_of_code (n : nat) : option ParamDef :=
  nth_error
    [p_src_port_; p_dst_port_; p_seq_; p_ack_; p_offset_; p_flags_;
     p_window_; p_chksum_; p_urgptr_; p_flag_fin_; p_flag_syn_;
     p_flag_rst_; p_flag_push_; p_flag_ack_; p_flag_urg_; p_flag_ece_;
     p_flag_cwr_; p_optdata_; p_segment_; p_ssn_id_; p_data_;
     p_rtt_3wh_; p_tx_server_; p_tx_client_] n.

#[global] Program Instance ParamDef_countable : Countable ParamDef :=
  inj_countable ParamDef_code ParamDef_of_code _.
Next Obligation. by intros []. Qed.

(** An event definition handle ([const EventDef*]): the id the registry
    interned for the name. *)
Abbreviation event_id := nat.
Record EventDef := { ed_id : event_id; ed_name : string }.

(** [Value::BIG] and [Value::LITTLE]. *)
Inductive Endian := BIG | LITTLE.

(** Modelled from the spec: [Value] is missing from the sources.  A value
    is the bytes it views ([set]) or copied ([cpy]) together with the
    endianness the caller named, if any.  [cpy] is handed the address of a
    host integer; the host is little-endian (what every [Value::LITTLE] tag
    in the module presumes), so a [w]-byte integer [z] arrives as
    [le_bytes w z]. *)
Record Value := { v_data : list byte; v_endian : option Endian }.

Definition Value_set (bs : list byte) : Value :=
  {| v_data := bs; v_endian := None |}.
Definition Value_cpy (bs : list byte) (e : option Endian) : Value :=
  {| v_data := bs; v_endian := e |}.

(** Modelled from the spec: [Property] is missing from the sources.  The
    per-packet scratchpad: the timestamp, the cached endpoints, the events
    in push order and the values by parameter. *)
Record Property := {
  prop_tv : timeval;
  prop_src_addr : list byte;
  prop_dst_addr : list byte;
  prop_src_port : Z;
  prop_dst_port : Z;
  prop_events : list EventDef;
  prop_values : gmap ParamDef Value;
}.

Definition push_event (e : EventDef) (p : Property) : Property :=
  {| prop_tv := prop_tv p; prop_src_addr := prop_src_addr p;
     prop_dst_addr := prop_dst_addr p; prop_src_port := prop_src_port p;
     prop_dst_port := prop_dst_port p;
     prop_events := prop_events p ++ [e];
     prop_values := prop_values p |}.

(** [p->retain_value(param)->set(...)] or [->cpy(...)]: the slot of
    [param] now holds [v]. *)
Definition set_value (k : ParamDef) (v : Value) (p : Property) : Property :=
  {| prop_tv := prop_tv p; prop_src_addr := prop_src_addr p;
     prop_dst_addr := prop_dst_addr p; prop_src_port := prop_src_port p;
     prop_dst_port := prop_dst_port p;
     prop_events := prop_events p;
     prop_values := <[k := v]> (prop_values p) |}.

Definition set_src_port (x : Z) (p : Property) : Property :=
  {| prop_tv := prop_tv p; prop_src_addr := prop_src_addr p;
     prop_dst_addr := prop_dst_addr p; prop_src_port := x;
     prop_dst_port := prop_dst_port p;
     prop_events := prop_events p;
     prop_values := prop_values p |}.

Definition set_dst_port (x : Z) (p : Property) : Property :=
  {| prop_tv := prop_tv p; prop_src_addr := prop_src_addr p;
     prop_dst_addr := prop_dst_addr p; prop_src_port := prop_src_port p;
     prop_dst_port := x;
     prop_events := prop_events p;
     prop_values := prop_values p |}.

(** ** TCP flags *)

Definition FIN : Z := 0x01.
Definition SYN : Z := 0x02.
Definition RST : Z := 0x04.
Definition PUSH : Z := 0x08.
Definition ACK : Z := 0x10.
Definition URG : Z := 0x20.
Definition ECE : Z := 0x40.
Definition CWR : Z := 0x80.

(** The events of the module, in [define_event] order. *)
Definition ev_new_ : EventDef := {| ed_id := 0%nat; ed_name := "new_session" |}.
Definition ev_estb_ : EventDef := {| ed_id := 1%nat; ed_name := "established" |}.
Definition ev_close_ : EventDef := {| ed_id := 2%nat; ed_name := "closed" |}.

(** [flag2str], for the debug lines of [send] and [trans_state]: one
    letter for each of FIN, SYN, RST and ACK that is set, a star for each
    that is not. *)
Definition flag2str (f : Z) : string :=
  String.append (if Z.land f FIN >? 0 then "F" else "*")
    (String.append (if Z.land f SYN >? 0 then "S" else "*")
       (String.append (if Z.land f RST >? 0 then "R" else "*")
          (String.append (if Z.land f ACK >? 0 then "A" else "*") ""))).

(** ** [TCP::Session::Stream] *)

Record Stream := {
  has_base_seq_ : bool;
  base_seq_ : Z;
  next_seq_ : Z;
  ack_ : Z;
  win_size_ : Z;
  addr_ : list byte;
  port_ : Z;
  tx_size_ : Z;
}.

(** The constructor.  [ack_] and [win_size_] are left uninitialised by the
    source and are only ever read by a disabled debug line; they start
    at 0 here. *)
Definition Stream_new (addr : list byte) (port : Z) : Stream :=
  {| has_base_seq_ := false; base_seq_ := 0; next_seq_ := 0;
     ack_ := 0; win_size_ := 0; addr_ := addr; port_ := port;
     tx_size_ := 0 |}.

Definition next_seq (s : Stream) : Z := next_seq_ s.

(** [tx_size()] returns [uint32_t]: the 64-bit counter is truncated. *)
Definition tx_size (s : Stream) : Z := u32 (tx_size_ s).

Definition Stream_match (s : Stream) (addr : list byte) (port : Z) : bool :=
  (length (addr_ s) =? length addr)%nat && (port_ s =? port)
  && (memcmp addr (addr_ s) (length addr) =? 0).

Definition is_src (s : Stream) (p : Property) : bool :=
  Stream_match s (prop_src_addr p) (prop_src_port p).

Definition in_window (s : Stream) (seq : Z) : bool := true.

Definition to_rel_seq (s : Stream) (seq : Z) : Z := u32 (seq - base_seq_ s).

Definition set_base_seq (seq seg_len : Z) (s : Stream) : Stream :=
  {| has_base_seq_ := true; base_seq_ := seq;
     next_seq_ := u32 (1 + seg_len);
     ack_ := ack_ s; win_size_ := win_size_ s; addr_ := addr_ s;
     port_ := port_ s; tx_size_ := tx_size_ s |}.

Definition inc_seq (step : Z) (s : Stream) : Stream :=
  {| has_base_seq_ := has_base_seq_ s; base_seq_ := base_seq_ s;
     next_seq_ := u32 (next_seq_ s + step);
     ack_ := ack_ s; win_size_ := win_size_ s; addr_ := addr_ s;
     port_ := port_ s; tx_size_ := tx_size_ s |}.

(** [send]: the result and the stream afterwards. *)
Definition send (flags seq ack data_len : Z) (s : Stream) : bool * Stream :=
  if negb (has_base_seq_ s) then (true, s)
  else
    let rel_seq := u32 (seq - base_seq_ s) in
    if next_seq_ s =? rel_seq then
      (true,
       {| has_base_seq_ := has_base_seq_ s; base_seq_ := base_seq_ s;
          next_seq_ := u32 (next_seq_ s + data_len);
          ack_ := ack_ s; win_size_ := win_size_ s; addr_ := addr_ s;
          port_ := port_ s; tx_size_ := tx_size_ s |})
    else (false, s).

Definition recv (ack win_size : Z) (s : Stream) : Stream :=
  {| has_base_seq_ := has_base_seq_ s; base_seq_ := base_seq_ s;
     next_seq_ := next_seq_ s;
     ack_ := ack; win_size_ := win_size; addr_ := addr_ s;
     port_ := port_ s; tx_size_ := tx_size_ s |}.

(** ** [TCP::Session::Segment] *)

Record Segment := {
  seg_data : list byte;   (* the [tb::Buffer] base: ptr() and len() *)
  seg_seq : Z;
  seg_flags : Z;
}.

(** ** [TCP::Session] *)

Inductive Status :=
| NONE | SYN_SENT | SYNACK_SENT | ESTABLISHED | CLOSING | CLOSED.

#[global] Instance Status_eq_dec : EqDecision Status.
Proof. solve_decision. Defined.

Inductive StreamId := Client | Server.

#[global] Instance StreamId_eq_dec : EqDecision StreamId.
Proof. solve_decision. Defined.

(** [status_log_] is a history variable, not a field of the source: it
    lists, oldest first, every value [status_] has held (the constructor's
    [NONE], then each value assigned by [trans_state]).  Nothing reads
    it. *)
Record Session := {
  client_ : Stream;
  server_ : Stream;
  closing_ : option StreamId;
  id_ : Z;
  status_ : Status;
  ts_init_ : timeval;
  ts_estb_ : timeval;
  ts_rtt_ : timeval;
  buf_ : option (list byte);
  seg_map_ : gmap Z (list Segment);
  status_log_ : list Status;
}.

Definition stream_of (i : StreamId) (ssn : Session) : Stream :=
  match i with Client => client_ ssn | Server => server_ ssn end.

Definition with_stream (i : StreamId) (s : Stream) (ssn : Session) : Session :=
  {| client_ := match i with Client => s | Server => client_ ssn end;
     server_ := match i with Client => server_ ssn | Server => s end;
     closing_ := closing_ ssn; id_ := id_ ssn; status_ := status_ ssn;
     ts_init_ := ts_init_ ssn; ts_estb_ := ts_estb_ ssn;
     ts_rtt_ := ts_rtt_ ssn; buf_ := buf_ ssn; seg_map_ := seg_map_ ssn;
     status_log_ := status_log_ ssn |}.

(** [new_status = this->status_ = st]. *)
Definition with_status (st : Status) (ssn : Session) : Session :=
  {| client_ := client_ ssn; server_ := server_ ssn;
     closing_ := closing_ ssn; id_ := id_ ssn; status_ := st;
     ts_init_ := ts_init_ ssn; ts_estb_ := ts_estb_ ssn;
     ts_rtt_ := ts_rtt_ ssn; buf_ := buf_ ssn; seg_map_ := seg_map_ ssn;
     status_log_ := status_log_ ssn ++ [st] |}.

Definition with_closing (c : option StreamId) (ssn : Session) : Session :=
  {| client_ := client_ ssn; server_ := server_ ssn;
     closing_ := c; id_ := id_ ssn; status_ := status_ ssn;
     ts_init_ := ts_init_ ssn; ts_estb_ := ts_estb_ ssn;
     ts_rtt_ := ts_rtt_ ssn; buf_ := buf_ ssn; seg_map_ := seg_map_ ssn;
     status_log_ := status_log_ ssn |}.

Definition with_ts_init (tv : timeval) (ssn : Session) : Session :=
  {| client_ := client_ ssn; server_ := server_ ssn;
     closing_ := closing_ ssn; id_ := id_ ssn; status_ := status_ ssn;
     ts_init_ := tv; ts_estb_ := ts_estb_ ssn;
     ts_rtt_ := ts_rtt_ ssn; buf_ := buf_ ssn; seg_map_ := seg_map_ ssn;
     status_log_ := status_log_ ssn |}.

(** [memcpy(&ts_estb_, &tv, ..)] followed by
    [timersub(&ts_estb_, &ts_init_, &ts_rtt_)]. *)
Definition with_ts_estb (tv : timeval) (ssn : Session) : Session :=
  {| client_ := client_ ssn; server_ := server_ ssn;
     closing_ := closing_ ssn; id_ := id_ ssn; status_ := status_ ssn;
     ts_init_ := ts_init_ ssn; ts_estb_ := tv;
     ts_rtt_ := timersub tv (ts_init_ ssn);
     buf_ := buf_ ssn; seg_map_ := seg_map_ ssn;
     status_log_ := status_log_ ssn |}.

Definition with_buf (b : option (list byte)) (ssn : Session) : Session :=
  {| client_ := client_ ssn; server_ := server_ ssn;
     closing_ := closing_ ssn; id_ := id_ ssn; status_ := status_ ssn;
     ts_init_ := ts_init_ ssn; ts_estb_ := ts_estb_ ssn;
     ts_rtt_ := ts_rtt_ ssn; buf_ := b; seg_map_ := seg_map_ ssn;
     status_log_ := status_log_ ssn |}.

Definition with_seg_map (m : gmap Z (list Segment)) (ssn : Session) : Session :=
  {| client_ := client_ ssn; server_ := server_ ssn;
     closing_ := closing_ ssn; id_ := id_ ssn; status_ := status_ ssn;
     ts_init_ := ts_init_ ssn; ts_estb_ := ts_estb_ ssn;
     ts_rtt_ := ts_rtt_ ssn; buf_ := buf_ ssn; seg_map_ := m;
     status_log_ := status_log_ ssn |}.

(** The constructor: the first packet's source is the client, its
    destination the server.  The three timestamps are left uninitialised
    by the source; they start at zero here. *)
Definition Session_new (p : Property) (ssn_id : Z) : Session :=
  {| client_ := Stream_new (prop_src_addr p) (prop_src_port p);
     server_ := Stream_new (prop_dst_addr p) (prop_dst_port p);
     closing_ := None; id_ := ssn_id; status_ := NONE;
     ts_init_ := Timeval 0 0; ts_estb_ := Timeval 0 0;
     ts_rtt_ := Timeval 0 0; buf_ := None; seg_map_ := ∅;
     status_log_ := [NONE] |}.

(** [trans_state]: the returned [new_status] and the session afterwards. *)
Definition trans_state (flags : Z) (sender : StreamId) (seq seg_len : Z)
    (tv : timeval) (ssn : Session) : Status * Session :=
  match status_ ssn with
  | NONE =>
      if (flags =? SYN) && bool_decide (sender = Client) then
        let ssn := with_status SYN_SENT ssn in
        let ssn := with_ts_init tv ssn in
        (SYN_SENT,
         with_stream sender (set_base_seq seq seg_len (stream_of sender ssn)) ssn)
      else (NONE, ssn)
  | SYN_SENT =>
      if (flags =? Z.lor SYN ACK) && bool_decide (sender = Server) then
        let ssn := with_status SYNACK_SENT ssn in
        (SYNACK_SENT,
         with_stream sender (set_base_seq seq seg_len (stream_of sender ssn)) ssn)
      else (NONE, ssn)
  | SYNACK_SENT =>
      if (flags =? ACK) && bool_decide (sender = Client) then
        let ssn := with_status ESTABLISHED ssn in
        (ESTABLISHED, with_ts_estb tv ssn)
      else (NONE, ssn)
  | ESTABLISHED =>
      if Z.land flags FIN >? 0 then
        let ssn := with_status CLOSING ssn in
        let ssn := with_closing (Some sender) ssn in
        (CLOSING, with_stream sender (inc_seq 1 (stream_of sender ssn)) ssn)
      else (NONE, ssn)
  | CLOSING =>
      if (Z.land flags FIN >? 0)
         && negb (bool_decide (closing_ ssn = Some sender)) then
        let ssn := with_status CLOSED ssn in
        (CLOSED, with_stream sender (inc_seq 1 (stream_of sender ssn)) ssn)
      else (NONE, ssn)
  | CLOSED => (NONE, ssn)
  end.

(** The failure branch of [decode_stream]: a fresh [Segment] is inserted
    under [rel_seq], or appended to the chain already there. *)
Definition park (rel_seq : Z) (seg : Segment) (m : gmap Z (list Segment))
    : gmap Z (list Segment) :=
  match m !! rel_seq with
  | None => <[rel_seq := [seg]]> m
  | Some chain => <[rel_seq := chain ++ [seg]]> m
  end.

(** The value published as [rtt_3wh]: [uint32_t ts = tv_sec * 1000000 +
    tv_usec], copied with [Value::LITTLE]. *)
Definition rtt_3wh_value (rtt : timeval) : Value :=
  Value_cpy (le_bytes 4 (u32 (tv_sec rtt * 1000000 + tv_usec rtt)))
            (Some LITTLE).

(** One activation of [decode_stream], up to the point where it starts
    its [while (tgt)] loop: the returned flag, the session and property
    afterwards, and the chain that was taken out of [seg_map_] to be
    delivered ([[]] when the lookup finds nothing). *)
Definition decode_stream_body (flags seq ack : Z) (data : list byte)
    (win_size : Z) (sender recver : StreamId) (st : Session * Property)
    : bool * (Session * Property) * list Segment :=
  let '(ssn, p) := st in
  let seg_len := Z.of_nat (length data) in
  let '(ok, s') := send flags seq ack seg_len (stream_of sender ssn) in
  let ssn := with_stream sender s' ssn in
  if negb ok then
    if in_window (stream_of sender ssn) seq then
      let rel_seq := to_rel_seq (stream_of sender ssn) seq in
      let seg := {| seg_data := data; seg_seq := seq; seg_flags := flags |} in
      (false, (with_seg_map (park rel_seq seg (seg_map_ ssn)) ssn, p), [])
    else (false, (ssn, p), [])
  else
    let ssn := with_stream recver (recv ack win_size (stream_of recver ssn)) ssn in
    let '(new_state, ssn) := trans_state flags sender seq seg_len (prop_tv p) ssn in
    let p :=
      if bool_decide (new_state = ESTABLISHED) then
        set_value p_rtt_3wh_ (rtt_3wh_value (ts_rtt_ ssn)) (push_event ev_estb_ p)
      else p in
    let p :=
      if bool_decide (new_state = CLOSED) then push_event ev_close_ p else p in
    let '(ssn, p) :=
      match buf_ ssn with
      | Some b =>
          (with_buf (Some (b ++ data)) ssn,
           set_value p_data_ (Value_set (b ++ data)) p)
      | None => (ssn, set_value p_data_ (Value_set data) p)
      end in
    if (0 <? size (seg_map_ ssn))%nat then
      match seg_map_ ssn !! next_seq (stream_of sender ssn) with
      | Some chain =>
          let ssn :=
            match buf_ ssn with
            | None => with_buf (Some data) ssn
            | Some _ => ssn
            end in
          let ssn :=
            with_seg_map (delete (next_seq (stream_of sender ssn)) (seg_map_ ssn)) ssn in
          (true, (ssn, p), chain)
      | None => (true, (ssn, p), [])
      end
    else (true, (ssn, p), []).

#[global] Arguments decode_stream_body : simpl never.

(** *** The recursion of [decode_stream]

    After its own body an activation walks the chain it took out of
    [seg_map_] and calls [decode_stream] on every segment, with its own
    [ack], [win_size], [sender] and [recver]; nothing follows the loop but
    [delete seg; return true], and the value a nested call returns is
    dropped.  The pending work is therefore a stack of segments: the chain
    of the innermost activation first, then what is left of each enclosing
    chain.  [deliver] runs that stack.  It terminates because a delivered
    segment leaves the session for good, while a segment that is parked
    again leaves the stack. *)

Definition seg_count (m : gmap Z (list Segment)) : nat :=
  map_fold (fun _ chain n => (length chain + n)%nat) 0%nat m.

Definition weight (pending : list Segment) (ssn : Session) : nat :=
  let total := (seg_count (seg_map_ ssn) + length pending)%nat in
  (total * (total + 1) + length pending)%nat.

Lemma seg_count_insert_fresh k chain m :
  m !! k = None →
  seg_count (<[k := chain]> m) = (length chain + seg_count m)%nat.
Proof.
  intros Hk. unfold seg_count.
  rewrite map_fold_insert_L; [done | intros; lia | done].
Qed.

Lemma seg_count_delete k chain m :
  m !! k = Some chain →
  seg_count m = (length chain + seg_count (delete k m))%nat.
Proof.
  intros Hk. unfold seg_count.
  rewrite (map_fold_delete_L _ _ k chain m); [done | intros; lia | done].
Qed.

Lemma seg_count_park k seg m : seg_count (park k seg m) = S (seg_count m).
Proof.
  unfold park. destruct (m !! k) as [chain|] eqn:Hk.
  - rewrite <- insert_delete_eq.
    rewrite seg_count_insert_fresh by apply lookup_delete_eq.
    rewrite (seg_count_delete k chain m Hk), length_app. simpl. lia.
  - rewrite seg_count_insert_fresh by done. simpl. lia.
Qed.

Lemma trans_state_seg_map flags sender seq seg_len tv ssn :
  seg_map_ (trans_state flags sender seq seg_len tv ssn).2 = seg_map_ ssn.
Proof.
  unfold trans_state.
  destruct (status_ ssn); simpl;
    repeat (match goal with |- context [if ?b then _ else _] => destruct b end);
    reflexivity.
Qed.

Lemma trans_state_buf flags sender seq seg_len tv ssn :
  buf_ (trans_state flags sender seq seg_len tv ssn).2 = buf_ ssn.
Proof.
  unfold trans_state.
  destruct (status_ ssn); simpl;
    repeat (match goal with |- context [if ?b then _ else _] => destruct b end);
    reflexivity.
Qed.

(** What one activation does to the number of parked segments: it parks
    one and takes none out, or takes a chain out and parks none. *)
Lemma decode_stream_body_count flags seq ack data win sender recver st :
  let r := decode_stream_body flags seq ack data win sender recver st in
  (r.1.1 = false ∧ r.2 = [] ∧
   seg_count (seg_map_ r.1.2.1) = S (seg_count (seg_map_ st.1)))
  ∨ (r.1.1 = true ∧
     (seg_count (seg_map_ r.1.2.1) + length r.2)%nat = seg_count (seg_map_ st.1)).
Proof.
  destruct st as [ssn p]. unfold decode_stream_body.
  destruct (send _ _ _ _ _) as [ok s'] eqn:Hsend.
  destruct ok; simpl.
  - right.
    destruct (trans_state _ _ _ _ _ _) as [ns ssn3] eqn:Hts.
    pose proof (trans_state_seg_map flags sender seq (Z.of_nat (length data))
                  (prop_tv p)
                  (with_stream recver
                     (recv ack win (stream_of recver (with_stream sender s' ssn)))
                     (with_stream sender s' ssn))) as Hm.
    rewrite Hts in Hm. simpl in Hm.
    destruct (buf_ ssn3) eqn:Hb; simpl;
      (destruct (0 <? size (seg_map_ ssn3))%nat; simpl;
       [|split; [done|rewrite Hm; lia]]);
      (destruct (seg_map_ ssn3 !! _) as [chain|] eqn:Hk; simpl;
       [|split; [done|rewrite Hm; lia]]);
      rewrite ?Hb; simpl; (split; [done|]);
      rewrite <- Hm, (seg_count_delete _ _ _ Hk); apply Nat.add_comm.
  - left. split; [done|]. split; [done|]. simpl. apply seg_count_park.
Qed.

Lemma decode_stream_body_weight flags seq ack data win sender recver st tgt rest :
  let r := decode_stream_body flags seq ack data win sender recver st in
  (weight (r.2 ++ rest) r.1.2.1 < weight (tgt :: rest) st.1)%nat.
Proof.
  intros r. subst r.
  pose proof (decode_stream_body_count flags seq ack data win sender recver st) as H.
  simpl in H. unfold weight. rewrite length_app. simpl.
  destruct H as [(_ & -> & ->) | (_ & <-)]; simpl; nia.
Qed.

Equations? deliver (ack win_size : Z) (sender recver : StreamId)
    (pending : list Segment) (st : Session * Property)
    : Session * Property by wf (weight pending st.1) lt :=
  deliver ack win_size sender recver [] st := st;
  deliver ack win_size sender recver (tgt :: rest) st :=
    deliver ack win_size sender recver
      ((decode_stream_body (seg_flags tgt) (seg_seq tgt) ack (seg_data tgt)
          win_size sender recver st).2 ++ rest)
      (decode_stream_body (seg_flags tgt) (seg_seq tgt) ack (seg_data tgt)
          win_size sender recver st).1.2.
Proof.
  apply (decode_stream_body_weight (seg_flags tgt) (seg_seq tgt) ack
           (seg_data tgt) win_size sender recver st tgt rest).
Qed.

(** [decode_stream]: the returned flag, and the session and property once
    the activation and everything it re-enters have finished. *)
Definition decode_stream (flags seq ack : Z) (data : list byte)
    (win_size : Z) (sender recver : StreamId) (st : Session * Property)
    : bool * (Session * Property) :=
  let r := decode_stream_body flags seq ack data win_size sender recver st in
  (r.1.1, deliver ack win_size sender recver r.2 r.1.2).

(** [Session::decode]. *)
Definition Session_decode (flags seq ack : Z) (data : list byte)
    (win_size : Z) (st : Session * Property) : Session * Property :=
  let '(ssn, p) := st in
  let ssn := match buf_ ssn with Some _ => with_buf None ssn | None => ssn end in
  let '(sender, recver) :=
    if is_src (client_ ssn) p then (Client, Server) else (Server, Client) in
  let '(ssn, p) :=
    (decode_stream flags seq ack data win_size sender recver (ssn, p)).2 in
  let tx_c := tx_size (server_ ssn) in
  let tx_s := tx_size (client_ ssn) in
  let p := set_value p_tx_server_ (Value_cpy (le_bytes 4 tx_s) (Some LITTLE)) p in
  let p := set_value p_tx_client_ (Value_cpy (le_bytes 4 tx_c) (Some LITTLE)) p in
  (ssn, p).

#[global] Arguments decode_stream : simpl never.
#[global] Arguments Session_decode : simpl never.

(** A session's lifetime after construction: the [decode] calls it
    receives, each with the property of its packet. *)
Record DecodeCall := {
  dc_flags : Z; dc_seq : Z; dc_ack : Z; dc_data : list byte; dc_win : Z;
  dc_prop : Property;
}.

Definition Session_run (calls : list DecodeCall) (ssn : Session) : Session :=
  fold_left
    (fun ssn c =>
       (Session_decode (dc_flags c) (dc_seq c) (dc_ack c) (dc_data c)
          (dc_win c) (ssn, dc_prop c)).1)
    calls ssn.

(** The mask [TCP::decode] applies to the header's flag byte before it
    hands the flags to the session. *)
Definition mask_flags (hdr_flags : Z) : Z :=
  Z.land (Z.land hdr_flags (Z.lor (Z.lor (Z.lor FIN SYN) RST) ACK))
         (Z.lor (Z.lor (Z.lor SYN ACK) FIN) RST).

(** ** Flow keys *)

#[global] Instance byte_eq_dec : EqDecision byte := Byte.byte_eq_dec.

#[global] Program Instance byte_countable : Countable byte :=
  inj_countable Byte.to_N Byte.of_N _.
Next Obligation. apply Byte.of_to_N. Qed.

(** Modelled from the spec: [tb::HashKey] is missing from the sources.  A
    key is the bytes appended to it; [resize] only sizes the storage;
    [finalize] fixes the hash, "an implementation-defined 64-bit mixer
    over the finalized key", which is the parameter [mixer] below. *)
Record HashKey := { hk_data : list byte; hk_hash : option Z }.

Definition HashKey_new : HashKey := {| hk_data := []; hk_hash := None |}.
Definition HashKey_clear (k : HashKey) : HashKey :=
  {| hk_data := []; hk_hash := None |}.
Definition HashKey_resize (n : Z) (k : HashKey) : HashKey := k.
Definition HashKey_append (bs : list byte) (k : HashKey) : HashKey :=
  {| hk_data := hk_data k ++ bs; hk_hash := hk_hash k |}.

Section FlowTable.

Variable mixer : list byte → Z.

Definition HashKey_finalize (k : HashKey) : HashKey :=
  {| hk_data := hk_data k; hk_hash := Some (mixer (hk_data k)) |}.

(** [Session::make_key].  [None] is the failed
    [assert(src_len == dst_len)].  A port is appended through the
    address of a host [uint16_t], two bytes, least significant first. *)
Definition make_key (p : Property) (key : HashKey) : option HashKey :=
  let src_addr := prop_src_addr p in
  let dst_addr := prop_dst_addr p in
  let src_len := length src_addr in
  let dst_len := length dst_addr in
  let src_port := prop_src_port p in
  let dst_port := prop_dst_port p in
  if negb (src_len =? dst_len)%nat then None
  else
    let keylen := Z.of_nat src_len + Z.of_nat dst_len + 2 + 2 in
    let key := HashKey_clear key in
    let key := HashKey_resize keylen key in
    let rc := memcmp src_addr dst_addr src_len in
    let key :=
      if (rc >? 0) || ((rc =? 0) && (src_port >? dst_port)) then
        let key := HashKey_append src_addr key in
        let key := HashKey_append (le_bytes 2 src_port) key in
        let key := HashKey_append dst_addr key in
        HashKey_append (le_bytes 2 dst_port) key
      else
        let key := HashKey_append dst_addr key in
        let key := HashKey_append (le_bytes 2 dst_port) key in
        let key := HashKey_append src_addr key in
        HashKey_append (le_bytes 2 src_port) key in
    Some (HashKey_finalize key).

(** Modelled from the spec: [tb::LruHash] is missing from the sources.
    The table keeps, per key, the seconds the entry has left and the
    session; [step] advances the clock and moves the entries whose time
    is up to the expired queue; [get] is a lookup; [put] inserts or
    refreshes. *)
Record LruHash := {
  lru_nodes : gmap (list byte) (Z * Session);
  lru_expired : list Session;
}.

Definition LruHash_new : LruHash := {| lru_nodes := ∅; lru_expired := [] |}.

Definition LruHash_put (ttl : Z) (key : HashKey) (v : Session)
    (t : LruHash) : LruHash :=
  {| lru_nodes := <[hk_data key := (ttl, v)]> (lru_nodes t);
     lru_expired := lru_expired t |}.

Definition LruHash_get (key : HashKey) (t : LruHash) : option Session :=
  snd <$> lru_nodes t !! hk_data key.

Definition LruHash_step (delta : Z) (t : LruHash) : LruHash :=
  let aged := (fun n : Z * Session => (n.1 - delta, n.2)) <$> lru_nodes t in
  {| lru_nodes := filter (fun kv => 0 < kv.2.1) aged;
     lru_expired :=
       lru_expired t ++
       (snd ∘ snd <$> map_to_list (filter (fun kv => ¬ 0 < kv.2.1) aged)) |}.

Definition LruHash_has_expired (t : LruHash) : bool :=
  match lru_expired t with [] => false | _ :: _ => true end.

Definition LruHash_pop_expired (t : LruHash) : LruHash :=
  {| lru_nodes := lru_nodes t; lru_expired := tail (lru_expired t) |}.

(** The session a table node points to has been changed in place. *)
Definition LruHash_store (key : HashKey) (v : Session) (t : LruHash)
    : LruHash :=
  {| lru_nodes := alter (fun n => (n.1, v)) (hk_data key) (lru_nodes t);
     lru_expired := lru_expired t |}.

(** ** [TCP::decode] *)

(** Modelled from the spec: [Payload] is missing from the sources.  A
    cursor over the packet's bytes; [retain n] hands out the next [n]
    bytes and moves past them, or fails and leaves the cursor alone when
    fewer are left. *)
Record Payload := { pd_bytes : list byte; pd_pos : nat }.

Definition Payload_length (pd : Payload) : Z :=
  Z.of_nat (length (pd_bytes pd) - pd_pos pd).

Definition retain (n : Z) (pd : Payload) : option (list byte * Payload) :=
  if Payload_length pd <? n then None
  else
    Some (take (Z.to_nat n) (drop (pd_pos pd) (pd_bytes pd)),
          {| pd_bytes := pd_bytes pd;
             pd_pos := (pd_pos pd + Z.to_nat n)%nat |}).

Record TCP := {
  ssn_count_ : Z;
  curr_ts_ : Z;
  init_ts_ : bool;
  ssn_table_ : LruHash;
}.

(** The constructor; [LruHash<Session*>(3600, 0xffff)] is an empty
    table. *)
Definition TCP_new : TCP :=
  {| ssn_count_ := 0; curr_ts_ := 0; init_ts_ := false;
     ssn_table_ := LruHash_new |}.

Abbreviation mod_id := nat.
Definition Module_NONE : option mod_id := None.

(** [sizeof(struct tcp_header)]. *)
Definition tcp_header_size : Z := 20.

(** A field of the packed header: [len] bytes at offset [off]. *)
Definition hdr_field (off len : nat) (hdr : list byte) : list byte :=
  take len (drop off hdr).

Definition hdr_src_port_ := hdr_field 0 2.
Definition hdr_dst_port_ := hdr_field 2 2.
Definition hdr_seq_ := hdr_field 4 4.
Definition hdr_ack_ := hdr_field 8 4.
Definition hdr_offset_ := hdr_field 12 1.
Definition hdr_flags_ := hdr_field 13 1.
Definition hdr_window_ := hdr_field 14 2.
Definition hdr_chksum_ := hdr_field 16 2.
Definition hdr_urgptr_ := hdr_field 18 2.

(** [SET_FLAGS(FNAME, PNAME)]. *)
Definition set_flag (hdr : list byte) (fname : Z) (pname : ParamDef)
    (prop : Property) : Property :=
  let f := if Z.land (be_val (hdr_flags_ hdr)) fname >? 0 then 1 else 0 in
  set_value pname (Value_cpy [byte_of_Z f] None) prop.

(** The header processing of [decode], from [set_src_port] to the last
    [SET_FLAGS]. *)
Definition header_properties (hdr : list byte) (prop : Property) : Property :=
  let prop := set_src_port (be_val (hdr_src_port_ hdr)) prop in
  let prop := set_dst_port (be_val (hdr_dst_port_ hdr)) prop in
  let prop := set_value p_src_port_ (Value_set (hdr_src_port_ hdr)) prop in
  let prop := set_value p_dst_port_ (Value_set (hdr_dst_port_ hdr)) prop in
  let prop := set_value p_seq_ (Value_set (hdr_seq_ hdr)) prop in
  let prop := set_value p_ack_ (Value_set (hdr_ack_ hdr)) prop in
  let offset := Z.shiftr (Z.land (be_val (hdr_offset_ hdr)) 0xf0) 2 in
  let prop := set_value p_offset_ (Value_cpy [byte_of_Z offset] None) prop in
  let prop := set_value p_offset_ (Value_set (hdr_offset_ hdr)) prop in
  let prop := set_value p_flags_ (Value_set (hdr_flags_ hdr)) prop in
  let prop := set_value p_window_ (Value_set (hdr_window_ hdr)) prop in
  let prop := set_value p_chksum_ (Value_set (hdr_chksum_ hdr)) prop in
  let prop := set_value p_urgptr_ (Value_set (hdr_urgptr_ hdr)) prop in
  let prop := set_flag hdr FIN p_flag_fin_ prop in
  let prop := set_flag hdr SYN p_flag_syn_ prop in
  let prop := set_flag hdr RST p_flag_rst_ prop in
  let prop := set_flag hdr PUSH p_flag_push_ prop in
  let prop := set_flag hdr ACK p_flag_ack_ prop in
  let prop := set_flag hdr URG p_flag_urg_ prop in
  let prop := set_flag hdr ECE p_flag_ece_ prop in
  set_flag hdr CWR p_flag_cwr_ prop.

(** [optlen = offset - sizeof(tcp_header)] in [size_t] arithmetic. *)
Definition option_length (hdr : list byte) : Z :=
  usize (Z.shiftr (Z.land (be_val (hdr_offset_ hdr)) 0xf0) 2 - tcp_header_size).

(** The [while (has_expired())] loop: every expired session is popped
    and deleted. *)
Fixpoint drain_expired (n : nat) (t : LruHash) : LruHash :=
  match n with
  | O => t
  | S n' =>
      if LruHash_has_expired t then drain_expired n' (LruHash_pop_expired t)
      else t
  end.

(** The session management of [decode], from [prop->ts()] on. *)
Definition track_session (hdr seg : list byte) (prop : Property) (tcp : TCP)
    : option (Property * TCP) :=
  let seg_len := Z.of_nat (length seg) in
  let ts := tv_sec (prop_tv prop) in
  let tcp :=
    if curr_ts_ tcp <? ts then
      let diff := ts - curr_ts_ tcp in
      if init_ts_ tcp then
        {| ssn_count_ := ssn_count_ tcp; curr_ts_ := ts;
           init_ts_ := true;
           ssn_table_ := LruHash_step diff (ssn_table_ tcp) |}
      else
        {| ssn_count_ := ssn_count_ tcp; curr_ts_ := ts;
           init_ts_ := true; ssn_table_ := ssn_table_ tcp |}
    else tcp in
  let table :=
    drain_expired (length (lru_expired (ssn_table_ tcp))) (ssn_table_ tcp) in
  let flags := mask_flags (be_val (hdr_flags_ hdr)) in
  let seq := be_val (hdr_seq_ hdr) in
  let ack := be_val (hdr_ack_ hdr) in
  let win := be_val (hdr_window_ hdr) in
  match make_key prop HashKey_new with
  | None => None
  | Some key =>
      let '(ssn, count, table, prop) :=
        match LruHash_get key table with
        | None =>
            let count := usize (ssn_count_ tcp + 1) in
            let ssn := Session_new prop count in
            (ssn, count, LruHash_put 300 key ssn table,
             push_event ev_new_ prop)
        | Some ssn => (ssn, ssn_count_ tcp, table, prop)
        end in
      let prop :=
        set_value p_ssn_id_ (Value_cpy (le_bytes 8 (id_ ssn)) None) prop in
      let '(ssn, prop) := Session_decode flags seq ack seg win (ssn, prop) in
      Some (prop,
            {| ssn_count_ := count; curr_ts_ := curr_ts_ tcp;
               init_ts_ := init_ts_ tcp;
               ssn_table_ := LruHash_store key ssn table |})
  end.

(** [TCP::decode]: the returned module id, the payload, the property
    and the module afterwards; [None] when an assertion stops the
    program. *)
Definition TCP_decode (pd : Payload) (prop : Property) (tcp : TCP)
    : option (option mod_id * Payload * Property * TCP) :=
  match retain tcp_header_size pd with
  | None => Some (Module_NONE, pd, prop, tcp)
  | Some (hdr, pd) =>
      let prop := header_properties hdr prop in
      let optlen := option_length hdr in
      let after_options :=
        if 0 <? optlen then
          match retain optlen pd with
          | None => None
          | Some (opt, pd) =>
              Some (pd, set_value p_optdata_ (Value_set opt) prop)
          end
        else Some (pd, prop) in
      match after_options with
      | None => Some (Module_NONE, pd, prop, tcp)
      | Some (pd, prop) =>
          let seg_len := Payload_length pd in
          let '(seg, pd, prop) :=
            if 0 <? seg_len then
              let '(seg, pd) :=
                match retain seg_len pd with
                | Some (seg, pd) => (seg, pd)
                | None => ([], pd)   (* not reached: seg_len is length() *)
                end in
              (seg, pd, set_value p_segment_ (Value_set seg) prop)
            else ([], pd, prop) in
          match track_session hdr seg prop tcp with
          | None => None
          | Some (prop, tcp) => Some (Module_NONE, pd, prop, tcp)
          end
      end
  end.

End FlowTable.

(** ** The kernel *)

(** Modelled from the spec: [Packet] is missing from the sources.  The
    captured bytes, the captured length and the timestamp. *)
Record Packet := { pkt_bytes : list byte; cap_len : Z; pkt_tv : timeval }.

(** Modelled from the spec: [Property::init] is missing from the sources.
    The property is reset for the packet: its timestamp, no endpoints yet,
    no events, no values. *)
Definition Property_init (pkt : Packet) : Property :=
  {| prop_tv := pkt_tv pkt; prop_src_addr := []; prop_dst_addr := [];
     prop_src_port := 0; prop_dst_port := 0;
     prop_events := []; prop_values := ∅ |}.

(** Modelled from the spec: [Payload::reset] is missing from the sources.
    The cursor is put at the first byte of the packet. *)
Definition Payload_reset (pkt : Packet) : Payload :=
  {| pd_bytes := pkt_bytes pkt; pd_pos := 0 |}.

(** Modelled from the spec: [hdlr_id] is declared outside these sources.
    The specification asks for "a monotonic handler_id", so ids are
    natural numbers.  [Handler::NONE] is the id no handler gets. *)
Abbreviation hdlr_id := nat.

(** A callback is user code.  What the kernel can see of it is which of
    the kernel's own entry points it calls while it runs; the model lets a
    callback call [Kernel::clear], on the handler ids [cb_clears] lists
    for the property it is given.  (A callback that called [Kernel::on]
    for the event being fired would [push_back] on the vector the kernel
    iterates, which C++ leaves undefined.)  [cb_tag] tells callbacks
    apart. *)
Record Callback := { cb_tag : nat; cb_clears : Property → list hdlr_id }.

Module Handler.

Definition NONE : hdlr_id := 0%nat.

Record Entry := { cb_ : Callback; ev_id_ : event_id; id_ : hdlr_id }.

Definition callback (e : Entry) : Callback := cb_ e.
Definition ev_id (e : Entry) : event_id := ev_id_ e.
Definition id (e : Entry) : hdlr_id := id_ e.

End Handler.

(** Modelled from the spec: the decoder ([dec_]) is missing from the
    sources.  The kernel uses three things of it: the number of events the
    modules defined, the id interned for an event name ([Event::NONE] is
    [None]), and [decode], which runs the module chain on the payload and
    fills the property. *)
Class Decoder (D : Type) := {
  event_size : nat;
  lookup_event_id : string → option event_id;
  dec_decode : D → Payload → Property → D * Property;
  lookup_event_id_lt name eid :
    lookup_event_id name = Some eid → (eid < event_size)%nat;
}.

Section Kernel.

Context {D : Type} `{Decoder D}.

(** [recv_pkt_] and [recv_size_] are 64-bit counters. *)
Record Kernel := {
  dec_ : D;
  handlers_ : list (list (option Handler.Entry));
  handler_map_ : gmap hdlr_id Handler.Entry;
  global_hdlr_id_ : hdlr_id;
  recv_pkt_ : Z;
  recv_size_ : Z;
}.

Definition Kernel_new (d : D) : Kernel :=
  {| dec_ := d; handlers_ := replicate event_size [];
     handler_map_ := ∅; global_hdlr_id_ := 0%nat;
     recv_pkt_ := 0; recv_size_ := 0 |}.

(** [std::map::insert]: an existing key keeps its value. *)
Definition map_insert (hid : hdlr_id) (e : Handler.Entry)
    (m : gmap hdlr_id Handler.Entry) : gmap hdlr_id Handler.Entry :=
  match m !! hid with Some _ => m | None => <[hid := e]> m end.

(** [Kernel::on]: the returned id and the kernel afterwards. *)
Definition Kernel_on (event_name : string) (cb : Callback) (k : Kernel)
    : hdlr_id * Kernel :=
  match lookup_event_id event_name with
  | None => (Handler.NONE, k)
  | Some eid =>
      let hid := S (global_hdlr_id_ k) in
      let entry := {| Handler.cb_ := cb; Handler.ev_id_ := eid;
                      Handler.id_ := hid |} in
      (Handler.id entry,
       {| dec_ := dec_ k;
          handlers_ := alter (fun set => set ++ [Some entry]) eid (handlers_ k);
          handler_map_ := map_insert (Handler.id entry) entry (handler_map_ k);
          global_hdlr_id_ := hid;
          recv_pkt_ := recv_pkt_ k; recv_size_ := recv_size_ k |})
  end.

(** The loop of [Kernel::clear]: the first slot that holds an entry
    with the id is set to null. *)
Fixpoint tombstone (hid : hdlr_id) (set : list (option Handler.Entry))
    : list (option Handler.Entry) :=
  match set with
  | [] => []
  | Some e :: rest =>
      if decide (Handler.id e = hid) then None :: rest
      else Some e :: tombstone hid rest
  | None :: rest => None :: tombstone hid rest
  end.

(** [Kernel::clear]: the returned flag and the kernel afterwards. *)
Definition Kernel_clear (hid : hdlr_id) (k : Kernel) : bool * Kernel :=
  match handler_map_ k !! hid with
  | None => (false, k)
  | Some entry =>
      (true,
       {| dec_ := dec_ k;
          handlers_ :=
            alter (tombstone (Handler.id entry)) (Handler.ev_id entry)
                  (handlers_ k);
          handler_map_ := delete hid (handler_map_ k);
          global_hdlr_id_ := global_hdlr_id_ k;
          recv_pkt_ := recv_pkt_ k; recv_size_ := recv_size_ k |})
  end.

(** [(entry->callback())(prop)]: the callback runs, and with it the
    calls to [clear] it makes. *)
Definition invoke (entry : Handler.Entry) (prop : Property) (k : Kernel)
    : Kernel :=
  fold_left (fun k hid => (Kernel_clear hid k).2)
            (cb_clears (Handler.callback entry) prop) k.

(** The slot [j] of the vector of event [eid], as the loop reads it. *)
Definition slot (k : Kernel) (eid : event_id) (j : nat)
    : option Handler.Entry :=
  match handlers_ k !! eid with
  | Some set => match set !! j with Some (Some e) => Some e | _ => None end
  | None => None
  end.

(** [for (auto entry : this->handlers_[eid])], from the slots [idxs] on:
    each slot is read when the loop reaches it.  The kernel afterwards
    and the entries whose callbacks ran, in the order they ran. *)
Fixpoint fire_from (eid : event_id) (prop : Property) (idxs : list nat)
    (k : Kernel) : Kernel * list Handler.Entry :=
  match idxs with
  | [] => (k, [])
  | j :: rest =>
      match slot k eid j with
      | Some entry =>
          let r := fire_from eid prop rest (invoke entry prop k) in
          (r.1, entry :: r.2)
      | None => fire_from eid prop rest k
      end
  end.

(** The length is read once, when the loop starts. *)
Definition fire_event (eid : event_id) (prop : Property) (k : Kernel)
    : Kernel * list Handler.Entry :=
  fire_from eid prop (seq 0 (length (default [] (handlers_ k !! eid)))) k.

(** The event loop of [Kernel::run] for one packet. *)
Fixpoint dispatch (events : list EventDef) (prop : Property) (k : Kernel)
    : Kernel * list Handler.Entry :=
  match events with
  | [] => (k, [])
  | e :: rest =>
      let r1 := fire_event (ed_id e) prop k in
      let r2 := dispatch rest prop r1.1 in
      (r2.1, r1.2 ++ r2.2)
  end.

(** One turn of the [while] loop of [Kernel::run], on the packet
    [channel_.pull()] returned. *)
Definition Kernel_step (pkt : Packet) (k : Kernel)
    : Kernel * list Handler.Entry :=
  let k :=
    {| dec_ := dec_ k; handlers_ := handlers_ k;
       handler_map_ := handler_map_ k;
       global_hdlr_id_ := global_hdlr_id_ k;
       recv_pkt_ := usize (recv_pkt_ k + 1);
       recv_size_ := usize (recv_size_ k + cap_len pkt) |} in
  let prop := Property_init pkt in
  let pd := Payload_reset pkt in
  let '(d, prop) := dec_decode (dec_ k) pd prop in
  let k :=
    {| dec_ := d; handlers_ := handlers_ k;
       handler_map_ := handler_map_ k;
       global_hdlr_id_ := global_hdlr_id_ k;
       recv_pkt_ := recv_pkt_ k; recv_size_ := recv_size_ k |} in
  dispatch (prop_events prop) prop k.

(** [Kernel::run] on the packets the channel hands out before it is
    closed. *)
Fixpoint Kernel_run (pkts : list Packet) (k : Kernel)
    : Kernel * list Handler.Entry :=
  match pkts with
  | [] => (k, [])
  | pkt :: rest =>
      let r1 := Kernel_step pkt k in
      let r2 := Kernel_run rest r1.1 in
      (r2.1, r1.2 ++ r2.2)
  end.

(** What a program does with a kernel. *)
Inductive Op :=
| OpOn (event_name : string) (cb : Callback)
| OpClear (hid : hdlr_id)
| OpRun (pkts : list Packet).

Definition exec_op (op : Op) (k : Kernel) : Kernel * list Handler.Entry :=
  match op with
  | OpOn name cb => ((Kernel_on name cb k).2, [])
  | OpClear hid => ((Kernel_clear hid k).2, [])
  | OpRun pkts => Kernel_run pkts k
  end.

Fixpoint exec (ops : list Op) (k : Kernel) : Kernel * list Handler.Entry :=
  match ops with
  | [] => (k, [])
  | op :: rest =>
      let r1 := exec_op op k in
      let r2 := exec rest r1.1 in
      (r2.1, r1.2 ++ r2.2)
  end.

End Kernel.

Arguments Kernel D : clear implicits.

(** ** What the statements below talk about *)

(** A stream with its base sequence at 1000 that expects relative
    sequence 1, as the client is once the handshake of scenario S2 is
    over. *)
Definition stream_after_handshake : Stream :=
  {| has_base_seq_ := true; base_seq_ := 1000; next_seq_ := 1;
     ack_ := 0; win_size_ := 0; addr_ := []; port_ := 12345;
     tx_size_ := 0 |}.

(** The path of 4.5, from the constructor's status to the last. *)
Definition status_path : list Status :=
  [NONE; SYN_SENT; SYNACK_SENT; ESTABLISHED; CLOSING; CLOSED].

(** The position of a status on the path. *)
Definition rank (s : Status) : nat :=
  match s with
  | NONE => 0 | SYN_SENT => 1 | SYNACK_SENT => 2
  | ESTABLISHED => 3 | CLOSING => 4 | CLOSED => 5
  end.

(** The history is the path up to and including the current status. *)
Definition log_on_path (ssn : Session) : Prop :=
  status_log_ ssn = take (S (rank (status_ ssn))) status_path.

(** The three facts a whole [decode] keeps: the history stays on the
    path, it only grows, and the rank of the status does not drop. *)
Definition status_step (ssn ssn' : Session) : Prop :=
  (log_on_path ssn → log_on_path ssn') ∧
  status_log_ ssn `prefix_of` status_log_ ssn' ∧
  (rank (status_ ssn) ≤ rank (status_ ssn'))%nat.

(** What the calls that follow the transition to ESTABLISHED within the
    same [decode] can no longer touch, as long as they come from the
    stream [sender]: the session has been ESTABLISHED, and has at most
    moved on to CLOSING on a FIN of [sender]. *)
Record established_by (sender : StreamId) (log : list Status)
    (estb rtt : timeval) (events : list EventDef) (v : Value)
    (st : Session * Property) : Prop := {
  eb_status :
    status_ st.1 = ESTABLISHED ∨
    (status_ st.1 = CLOSING ∧ closing_ st.1 = Some sender);
  eb_log : ∃ rest, status_log_ st.1 = log ++ ESTABLISHED :: rest;
  eb_estb : ts_estb_ st.1 = estb;
  eb_rtt : ts_rtt_ st.1 = rtt;
  eb_events : prop_events st.2 = events;
  eb_value : prop_values st.2 !! p_rtt_3wh_ = Some v;
}.

Section Registry.

Context {D : Type} `{Decoder D}.

(** [recv_pkt_] and [recv_size_]. *)
Definition counters (k : Kernel D) : Z * Z := (recv_pkt_ k, recv_size_ k).

(** The entries of a per-event vector, nulls skipped. *)
Definition live (set : list (option Handler.Entry)) : list Handler.Entry :=
  omap (fun e => e) set.

(** [handlers_[eid]]; an id past the end, which the source never indexes
    with, has no handlers. *)
Definition vector (k : Kernel D) (eid : event_id)
    : list (option Handler.Entry) :=
  default [] (handlers_ k !! eid).

(** Registered earlier: ids are handed out in increasing order. *)
Definition by_id (a b : Handler.Entry) : Prop :=
  (Handler.id a < Handler.id b)%nat.

(** [k'] has the vectors of [k] with some more slots nulled. *)
Definition thins (k k' : Kernel D) : Prop :=
  (∀ eid, length (vector k' eid) = length (vector k eid))
  ∧ (∀ eid j e, slot k' eid j = Some e → slot k eid j = Some e)
  ∧ global_hdlr_id_ k' = global_hdlr_id_ k.

(** With callbacks that clear nothing, every live entry runs. *)
Definition quiet (k : Kernel D) (prop : Property) : Prop :=
  ∀ eid j e, slot k eid j = Some e →
    cb_clears (Handler.callback e) prop = [].

(** Every live entry sits in the vector of its event and is the entry the
    id map has under its id; every entry of the id map is live in the
    vector of its event, and its id has been handed out; within a vector,
    ids grow from front to back. *)
Record registry_ok (k : Kernel D) : Prop := {
  ok_len : length (handlers_ k) = event_size;
  ok_slot : ∀ eid j e, slot k eid j = Some e →
      Handler.ev_id e = eid ∧ handler_map_ k !! Handler.id e = Some e;
  ok_map : ∀ hid e, handler_map_ k !! hid = Some e →
      Handler.id e = hid ∧ (0 < hid ≤ global_hdlr_id_ k)%nat ∧
      ∃ j, slot k (Handler.ev_id e) j = Some e;
  ok_sorted : ∀ eid, StronglySorted by_id (live (vector k eid));
}.

(** After [clear(hid)] no slot holds an entry with that id. *)
Definition absent (hid : hdlr_id) (k : Kernel D) : Prop :=
  ∀ eid j e, slot k eid j = Some e → Handler.id e ≠ hid.

(** A handler id that is gone stays gone: no slot holds it, and every id
    still to be handed out is larger. *)
Definition gone (hid : hdlr_id) (k : Kernel D) : Prop :=
  absent hid k ∧ (hid ≤ global_hdlr_id_ k)%nat.

(** [k] is [k0] with the entries whose id is in [cleared] nulled. *)
Definition struck (k0 : Kernel D) (cleared : list hdlr_id) (k : Kernel D)
    : Prop :=
  (∀ eid, length (vector k eid) = length (vector k0 eid))
  ∧ ∀ eid j,
      slot k eid j =
        match slot k0 eid j with
        | Some e => if decide (Handler.id e ∈ cleared) then None else Some e
        | None => None
        end.

End Registry.

(** ** A kernel over the TCP module alone *)

Definition tcp_event_id (name : string) : option event_id :=
  if decide (name = ed_name ev_new_) then Some (ed_id ev_new_)
  else if decide (name = ed_name ev_estb_) then Some (ed_id ev_estb_)
  else if decide (name = ed_name ev_close_) then Some (ed_id ev_close_)
  else None.

(** A decoder whose module chain is the TCP module.  A failed assertion
    ends the program; the kernel has no state after it, and this decoder
    leaves module and property as they were. *)
Program Definition tcp_root (mixer : list byte → Z) : Decoder TCP := {|
  event_size := 3;
  lookup_event_id := tcp_event_id;
  dec_decode tcp pd prop :=
    match TCP_decode mixer pd prop tcp with
    | Some (_, _, prop', tcp') => (tcp', prop')
    | None => (tcp, prop)
    end;
|}.
Next Obligation.
  intros _ name eid. unfold tcp_event_id.
  repeat case_decide; intros [= <-]; simpl; lia.
Qed.

(** The mixer does not matter to anything stated here; the examples run
    with a constant one. *)
#[global] Instance tcp_root_example : Decoder TCP := tcp_root (fun _ => 0).

(** ** The scenarios of the specification, as packets *)

Module Scenario.

Definition addr_A : list byte := [Byte.x0a; Byte.x00; Byte.x00; Byte.x01].
Definition addr_B : list byte := [Byte.x0a; Byte.x00; Byte.x00; Byte.x02].

(** The property of a packet from A:12345 to B:80 as the session sees
    it: fresh but for the timestamp and the endpoints. *)
Definition from_A (usec : Z) : Property :=
  {| prop_tv := Timeval 0 usec;
     prop_src_addr := addr_A; prop_dst_addr := addr_B;
     prop_src_port := 12345; prop_dst_port := 80;
     prop_events := []; prop_values := ∅ |}.

Definition from_B (usec : Z) : Property :=
  {| prop_tv := Timeval 0 usec;
     prop_src_addr := addr_B; prop_dst_addr := addr_A;
     prop_src_port := 80; prop_dst_port := 12345;
     prop_events := []; prop_values := ∅ |}.

Definition call (flags seq ack : Z) (data : list byte) (p : Property)
    : DecodeCall :=
  {| dc_flags := flags; dc_seq := seq; dc_ack := ack; dc_data := data;
     dc_win := 65535; dc_prop := p |}.

(** S2 up to the SYN|ACK, the client's initial sequence number being
    [isn]. *)
Definition synack_sent (isn : Z) : Session :=
  Session_run
    [call SYN isn 0 [] (from_A 0);
     call (Z.lor SYN ACK) 2000 (isn + 1) [] (from_B 5)]
    (Session_new (from_A 0) 1).

(** S2 complete: the session is ESTABLISHED and the client's
    [next_seq_] is 1. *)
Definition established (isn : Z) : Session :=
  Session_run [call ACK (isn + 1) 2001 [] (from_A 10)] (synack_sent isn).

Definition hello : list byte := String.list_byte_of_string "hello".
Definition world : list byte := String.list_byte_of_string "world".
Definition helloworld : list byte :=
  String.list_byte_of_string "helloworld".

End Scenario.

(** A retransmission: the client sends "hello" at sequence 1001, then the
    same segment again.  The second copy is parked under key 1 while the
    client's [next_seq_] is already 6. *)
Definition after_hello : Session :=
  Session_run
    [Scenario.call ACK 1001 2001 Scenario.hello (Scenario.from_A 20)]
    (Scenario.established 1000).

Definition hello_again : Segment :=
  {| seg_data := Scenario.hello; seg_seq := 1001; seg_flags := ACK |}.

(** A packet that carries ten bytes of TCP header, and one whose header
    announces 24 bytes and stops after 20. *)
Definition short_packet : Packet :=
  {| pkt_bytes := replicate 10 Byte.x00; cap_len := 10;
     pkt_tv := Timeval 0 0 |}.

Definition short_options_packet : Packet :=
  {| pkt_bytes := replicate 12 Byte.x00 ++ [Byte.x60] ++ replicate 7 Byte.x00;
     cap_len := 20; pkt_tv := Timeval 0 0 |}.

(** Packets for the kernel over the TCP module: a 20-byte TCP header in
    network byte order, then the payload. *)
Definition be_bytes (n : nat) (z : Z) : list byte := rev (le_bytes n z).

Definition tcp_bytes (sport dport seq ack flags : Z) (payload : list byte)
    : list byte :=
  be_bytes 2 sport ++ be_bytes 2 dport ++ be_bytes 4 seq ++ be_bytes 4 ack
  ++ [byte_of_Z 0x50; byte_of_Z flags]
  ++ be_bytes 2 65535 ++ be_bytes 2 0 ++ be_bytes 2 0 ++ payload.

Definition tcp_packet (usec : Z) (bytes : list byte) : Packet :=
  {| pkt_bytes := bytes; cap_len := Z.of_nat (length bytes);
     pkt_tv := Timeval 0 usec |}.

(** The three packets of scenario S2. *)
Definition S2_packets : list Packet :=
  [tcp_packet 0 (tcp_bytes 12345 80 1000 0 SYN []);
   tcp_packet 5 (tcp_bytes 80 12345 2000 1001 (Z.lor SYN ACK) []);
   tcp_packet 10 (tcp_bytes 12345 80 1001 2001 ACK [])].

(** Scenario S6 with a third handler: three handlers for [established];
    the callback of the first clears the second. *)
Definition cb_clearing (tag : nat) (hids : list hdlr_id) : Callback :=
  {| cb_tag := tag; cb_clears := fun _ => hids |}.

Definition S6_ops : list Op :=
  [OpOn "established" (cb_clearing 1 [2%nat]);
   OpOn "established" (cb_clearing 2 []);
   OpOn "established" (cb_clearing 3 [])].

Definition S6_entry (tag : nat) (hids : list hdlr_id) : Handler.Entry :=
  {| Handler.cb_ := cb_clearing tag hids; Handler.ev_id_ := ed_id ev_estb_;
     Handler.id_ := tag |}.

(** Handlers on two events, none of which clears anything. *)
Definition quiet_ops : list Op :=
  [OpOn "established" (cb_clearing 1 []);
   OpOn "new_session" (cb_clearing 2 []);
   OpOn "established" (cb_clearing 3 []);
   OpOn "no_such_event" (cb_clearing 4 []);
   OpOn "new_session" (cb_clearing 5 [])].

(** ** What the further statements talk about *)

(** *** Streams and sessions *)

(** The base is the last sequence number before the wrap. *)
Definition stream_before_wrap : Stream :=
  {| has_base_seq_ := true; base_seq_ := 2 ^ 32 - 1; next_seq_ := 1;
     ack_ := 0; win_size_ := 0; addr_ := []; port_ := 12345;
     tx_size_ := 0 |}.

(** The stream on the other side. *)
Definition other (i : StreamId) : StreamId :=
  match i with Client => Server | Server => Client end.

(** What nothing but the constructor writes. *)
Definition same_identity (ssn ssn' : Session) : Prop :=
  addr_ (client_ ssn') = addr_ (client_ ssn)
  ∧ port_ (client_ ssn') = port_ (client_ ssn)
  ∧ addr_ (server_ ssn') = addr_ (server_ ssn)
  ∧ port_ (server_ ssn') = port_ (server_ ssn)
  ∧ tx_size_ (client_ ssn') = tx_size_ (client_ ssn)
  ∧ tx_size_ (server_ ssn') = tx_size_ (server_ ssn)
  ∧ id_ ssn' = id_ ssn.

(** The session between [recver->recv] and [trans_state], [s'] being
    the sender's stream as [send] left it. *)
Definition after_send_recv (ack win : Z) (sender recver : StreamId)
    (s' : Stream) (ssn : Session) : Session :=
  with_stream recver
    (recv ack win (stream_of recver (with_stream sender s' ssn)))
    (with_stream sender s' ssn).

(** [b] has the streams, the status, [closing_] and the timestamps of
    [a]. *)
Definition same_control (a b : Session) : Prop :=
  client_ b = client_ a ∧ server_ b = server_ a ∧ status_ b = status_ a
  ∧ closing_ b = closing_ a ∧ ts_init_ b = ts_init_ a
  ∧ ts_estb_ b = ts_estb_ a ∧ ts_rtt_ b = ts_rtt_ a
  ∧ status_log_ b = status_log_ a.

(** The base of a stream is set when the status passes SYN_SENT (client)
    or SYNACK_SENT (server), and the next expected sequence number is a
    32-bit value. *)
Definition base_tracks_status (ssn : Session) : Prop :=
  has_base_seq_ (client_ ssn) = bool_decide (1 ≤ rank (status_ ssn))%nat
  ∧ has_base_seq_ (server_ ssn) = bool_decide (2 ≤ rank (status_ ssn))%nat
  ∧ 0 ≤ next_seq_ (client_ ssn) < 2 ^ 32
  ∧ 0 ≤ next_seq_ (server_ ssn) < 2 ^ 32.

(** A base that is set stays as it is. *)
Definition base_stable (ssn ssn' : Session) : Prop :=
  (has_base_seq_ (client_ ssn) = true →
   has_base_seq_ (client_ ssn') = true ∧
   base_seq_ (client_ ssn') = base_seq_ (client_ ssn))
  ∧ (has_base_seq_ (server_ ssn) = true →
     has_base_seq_ (server_ ssn') = true ∧
     base_seq_ (server_ ssn') = base_seq_ (server_ ssn)).

(** The event a status announces when the session enters it. *)
Definition event_of (st : Status) : option EventDef :=
  match st with
  | ESTABLISHED => Some ev_estb_
  | CLOSED => Some ev_close_
  | _ => None
  end.

(** The events pushed between [st] and [st'] are those of the statuses
    the session entered in between. *)
Definition announces (st st' : Session * Property) : Prop :=
  ∃ new, status_log_ st'.1 = status_log_ st.1 ++ new
         ∧ prop_events st'.2 = prop_events st.2 ++ omap event_of new.

(** While the status is NONE nothing can be parked. *)
Definition unsynced (ssn : Session) : Prop :=
  status_ ssn = NONE → seg_map_ ssn = ∅.

(** From CLOSING on, [closing_] points at the stream that sent the first
    FIN. *)
Definition closing_known (ssn : Session) : Prop :=
  status_ ssn = CLOSING ∨ status_ ssn = CLOSED → is_Some (closing_ ssn).

(** The session waits in CLOSING for a FIN of the other side. *)
Definition waits_for_peer (sender : StreamId) (ssn : Session) : Prop :=
  status_ ssn = CLOSING ∧ closing_ ssn = Some sender.

(** The values [Session::decode] and [decode_stream] write. *)
Definition session_params : list ParamDef :=
  [p_data_; p_rtt_3wh_; p_tx_server_; p_tx_client_].

(** [p'] is [p] but for the events and the values of the session. *)
Definition session_frame (p p' : Property) : Prop :=
  prop_tv p' = prop_tv p
  ∧ prop_src_addr p' = prop_src_addr p ∧ prop_dst_addr p' = prop_dst_addr p
  ∧ prop_src_port p' = prop_src_port p ∧ prop_dst_port p' = prop_dst_port p
  ∧ ∀ k, k ∉ session_params → prop_values p' !! k = prop_values p !! k.

(** *** Reassembly *)

(** A run of segments parked one behind the other from key [k] on, each
    alone in its chain. *)
Fixpoint chained (k : Z) (segs : list Segment) : list (Z * list Segment) :=
  match segs with
  | [] => []
  | s :: rest =>
      (k, [s]) :: chained (u32 (k + Z.of_nat (length (seg_data s)))) rest
  end.

(** The segments of the run carry the sequence numbers of their keys,
    relative to [base], and none of them has FIN set. *)
Fixpoint in_sequence (base k : Z) (segs : list Segment) : Prop :=
  match segs with
  | [] => True
  | s :: rest =>
      u32 (seg_seq s - base) = k ∧ Z.land (seg_flags s) FIN = 0
      ∧ in_sequence base (u32 (k + Z.of_nat (length (seg_data s)))) rest
  end.

(** *** The module *)

(** All values of a [uint8_t]. *)
Definition all_u8 : list Z := Z.of_nat <$> seq 0 256.

(** [flag2str] tells [f] and [g] apart exactly when the mask of
    [TCP::decode] does. *)
Definition flag2str_agrees_with_mask (f g : Z) : bool :=
  bool_decide (bool_decide (flag2str f = flag2str g)
               = bool_decide (mask_flags f = mask_flags g)).

(** The two endpoints a property names. *)
Definition src_endpoint (p : Property) : list byte * Z :=
  (prop_src_addr p, prop_src_port p).
Definition dst_endpoint (p : Property) : list byte * Z :=
  (prop_dst_addr p, prop_dst_port p).

(** The same two endpoints, in the same or in the opposite direction. *)
Definition same_flow (p q : Property) : Prop :=
  (src_endpoint p = src_endpoint q ∧ dst_endpoint p = dst_endpoint q)
  ∨ (src_endpoint p = dst_endpoint q ∧ dst_endpoint p = src_endpoint q).

(** The header length the data offset field announces, in bytes. *)
Definition data_offset (hdr : list byte) : Z :=
  Z.shiftr (Z.land (be_val (hdr_offset_ hdr)) 0xf0) 2.

(** What a call of [TCP::decode] adds to the module's books: either the
    session was known, the counter stands and no [new_session] is among
    the events [evs] of the call; or a session was made, the counter has
    moved by one, [new_session] is the first event of the call and the
    only one of its kind, and the published id is the new count. *)
Definition accounted (tcp tcp' : TCP) (prop' : Property)
    (evs : list EventDef) : Prop :=
  (ssn_count_ tcp' = ssn_count_ tcp ∧ ev_new_ ∉ evs)
  ∨ (ssn_count_ tcp' = usize (ssn_count_ tcp + 1)
     ∧ (∃ rest, evs = ev_new_ :: rest ∧ ev_new_ ∉ rest)
     ∧ prop_values prop' !! p_ssn_id_
       = Some (Value_cpy (le_bytes 8 (usize (ssn_count_ tcp + 1))) None)).

(** The value [SET_FLAGS] publishes for the flag [fname]. *)
Definition flag_value (hdr : list byte) (fname : Z) : Value :=
  Value_cpy
    [byte_of_Z (if Z.land (be_val (hdr_flags_ hdr)) fname >? 0 then 1 else 0)]
    None.

(** What a packet with the header [hdr] publishes of it.  [offset] is
    the byte of the header: the length computed from it is written first
    and overwritten. *)
Definition header_values (hdr : list byte) : list (ParamDef * Value) :=
  [(p_src_port_, Value_set (hdr_src_port_ hdr));
   (p_dst_port_, Value_set (hdr_dst_port_ hdr));
   (p_seq_, Value_set (hdr_seq_ hdr));
   (p_ack_, Value_set (hdr_ack_ hdr));
   (p_offset_, Value_set (hdr_offset_ hdr));
   (p_flags_, Value_set (hdr_flags_ hdr));
   (p_window_, Value_set (hdr_window_ hdr));
   (p_chksum_, Value_set (hdr_chksum_ hdr));
   (p_urgptr_, Value_set (hdr_urgptr_ hdr));
   (p_flag_fin_, flag_value hdr FIN);
   (p_flag_syn_, flag_value hdr SYN);
   (p_flag_rst_, flag_value hdr RST);
   (p_flag_push_, flag_value hdr PUSH);
   (p_flag_ack_, flag_value hdr ACK);
   (p_flag_urg_, flag_value hdr URG);
   (p_flag_ece_, flag_value hdr ECE);
   (p_flag_cwr_, flag_value hdr CWR)].

(** The values the rest of [decode] writes. *)
Definition later_params : list ParamDef :=
  [p_optdata_; p_segment_; p_ssn_id_;
   p_data_; p_rtt_3wh_; p_tx_server_; p_tx_client_].

(** The ports and the header values of [q] are those of [p]. *)
Definition keeps_header (p q : Property) : Prop :=
  prop_src_port q = prop_src_port p ∧ prop_dst_port q = prop_dst_port p
  ∧ ∀ k, k ∉ later_params → prop_values q !! k = prop_values p !! k.

(** *** The kernel *)

(** The bytes the kernel has been handed. *)
Definition total_cap_len (pkts : list Packet) : Z :=
  foldr (fun pkt n => cap_len pkt + n) 0 pkts.

(** The packets a program has run the kernel on. *)
Definition packets_of (ops : list Op) : list Packet :=
  concat ((fun op => match op with OpRun pkts => pkts | _ => [] end) <$> ops).

(** *** Dispatch, as the specification has it *)

(** What the specification asks of one batch, said without the kernel:
    go through the entries registered for the event, in registration
    order; an entry whose id has been cleared by now is skipped, any
    other entry runs, and the ids its callback clears count as cleared
    from then on.  The batch, and the ids cleared once it is over. *)
Fixpoint expected_batch (prop : Property) (cleared : list hdlr_id)
    (entries : list Handler.Entry) : list Handler.Entry * list hdlr_id :=
  match entries with
  | [] => ([], cleared)
  | e :: rest =>
      if decide (Handler.id e ∈ cleared) then expected_batch prop cleared rest
      else
        let r := expected_batch prop
                   (cb_clears (Handler.callback e) prop ++ cleared) rest in
        (e :: r.1, r.2)
  end.

(** The batches of the events of a packet, in push order; [registered]
    gives the entries registered for an event when the dispatch starts. *)
Fixpoint expected_dispatch (registered : event_id → list Handler.Entry)
    (prop : Property) (events : list EventDef) (cleared : list hdlr_id)
    : list Handler.Entry * list hdlr_id :=
  match events with
  | [] => ([], cleared)
  | ev :: rest =>
      let b := expected_batch prop cleared (registered (ed_id ev)) in
      let r := expected_dispatch registered prop rest b.2 in
      (b.1 ++ r.1, r.2)
  end.

(** *** More scenarios *)

(** Two segments that arrived ahead of the one they follow: "world" and
    "!" are parked while the client's stream still expects "hello". *)
Definition bang : list byte := String.list_byte_of_string "!".

(** The session of S2, sequence numbers from 0, with both of them
    parked. *)
Definition world_and_bang_parked : Session :=
  Session_run
    [Scenario.call ACK 11 2001 bang (Scenario.from_A 20);
     Scenario.call ACK 6 2001 Scenario.world (Scenario.from_A 25)]
    (Scenario.established 0).

(** The handshake of S2 with initial sequence number 0, then a FIN of
    the client. *)
Definition fin_sent_by_client : list DecodeCall :=
  [Scenario.call SYN 0 0 [] (Scenario.from_A 0);
   Scenario.call (Z.lor SYN ACK) 2000 1 [] (Scenario.from_B 5);
   Scenario.call ACK 1 2001 [] (Scenario.from_A 10);
   Scenario.call (Z.lor FIN ACK) 1 2001 [] (Scenario.from_A 20)].

(** A 20-byte header whose data offset field is 0, then "hello". *)
Definition zero_offset_packet : Packet :=
  tcp_packet 0 (replicate 20 Byte.x00 ++ Scenario.hello).

(** A property with the timestamp [sec].[usec]. *)
Definition stamped (sec usec : Z) (p : Property) : Property :=
  {| prop_tv := Timeval sec usec;
     prop_src_addr := prop_src_addr p; prop_dst_addr := prop_dst_addr p;
     prop_src_port := prop_src_port p; prop_dst_port := prop_dst_port p;
     prop_events := prop_events p; prop_values := prop_values p |}.

(** The handshake of S2 on a slow path: the SYN leaves at 10.700000 s,
    the SYN|ACK comes at 11.400000 s.  The ACK will follow at
    12.200000 s, a second and a half after the SYN. *)
Definition slow_synack_sent : Session :=
  Session_run
    [Scenario.call SYN 1000 0 [] (stamped 10 700000 (Scenario.from_A 0));
     Scenario.call (Z.lor SYN ACK) 2000 1001 []
       (stamped 11 400000 (Scenario.from_B 0))]
    (Session_new (stamped 10 700000 (Scenario.from_A 0)) 1).

(** * Properties *)

Ltac case_ifs :=
  repeat match goal with
         | |- context [if ?b then _ else _] => destruct b eqn:?
         end.

(** ** Reasoning about the recursion *)

(** Whatever every activation preserves, the whole delivery preserves. *)
Lemma deliver_preserves (I : Session * Property → Prop) ack win sender recver :
  (∀ tgt st, I st →
     I (decode_stream_body (seg_flags tgt) (seg_seq tgt) ack (seg_data tgt)
          win sender recver st).1.2) →
  ∀ pending st, I st → I (deliver ack win sender recver pending st).
Proof.
  intros Hstep pending st.
  funelim (deliver ack win sender recver pending st); intros HI.
  - assumption.
  - apply H; [assumption|]. apply Hstep. assumption.
Qed.

Lemma decode_stream_preserves (I : Session * Property → Prop)
    flags seq ack data win sender recver :
  (∀ f s d st, I st →
     I (decode_stream_body f s ack d win sender recver st).1.2) →
  ∀ st, I st → I (decode_stream flags seq ack data win sender recver st).2.
Proof.
  intros Hstep st HI. unfold decode_stream. simpl.
  apply deliver_preserves; [intros; by apply Hstep|]. by apply Hstep.
Qed.

(** ** [Stream::send] *)

(** What [send] does, case by case.  In no case does it write
    [tx_size_]. *)
Lemma send_cases flags seq ack data_len s :
  send flags seq ack data_len s =
    if has_base_seq_ s then
      if next_seq_ s =? u32 (seq - base_seq_ s) then
        (true,
         {| has_base_seq_ := true; base_seq_ := base_seq_ s;
            next_seq_ := u32 (next_seq_ s + data_len);
            ack_ := ack_ s; win_size_ := win_size_ s; addr_ := addr_ s;
            port_ := port_ s; tx_size_ := tx_size_ s |})
      else (false, s)
    else (true, s).
Proof.
  unfold send. destruct (has_base_seq_ s) eqn:Hb; simpl; [|reflexivity].
  destruct (next_seq_ s =? _); reflexivity.
Qed.

Lemma send_tx_size flags seq ack data_len s :
  tx_size_ (send flags seq ack data_len s).2 = tx_size_ s.
Proof.
  rewrite send_cases.
  destruct (has_base_seq_ s); [destruct (_ =? _)|]; reflexivity.
Qed.

Lemma send_false flags seq ack data_len s :
  (send flags seq ack data_len s).1 = false →
  has_base_seq_ s = true ∧ next_seq_ s ≠ u32 (seq - base_seq_ s) ∧
  (send flags seq ack data_len s).2 = s.
Proof.
  rewrite send_cases. destruct (has_base_seq_ s); [|discriminate].
  destruct (next_seq_ s =? _) eqn:E; [discriminate|].
  intros _. apply Z.eqb_neq in E. done.
Qed.

(** C1 (as the code has it).  An in-sequence call with five bytes of data
    returns [true] and moves [next_seq_] from 1 to 6, but [tx_size_] is
    still 0 afterwards: [send] never adds [data_len] to it, so the
    [tx_server] and [tx_client] values the session publishes from
    [tx_size()] are stuck at zero. *)
Theorem send_in_sequence_keeps_tx_size_zero :
  send ACK 1001 0 5 stream_after_handshake =
    (true,
     {| has_base_seq_ := true; base_seq_ := 1000; next_seq_ := 6;
        ack_ := 0; win_size_ := 0; addr_ := []; port_ := 12345;
        tx_size_ := 0 |})
  ∧ tx_size (send ACK 1001 0 5 stream_after_handshake).2 = 0.
Proof. split; reflexivity. Qed.

(** The rest of what the specification says of [send] does hold: the
    result and the new [next_seq_] in each of the three cases. *)
Lemma send_next_seq flags seq ack data_len s :
  (has_base_seq_ s = false →
     send flags seq ack data_len s = (true, s))
  ∧ (has_base_seq_ s = true → u32 (seq - base_seq_ s) = next_seq_ s →
     (send flags seq ack data_len s).1 = true ∧
     next_seq_ (send flags seq ack data_len s).2 = u32 (next_seq_ s + data_len))
  ∧ (has_base_seq_ s = true → u32 (seq - base_seq_ s) ≠ next_seq_ s →
     send flags seq ack data_len s = (false, s)).
Proof.
  rewrite send_cases. split; [|split].
  - intros ->. reflexivity.
  - intros -> <-. rewrite Z.eqb_refl. split; reflexivity.
  - intros -> Hne. destruct (_ =? _) eqn:E; [|reflexivity].
    apply Z.eqb_eq in E. congruence.
Qed.

(** ** The status of a session *)

Lemma trans_state_log flags sender seq seg_len tv ssn :
  let r := trans_state flags sender seq seg_len tv ssn in
  (status_ r.2 = status_ ssn ∧ status_log_ r.2 = status_log_ ssn)
  ∨ (rank (status_ r.2) = S (rank (status_ ssn)) ∧
     status_log_ r.2 = status_log_ ssn ++ [status_ r.2]).
Proof.
  unfold trans_state.
  destruct (status_ ssn) eqn:Hs; simpl; case_ifs; simpl; rewrite ?Hs; auto.
Qed.

(** Outside [trans_state] an activation writes neither [status_] nor its
    history. *)
Lemma decode_stream_body_log f s ack d win sender recver st :
  let r := decode_stream_body f s ack d win sender recver st in
  (status_ r.1.2.1 = status_ st.1 ∧ status_log_ r.1.2.1 = status_log_ st.1)
  ∨ (rank (status_ r.1.2.1) = S (rank (status_ st.1)) ∧
     status_log_ r.1.2.1 = status_log_ st.1 ++ [status_ r.1.2.1]).
Proof.
  destruct st as [ssn p]. unfold decode_stream_body.
  destruct (send _ _ _ _ _) as [ok s'].
  destruct ok; simpl; [|by left].
  match goal with
  | |- context [trans_state ?a ?b ?c ?e ?g ?h] =>
      pose proof (trans_state_log a b c e g h) as Hts;
      destruct (trans_state a b c e g h) as [ns ssn3]
  end.
  simpl in Hts.
  destruct (buf_ ssn3) eqn:Hb; simpl; case_ifs; simpl;
    repeat (match goal with
            | |- context [match ?m !! ?k with _ => _ end] =>
                destruct (m !! k) eqn:?
            end; simpl);
    rewrite ?Hb; simpl; exact Hts.
Qed.

Lemma log_on_path_step ssn ssn' :
  log_on_path ssn →
  (status_ ssn' = status_ ssn ∧ status_log_ ssn' = status_log_ ssn)
  ∨ (rank (status_ ssn') = S (rank (status_ ssn)) ∧
     status_log_ ssn' = status_log_ ssn ++ [status_ ssn']) →
  log_on_path ssn'.
Proof.
  unfold log_on_path. intros Hinv [[Hs Hl] | [Hr Hl]].
  - by rewrite Hl, Hs.
  - rewrite Hl, Hinv, Hr.
    destruct (status_ ssn), (status_ ssn'); simpl in Hr; try discriminate Hr;
      reflexivity.
Qed.

Lemma log_step_prefix ssn ssn' :
  (status_ ssn' = status_ ssn ∧ status_log_ ssn' = status_log_ ssn)
  ∨ (rank (status_ ssn') = S (rank (status_ ssn)) ∧
     status_log_ ssn' = status_log_ ssn ++ [status_ ssn']) →
  status_log_ ssn `prefix_of` status_log_ ssn' ∧
  (rank (status_ ssn) ≤ rank (status_ ssn'))%nat.
Proof.
  intros [[Hs Hl] | [Hr Hl]]; rewrite Hl.
  - rewrite Hs. done.
  - split; [by apply prefix_app_r | lia].
Qed.

Lemma status_step_refl ssn : status_step ssn ssn.
Proof. unfold status_step. auto. Qed.

Lemma status_step_trans a b c :
  status_step a b → status_step b c → status_step a c.
Proof.
  unfold status_step. intros (H1 & H2 & H3) (H4 & H5 & H6).
  split; [auto|]. split; [by etrans | lia].
Qed.

Lemma decode_stream_body_status_step f s ack d win sender recver st :
  status_step st.1 (decode_stream_body f s ack d win sender recver st).1.2.1.
Proof.
  pose proof (decode_stream_body_log f s ack d win sender recver st) as H.
  simpl in H. unfold status_step. split.
  - intros Hinv. by eapply log_on_path_step.
  - by apply log_step_prefix.
Qed.

Lemma decode_stream_status_step flags seq ack data win sender recver st :
  status_step st.1 (decode_stream flags seq ack data win sender recver st).2.1.
Proof.
  apply (decode_stream_preserves (fun st' => status_step st.1 st'.1)).
  - intros f s d st' H. eapply status_step_trans; [exact H|].
    apply decode_stream_body_status_step.
  - apply status_step_refl.
Qed.

Lemma Session_decode_status_step flags seq ack data win st :
  status_step st.1 (Session_decode flags seq ack data win st).1.
Proof.
  destruct st as [ssn p]. unfold Session_decode.
  set (ssn0 := match buf_ ssn with Some _ => with_buf None ssn | None => ssn end).
  assert (H0 : status_step ssn ssn0).
  { subst ssn0. destruct (buf_ ssn); [|apply status_step_refl].
    unfold status_step, log_on_path. simpl. auto. }
  destruct (is_src (client_ ssn0) p);
    match goal with
    | |- context [decode_stream ?a ?b ?c ?d ?e ?f ?g ?h] =>
        pose proof (decode_stream_status_step a b c d e f g h) as H1;
        destruct (decode_stream a b c d e f g h) as [ok [ssn' p']]
    end; simpl in *; by eapply status_step_trans.
Qed.

Lemma Session_run_status_step calls ssn :
  status_step ssn (Session_run calls ssn).
Proof.
  revert ssn. induction calls as [|c calls IH]; intros ssn; simpl.
  - apply status_step_refl.
  - eapply status_step_trans; [|apply IH].
    apply (Session_decode_status_step _ _ _ _ _ (ssn, dc_prop c)).
Qed.

Lemma Session_run_app calls more ssn :
  Session_run (calls ++ more) ssn = Session_run more (Session_run calls ssn).
Proof. unfold Session_run. apply fold_left_app. Qed.

Lemma log_on_path_last ssn :
  log_on_path ssn → last (status_log_ ssn) = Some (status_ ssn).
Proof. unfold log_on_path. intros ->. by destruct (status_ ssn). Qed.

Lemma log_on_path_prefix ssn :
  log_on_path ssn → status_log_ ssn `prefix_of` status_path.
Proof. unfold log_on_path. intros ->. apply prefix_take. Qed.

(** C3.  Take a session as its constructor leaves it and let it receive
    any sequence of [decode] calls.  The values its status has held, in
    order, are a prefix of the path NONE, SYN_SENT, SYNACK_SENT,
    ESTABLISHED, CLOSING, CLOSED, ending at the current status; whatever
    calls follow, the history only grows and the status never moves back
    along the path; and a status that is CLOSED stays CLOSED. *)
Theorem status_history_is_path_prefix (p : Property) (ssn_id : Z)
    (calls more : list DecodeCall) :
  let ssn := Session_run calls (Session_new p ssn_id) in
  let ssn' := Session_run more ssn in
  status_log_ ssn `prefix_of` status_path
  ∧ last (status_log_ ssn) = Some (status_ ssn)
  ∧ status_log_ ssn `prefix_of` status_log_ ssn'
  ∧ (rank (status_ ssn) ≤ rank (status_ ssn'))%nat
  ∧ (status_ ssn = CLOSED → status_ ssn' = CLOSED).
Proof.
  intros ssn ssn'.
  assert (Hinv : log_on_path ssn).
  { apply (Session_run_status_step calls (Session_new p ssn_id)).
    reflexivity. }
  destruct (Session_run_status_step more ssn) as (_ & Hpre & Hrank).
  fold ssn' in Hpre, Hrank.
  repeat split.
  - by apply log_on_path_prefix.
  - by apply log_on_path_last.
  - exact Hpre.
  - exact Hrank.
  - intros Hc. rewrite Hc in Hrank. simpl in Hrank.
    destruct (status_ ssn'); simpl in Hrank; try lia. reflexivity.
Qed.

(** ** Completing the handshake *)

Lemma established_by_body sender log estb rtt events v f s ack d win recver st :
  established_by sender log estb rtt events v st →
  established_by sender log estb rtt events v
    (decode_stream_body f s ack d win sender recver st).1.2.
Proof.
  destruct st as [ssn p]. intros [Hst [rest Hlog] He Hr Hev Hv]. simpl in *.
  unfold decode_stream_body.
  destruct (send _ _ _ _ _) as [ok s'].
  destruct ok; simpl.
  2:{ split; simpl; eauto. }
  unfold trans_state. simpl.
  destruct Hst as [Hst | [Hst Hcl]]; rewrite Hst; simpl.
  - destruct (Z.land f FIN >? 0); simpl;
      destruct (buf_ ssn) eqn:Hb; simpl; case_ifs; simpl;
      repeat (match goal with
              | |- context [match ?m !! ?k with _ => _ end] =>
                  destruct (m !! k) eqn:?
              end; simpl);
      rewrite ?Hb; simpl;
      (split; simpl;
       [ auto
       | rewrite Hlog; first [ by exists rest
                             | exists (rest ++ [CLOSING]);
                               by rewrite <- app_assoc ]
       | done | done | done
       | by rewrite lookup_insert_ne ]).
  - rewrite Hcl. rewrite bool_decide_eq_true_2 by done.
    rewrite andb_false_r. simpl.
    destruct (buf_ ssn) eqn:Hb; simpl; case_ifs; simpl;
      repeat (match goal with
              | |- context [match ?m !! ?k with _ => _ end] =>
                  destruct (m !! k) eqn:?
              end; simpl);
      rewrite ?Hb; simpl;
      (split; simpl;
       [ auto | by exists rest | done | done | done
       | by rewrite lookup_insert_ne ]).
Qed.

(** The activation that completes the handshake. *)
Lemma decode_stream_body_establishes seq ack data win recver ssn p :
  status_ ssn = SYNACK_SENT →
  (send ACK seq ack (Z.of_nat (length data)) (client_ ssn)).1 = true →
  let r := decode_stream_body ACK seq ack data win Client recver (ssn, p) in
  let rtt := timersub (prop_tv p) (ts_init_ ssn) in
  status_ r.1.2.1 = ESTABLISHED
  ∧ status_log_ r.1.2.1 = status_log_ ssn ++ [ESTABLISHED]
  ∧ ts_estb_ r.1.2.1 = prop_tv p
  ∧ ts_rtt_ r.1.2.1 = rtt
  ∧ prop_events r.1.2.2 = prop_events p ++ [ev_estb_]
  ∧ prop_values r.1.2.2 !! p_rtt_3wh_ = Some (rtt_3wh_value rtt)
  ∧ (seg_map_ ssn
       !! next_seq_ (send ACK seq ack (Z.of_nat (length data)) (client_ ssn)).2
     = None → r.2 = []).
Proof.
  intros Hst Hok. unfold decode_stream_body. simpl stream_of.
  destruct (send _ _ _ _ _) as [ok s']. simpl in Hok. subst ok. simpl.
  unfold trans_state. simpl. rewrite Hst. simpl.
  destruct (buf_ ssn) eqn:Hb; simpl;
    (destruct (0 <? size (seg_map_ ssn))%nat; simpl;
     [|repeat split; simpl; try done;
       rewrite lookup_insert_ne by done; apply lookup_insert_eq]);
    (match goal with
     | |- context [match ?m !! ?k with _ => _ end] =>
         assert (Hk : k = next_seq_ s') by (by destruct recver);
         rewrite Hk; destruct (m !! next_seq_ s') eqn:Hl
     end; simpl; rewrite ?Hb; simpl;
     repeat split; simpl; try done;
     rewrite lookup_insert_ne by done; apply lookup_insert_eq).
Qed.

(** What [timersub] computes: the difference of the two times in
    microseconds, split into seconds and a microsecond part that is
    below a second again when those of the operands are. *)
Lemma timersub_microseconds a b :
  tv_sec (timersub a b) * 1000000 + tv_usec (timersub a b)
  = (tv_sec a * 1000000 + tv_usec a) - (tv_sec b * 1000000 + tv_usec b).
Proof.
  unfold timersub. cbv zeta.
  destruct (tv_usec a - tv_usec b <? 0); simpl; lia.
Qed.

Lemma timersub_normal a b :
  0 ≤ tv_usec a < 1000000 → 0 ≤ tv_usec b < 1000000 →
  0 ≤ tv_usec (timersub a b) < 1000000.
Proof.
  intros Ha Hb. unfold timersub. cbv zeta.
  destruct (tv_usec a - tv_usec b <? 0) eqn:E; simpl;
    [apply Z.ltb_lt in E | apply Z.ltb_ge in E]; lia.
Qed.

(** C2.  A session in SYNACK_SENT receives a packet from its client whose
    masked flags are exactly ACK and whose sequence number [send] accepts.
    The status then becomes ESTABLISHED (the next entry of its history),
    [ts_estb_] is the packet's timestamp, and [ts_rtt_] is [ts_estb_]
    minus [ts_init_]: the seconds and microseconds are subtracted
    separately and a second is borrowed when the microseconds come out
    negative, so that [ts_rtt_] counts as many microseconds as lie
    between the two timestamps.  The [established] event is the one event
    pushed, and [rtt_3wh] holds that number of microseconds as the four
    bytes of a 32-bit integer, least significant first, tagged
    little-endian.  The status is still ESTABLISHED when [decode] returns
    unless a parked chain became deliverable; then it is ESTABLISHED or,
    after a parked FIN of the client, CLOSING. *)
Theorem handshake_ack_establishes (hdr_flags seq ack : Z) (data : list byte)
    (win : Z) (ssn : Session) (p : Property) :
  status_ ssn = SYNACK_SENT →
  mask_flags hdr_flags = ACK →
  is_src (client_ ssn) p = true →
  (send ACK seq ack (Z.of_nat (length data)) (client_ ssn)).1 = true →
  let r := Session_decode (mask_flags hdr_flags) seq ack data win (ssn, p) in
  let t := prop_tv p in
  let t0 := ts_init_ ssn in
  let rtt :=
    if tv_usec t - tv_usec t0 <? 0
    then {| tv_sec := tv_sec t - tv_sec t0 - 1;
            tv_usec := tv_usec t - tv_usec t0 + 1000000 |}
    else {| tv_sec := tv_sec t - tv_sec t0;
            tv_usec := tv_usec t - tv_usec t0 |} in
  let usecs :=
    (tv_sec t * 1000000 + tv_usec t) - (tv_sec t0 * 1000000 + tv_usec t0) in
  (∃ rest, status_log_ r.1 = status_log_ ssn ++ ESTABLISHED :: rest)
  ∧ (status_ r.1 = ESTABLISHED ∨ status_ r.1 = CLOSING)
  ∧ (seg_map_ ssn
       !! next_seq_ (send ACK seq ack (Z.of_nat (length data)) (client_ ssn)).2
     = None → status_ r.1 = ESTABLISHED)
  ∧ ts_estb_ r.1 = t
  ∧ ts_rtt_ r.1 = rtt
  ∧ tv_sec (ts_rtt_ r.1) * 1000000 + tv_usec (ts_rtt_ r.1) = usecs
  ∧ prop_events r.2 = prop_events p ++ [ev_estb_]
  ∧ prop_values r.2 !! p_rtt_3wh_ =
      Some {| v_data := le_bytes 4 (u32 usecs); v_endian := Some LITTLE |}.
Proof.
  intros Hst -> Hsrc Hok r t t0 rtt usecs.
  assert (Hrtt : rtt = timersub (prop_tv p) (ts_init_ ssn)) by reflexivity.
  assert (Hus : tv_sec rtt * 1000000 + tv_usec rtt = usecs)
    by (rewrite Hrtt; apply timersub_microseconds).
  clearbody rtt usecs. subst rtt t t0.
  subst r. unfold Session_decode.
  set (ssn0 := match buf_ ssn with Some _ => with_buf None ssn | None => ssn end).
  assert (H0 : status_ ssn0 = status_ ssn ∧ client_ ssn0 = client_ ssn ∧
               ts_init_ ssn0 = ts_init_ ssn ∧ seg_map_ ssn0 = seg_map_ ssn ∧
               status_log_ ssn0 = status_log_ ssn).
  { subst ssn0. by destruct (buf_ ssn). }
  destruct H0 as (Hs0 & Hc0 & Hi0 & Hm0 & Hl0).
  rewrite Hc0, Hsrc.
  pose proof (decode_stream_body_establishes seq ack data win Server ssn0 p) as Hb.
  rewrite Hs0, Hc0, Hi0, Hm0, Hl0 in Hb. specialize (Hb Hst Hok).
  cbv zeta in Hb.
  destruct Hb as (B1 & B2 & B3 & B4 & B5 & B6 & B7).
  unfold decode_stream. simpl.
  set (b := decode_stream_body ACK seq ack data win Client Server (ssn0, p)) in *.
  set (rtt := timersub (prop_tv p) (ts_init_ ssn)) in *.
  assert (Hinv : established_by Client (status_log_ ssn) (prop_tv p) rtt
                   (prop_events p ++ [ev_estb_]) (rtt_3wh_value rtt)
                   (deliver ack win Client Server b.2 b.1.2)).
  { apply deliver_preserves.
    - intros tgt st. apply established_by_body.
    - split; [by left | by exists [] | done | done | done | done]. }
  assert (Hnone : seg_map_ ssn
            !! next_seq_ (send ACK seq ack (Z.of_nat (length data)) (client_ ssn)).2
            = None →
          status_ (deliver ack win Client Server b.2 b.1.2).1 = ESTABLISHED).
  { intros Hk. rewrite (B7 Hk). by simp deliver. }
  destruct Hinv as [I1 I2 I3 I4 I5 I6].
  destruct (deliver ack win Client Server b.2 b.1.2) as [ssn' p'].
  simpl in *. rewrite I4, Hus. repeat split; try done.
  - destruct I1 as [?|[? _]]; auto.
  - rewrite lookup_insert_ne by done. rewrite lookup_insert_ne by done.
    rewrite I6. unfold rtt_3wh_value, Value_cpy. by rewrite Hus.
Qed.

(** ** Parking *)

Lemma park_lookup k seg m k' :
  park k seg m !! k' =
    if decide (k = k') then Some (default [] (m !! k) ++ [seg]) else m !! k'.
Proof.
  unfold park. destruct (m !! k) as [chain|] eqn:Hk; simpl;
    rewrite lookup_insert; by case_decide.
Qed.

(** C5 (amended).  Whenever an activation of [decode_stream] leaves under
    some key of [seg_map_] a chain that was not there before, [send] has
    refused the segment, the key is the segment's sequence number relative
    to the sender's base, that key differs from the sender's [next_seq_],
    and the chain is the old chain under the key followed by the new
    segment.  The key may lie on either side of [next_seq_]. *)
Theorem parked_key_is_relative_seq (flags seq ack : Z) (data : list byte)
    (win : Z) (sender recver : StreamId) (st : Session * Property)
    (k : Z) (chain : list Segment) :
  let r := decode_stream_body flags seq ack data win sender recver st in
  let s := stream_of sender st.1 in
  seg_map_ r.1.2.1 !! k = Some chain →
  seg_map_ st.1 !! k ≠ Some chain →
  r.1.1 = false
  ∧ has_base_seq_ s = true
  ∧ k = u32 (seq - base_seq_ s)
  ∧ k ≠ next_seq_ s
  ∧ chain = default [] (seg_map_ st.1 !! k)
              ++ [{| seg_data := data; seg_seq := seq; seg_flags := flags |}].
Proof.
  destruct st as [ssn p]. simpl. unfold decode_stream_body.
  pose proof (send_false flags seq ack (Z.of_nat (length data))
                (stream_of sender ssn)) as Hf.
  destruct (send _ _ _ _ _) as [ok s'] eqn:Hsend.
  destruct ok; simpl in *.
  - match goal with
    | |- context [trans_state ?a ?b ?c ?e ?g ?h] =>
        pose proof (trans_state_seg_map a b c e g h) as Hm;
        destruct (trans_state a b c e g h) as [ns ssn3]
    end.
    simpl in Hm.
    destruct (buf_ ssn3) eqn:Hb; simpl; case_ifs; simpl;
      repeat (match goal with
              | |- context [match ?m !! ?j with _ => _ end] =>
                  destruct (m !! j) eqn:?
              end; simpl);
      rewrite ?Hb; simpl; rewrite Hm; intros H1 H2;
      try (apply lookup_delete_Some in H1 as [_ H1]); congruence.
  - destruct (Hf eq_refl) as (Hbase & Hne & ->).
    intros H1 H2. rewrite park_lookup in H1.
    assert (Hs : stream_of sender (with_stream sender (stream_of sender ssn) ssn)
                 = stream_of sender ssn) by (by destruct sender).
    rewrite Hs in H1. unfold to_rel_seq in H1.
    destruct (decide (u32 (seq - base_seq_ (stream_of sender ssn)) = k))
      as [<-|]; [|congruence].
    injection H1 as <-. done.
Qed.

Example established_is_established :
  status_ (Scenario.established 0) = ESTABLISHED ∧
  next_seq_ (client_ (Scenario.established 0)) = 1 ∧
  base_seq_ (client_ (Scenario.established 0)) = 0.
Proof. vm_compute. done. Qed.

(** The ACK of the handshake arrives at 12.200000 s, the SYN had left at
    10.700000 s: a second is borrowed, and the round trip is 1.5 s. *)
Lemma handshake_ack_establishes_slow_path :
  let ssn := slow_synack_sent in
  let p := stamped 12 200000 (Scenario.from_A 0) in
  let r := Session_decode (mask_flags ACK) 1001 2001 [] 65535 (ssn, p) in
  let t := prop_tv p in
  let t0 := ts_init_ ssn in
  let rtt :=
    if tv_usec t - tv_usec t0 <? 0
    then {| tv_sec := tv_sec t - tv_sec t0 - 1;
            tv_usec := tv_usec t - tv_usec t0 + 1000000 |}
    else {| tv_sec := tv_sec t - tv_sec t0;
            tv_usec := tv_usec t - tv_usec t0 |} in
  let usecs :=
    (tv_sec t * 1000000 + tv_usec t) - (tv_sec t0 * 1000000 + tv_usec t0) in
  (∃ rest, status_log_ r.1 = status_log_ ssn ++ ESTABLISHED :: rest)
  ∧ (status_ r.1 = ESTABLISHED ∨ status_ r.1 = CLOSING)
  ∧ (seg_map_ ssn
       !! next_seq_ (send ACK 1001 2001 (Z.of_nat (length (@nil byte)))
                       (client_ ssn)).2
     = None → status_ r.1 = ESTABLISHED)
  ∧ ts_estb_ r.1 = t
  ∧ ts_rtt_ r.1 = rtt
  ∧ tv_sec (ts_rtt_ r.1) * 1000000 + tv_usec (ts_rtt_ r.1) = usecs
  ∧ prop_events r.2 = prop_events p ++ [ev_estb_]
  ∧ prop_values r.2 !! p_rtt_3wh_ =
      Some {| v_data := le_bytes 4 (u32 usecs); v_endian := Some LITTLE |}.
Proof.
  pose proof (handshake_ack_establishes ACK 1001 2001 [] 65535
           slow_synack_sent (stamped 12 200000 (Scenario.from_A 0))) as H.
  intros ssn p. apply H.
  all: vm_compute; reflexivity.
Defined.

(** The same call, in numbers: [ts_rtt_] is 1 s and 500000 us, and
    [rtt_3wh] holds 1500000 = 0x16e360. *)
Example rtt_3wh_slow_path :
  let r := Session_decode (mask_flags ACK) 1001 2001 [] 65535
             (slow_synack_sent, stamped 12 200000 (Scenario.from_A 0)) in
  ts_init_ r.1 = Timeval 10 700000
  ∧ ts_estb_ r.1 = Timeval 12 200000
  ∧ ts_rtt_ r.1 = Timeval 1 500000
  ∧ prop_values r.2 !! p_rtt_3wh_
    = Some {| v_data := [Byte.x60; Byte.xe3; Byte.x16; Byte.x00];
              v_endian := Some LITTLE |}.
Proof. vm_compute. done. Qed.

(** Scenario S2: the ACK arrives 10 microseconds after the SYN. *)
Example rtt_3wh_S2 :
  prop_values
    (Session_decode (mask_flags ACK) 1001 2001 [] 65535
       (Scenario.synack_sent 1000, Scenario.from_A 10)).2 !! p_rtt_3wh_
  = Some {| v_data := [Byte.x0a; Byte.x00; Byte.x00; Byte.x00];
            v_endian := Some LITTLE |}.
Proof. vm_compute. reflexivity. Qed.

Lemma parked_key_is_relative_seq_retransmission :
  let st := (after_hello, Scenario.from_A 30) in
  let r := decode_stream_body ACK 1001 2001 Scenario.hello 65535 Client Server st in
  let s := stream_of Client st.1 in
  r.1.1 = false
  ∧ has_base_seq_ s = true
  ∧ 1 = u32 (1001 - base_seq_ s)
  ∧ 1 ≠ next_seq_ s
  ∧ [hello_again] = default [] (seg_map_ st.1 !! 1) ++ [hello_again].
Proof.
  apply (parked_key_is_relative_seq ACK 1001 2001 Scenario.hello 65535
           Client Server (after_hello, Scenario.from_A 30) 1 [hello_again]).
  - vm_compute; reflexivity.
  - vm_compute; discriminate.
Defined.

(** C5 as stated fails: the key inserted for the retransmitted segment is
    1, the sender's [next_seq_] at that moment is 6. *)
Lemma parked_key_below_next_seq :
  let st := (after_hello, Scenario.from_A 30) in
  let r := decode_stream_body ACK 1001 2001 Scenario.hello 65535
             Client Server st in
  seg_map_ st.1 !! 1 = None
  ∧ seg_map_ r.1.2.1 !! 1 = Some [hello_again]
  ∧ next_seq_ (stream_of Client st.1) = 6
  ∧ ¬ (1 > next_seq_ (stream_of Client st.1)).
Proof. vm_compute. repeat split; discriminate. Qed.

(** ** Reassembly *)

Lemma clear_buf_eq ssn :
  match buf_ ssn with Some _ => with_buf None ssn | None => ssn end
  = with_buf None ssn.
Proof. destruct ssn as [? ? ? ? ? ? ? ? [b|] ? ?]; reflexivity. Qed.

Lemma Session_decode_from_client f seq ack d win ssn p :
  is_src (client_ ssn) p = true →
  let r := decode_stream f seq ack d win Client Server (with_buf None ssn, p) in
  (Session_decode f seq ack d win (ssn, p)).1 = r.2.1 ∧
  prop_values (Session_decode f seq ack d win (ssn, p)).2 !! p_data_
    = prop_values r.2.2 !! p_data_.
Proof.
  intros Hsrc. unfold Session_decode. rewrite clear_buf_eq.
  change (client_ (with_buf None ssn)) with (client_ ssn). rewrite Hsrc.
  cbv zeta.
  destruct (decode_stream _ _ _ _ _ _ _ _) as [ok [ssn' p']]. simpl.
  split; [reflexivity|].
  rewrite lookup_insert_ne by done. by rewrite lookup_insert_ne by done.
Qed.

(** A segment the client's stream does not expect yet is parked, and
    nothing is published. *)
Lemma decode_stream_parks f seq ack d win ssn p :
  has_base_seq_ (client_ ssn) = true →
  u32 (seq - base_seq_ (client_ ssn)) ≠ next_seq_ (client_ ssn) →
  (decode_stream f seq ack d win Client Server (ssn, p)).2 =
    (with_seg_map
       (park (u32 (seq - base_seq_ (client_ ssn)))
             {| seg_data := d; seg_seq := seq; seg_flags := f |}
             (seg_map_ ssn))
       (with_stream Client (client_ ssn) ssn), p).
Proof.
  intros Hb Hne. unfold decode_stream, decode_stream_body. simpl stream_of.
  destruct (send_next_seq f seq ack (Z.of_nat (length d)) (client_ ssn))
    as (_ & _ & ->); [done|done|].
  simpl. by simp deliver.
Qed.

(** An in-sequence segment without FIN on an ESTABLISHED session whose
    only parked chain sits right behind it: the activation publishes the
    segment, takes the chain out and starts the reassembly buffer. *)
Lemma decode_stream_body_takes_chain f seq ack d win ssn p chain :
  status_ ssn = ESTABLISHED →
  Z.land f FIN = 0 →
  buf_ ssn = None →
  has_base_seq_ (client_ ssn) = true →
  u32 (seq - base_seq_ (client_ ssn)) = next_seq_ (client_ ssn) →
  seg_map_ ssn =
    {[ u32 (next_seq_ (client_ ssn) + Z.of_nat (length d)) := chain ]} →
  let r := decode_stream_body f seq ack d win Client Server (ssn, p) in
  r.2 = chain
  ∧ buf_ r.1.2.1 = Some d
  ∧ seg_map_ r.1.2.1 = ∅
  ∧ has_base_seq_ (client_ r.1.2.1) = true
  ∧ base_seq_ (client_ r.1.2.1) = base_seq_ (client_ ssn)
  ∧ next_seq_ (client_ r.1.2.1)
      = u32 (next_seq_ (client_ ssn) + Z.of_nat (length d)).
Proof.
  intros Hst Hfin Hbuf Hb Hseq Hmap. unfold decode_stream_body.
  simpl stream_of. rewrite send_cases, Hb, Hseq, Z.eqb_refl. simpl.
  unfold trans_state. simpl. rewrite Hst, Hfin. simpl.
  rewrite Hbuf. simpl. rewrite Hmap, map_size_singleton. simpl.
  unfold next_seq. simpl. rewrite lookup_singleton_eq. simpl.
  rewrite Hbuf. simpl. rewrite Hmap, delete_singleton_eq. done.
Qed.

(** An in-sequence segment: the activation publishes the reassembly
    buffer followed by the segment, or the segment alone when there is no
    buffer; with nothing parked it takes no chain out. *)
Lemma decode_stream_body_publishes f seq ack d win sender recver ssn p :
  (send f seq ack (Z.of_nat (length d)) (stream_of sender ssn)).1 = true →
  let r := decode_stream_body f seq ack d win sender recver (ssn, p) in
  prop_values r.1.2.2 !! p_data_
    = Some (Value_set (default [] (buf_ ssn) ++ d))
  ∧ (seg_map_ ssn = ∅ → r.2 = [] ∧ seg_map_ r.1.2.1 = ∅).
Proof.
  intros Hok. unfold decode_stream_body.
  destruct (send _ _ _ _ _) as [ok s']. simpl in Hok. subst ok. simpl.
  match goal with
  | |- context [trans_state ?a ?b ?c ?e ?g ?h] =>
      pose proof (trans_state_seg_map a b c e g h) as Hm;
      pose proof (trans_state_buf a b c e g h) as Hbf;
      destruct (trans_state a b c e g h) as [ns ssn3]
  end.
  simpl in Hm, Hbf. rewrite Hbf.
  destruct (buf_ ssn) as [b|] eqn:Hb; simpl.
  - split.
    + case_ifs; simpl;
        repeat (match goal with
                | |- context [match ?m !! ?k with _ => _ end] =>
                    destruct (m !! k) eqn:?
                end; simpl); apply lookup_insert_eq.
    + intros He. rewrite Hm, He, map_size_empty. simpl. by rewrite Hm.
  - split.
    + case_ifs; simpl;
        repeat (match goal with
                | |- context [match ?m !! ?k with _ => _ end] =>
                    destruct (m !! k) eqn:?
                end; simpl); apply lookup_insert_eq.
    + intros He. rewrite Hm, He, map_size_empty. simpl. by rewrite Hm.
Qed.

Lemma decode_stream_body_advances f seq ack d win ssn p :
  status_ ssn = ESTABLISHED →
  Z.land f FIN = 0 →
  has_base_seq_ (client_ ssn) = true →
  u32 (seq - base_seq_ (client_ ssn)) = next_seq_ (client_ ssn) →
  let r := decode_stream_body f seq ack d win Client Server (ssn, p) in
  status_ r.1.2.1 = ESTABLISHED
  ∧ has_base_seq_ (client_ r.1.2.1) = true
  ∧ base_seq_ (client_ r.1.2.1) = base_seq_ (client_ ssn)
  ∧ next_seq_ (client_ r.1.2.1)
      = u32 (next_seq_ (client_ ssn) + Z.of_nat (length d))
  ∧ addr_ (client_ r.1.2.1) = addr_ (client_ ssn)
  ∧ port_ (client_ r.1.2.1) = port_ (client_ ssn).
Proof.
  intros Hst Hfin Hb Hseq. unfold decode_stream_body.
  simpl stream_of. rewrite send_cases, Hb, Hseq, Z.eqb_refl. simpl.
  unfold trans_state. simpl. rewrite Hst, Hfin. simpl.
  destruct (buf_ ssn) eqn:Hbuf; simpl; case_ifs; simpl;
    repeat (match goal with
            | |- context [match ?m !! ?k with _ => _ end] =>
                destruct (m !! k) eqn:?
            end; simpl); rewrite ?Hbuf; done.
Qed.

Lemma is_src_same_endpoint s s' p :
  addr_ s' = addr_ s → port_ s' = port_ s → is_src s' p = is_src s p.
Proof. unfold is_src, Stream_match. by intros -> ->. Qed.

Lemma send_accepts f seq ack len s :
  has_base_seq_ s = true → u32 (seq - base_seq_ s) = next_seq_ s →
  (send f seq ack len s).1 = true.
Proof.
  intros Hb Hs.
  by destruct (send_next_seq f seq ack len s) as (_ & H & _);
    destruct (H Hb Hs).
Qed.

(** C4 (amended).  On an ESTABLISHED session with nothing parked, let
    the client send payload [d1] at the sequence number its stream expects
    and payload [d2] right behind it.  If [d2] arrives first it is parked
    and publishes no [data]; when [d1] then arrives, [data] is published
    as [d1 ++ d2] and nothing stays parked.  That is the concatenation of
    what in-order arrival publishes, [d1] on the first packet and [d2] on
    the second. *)
Theorem reassembly_publishes_concatenation
    (ssn : Session) (p1 p2 : Property)
    (f1 f2 seq1 seq2 ack1 ack2 win1 win2 : Z) (d1 d2 : list byte) :
  let c := client_ ssn in
  let k2 := u32 (next_seq_ c + Z.of_nat (length d1)) in
  status_ ssn = ESTABLISHED →
  seg_map_ ssn = ∅ →
  has_base_seq_ c = true →
  is_src c p1 = true →
  is_src c p2 = true →
  Z.land f1 FIN = 0 →
  u32 (seq1 - base_seq_ c) = next_seq_ c →
  u32 (seq2 - base_seq_ c) = k2 →
  k2 ≠ next_seq_ c →
  let parked := Session_decode f2 seq2 ack2 d2 win2 (ssn, p2) in
  let joined := Session_decode f1 seq1 ack1 d1 win1 (parked.1, p1) in
  let first := Session_decode f1 seq1 ack1 d1 win1 (ssn, p1) in
  let second := Session_decode f2 seq2 ack2 d2 win2 (first.1, p2) in
  prop_values parked.2 !! p_data_ = prop_values p2 !! p_data_
  ∧ seg_map_ parked.1 =
      {[ k2 := [{| seg_data := d2; seg_seq := seq2; seg_flags := f2 |}] ]}
  ∧ prop_values joined.2 !! p_data_ = Some (Value_set (d1 ++ d2))
  ∧ seg_map_ joined.1 = ∅
  ∧ prop_values first.2 !! p_data_ = Some (Value_set d1)
  ∧ prop_values second.2 !! p_data_ = Some (Value_set d2).
Proof.
  intros c k2 Hst Hmap Hb Hsrc1 Hsrc2 Hfin Hseq1 Hseq2 Hne.
  intros parked joined first second.
  (* the out-of-order segment is parked *)
  destruct (Session_decode_from_client f2 seq2 ack2 d2 win2 ssn p2 Hsrc2)
    as [Hp1 Hp2]. fold parked in Hp1, Hp2.
  rewrite decode_stream_parks in Hp1, Hp2; [|done|simpl; fold c; congruence..].
  simpl in Hp1, Hp2. fold c in Hp1. rewrite Hseq2, Hmap in Hp1.
  assert (Hpark : park k2 {| seg_data := d2; seg_seq := seq2; seg_flags := f2 |} ∅
                  = {[ k2 := [{| seg_data := d2; seg_seq := seq2;
                                 seg_flags := f2 |}] ]}).
  { unfold park. rewrite lookup_empty. apply insert_empty. }
  rewrite Hpark in Hp1.
  (* the segment it was waiting for *)
  assert (Hsrc1' : is_src (client_ parked.1) p1 = true).
  { rewrite Hp1. exact Hsrc1. }
  destruct (Session_decode_from_client f1 seq1 ack1 d1 win1 parked.1 p1 Hsrc1')
    as [Hj1 Hj2]. fold joined in Hj1, Hj2.
  unfold decode_stream in Hj1, Hj2. simpl in Hj1, Hj2.
  pose proof (decode_stream_body_takes_chain f1 seq1 ack1 d1 win1
                (with_buf None parked.1) p1
                [{| seg_data := d2; seg_seq := seq2; seg_flags := f2 |}]) as Hb1.
  pose proof (decode_stream_body_publishes f1 seq1 ack1 d1 win1 Client Server
                (with_buf None parked.1) p1) as Hpub1.
  rewrite Hp1 in Hb1, Hpub1. simpl in Hb1, Hpub1. fold c in Hb1, Hpub1. fold k2 in Hb1.
  specialize (Hb1 Hst Hfin eq_refl Hb Hseq1 eq_refl).
  rewrite Hp1 in Hj1, Hj2.
  set (b1 := decode_stream_body f1 seq1 ack1 d1 win1 Client Server _) in *.
  destruct Hb1 as (Hc & Hbuf & Hm & Hb' & Hbase & Hnext).
  rewrite Hc in Hj1, Hj2. simp deliver in Hj1, Hj2. simpl in Hj1, Hj2.
  rewrite app_nil_r in Hj1, Hj2.
  destruct b1 as [[ok1 [s1 q1]] ch1]. simpl in Hc, Hbuf, Hm, Hb', Hbase, Hnext, Hj1, Hj2.
  pose proof (decode_stream_body_publishes f2 seq2 ack1 d2 win1 Client Server
                s1 q1) as Hpub2.
  simpl in Hpub2. rewrite Hbuf in Hpub2. simpl in Hpub2.
  destruct Hpub2 as [Hd Hc2].
  { apply send_accepts; [done|]. rewrite Hbase. fold c. congruence. }
  destruct (Hc2 Hm) as [Hnil Hm2].
  rewrite Hnil in Hj1, Hj2. simp deliver in Hj1, Hj2.
  (* in-order arrival *)
  destruct (Session_decode_from_client f1 seq1 ack1 d1 win1 ssn p1 Hsrc1)
    as [Hf1 Hf2]. fold first in Hf1, Hf2.
  unfold decode_stream in Hf1, Hf2. simpl in Hf1, Hf2.
  pose proof (decode_stream_body_publishes f1 seq1 ack1 d1 win1 Client Server
                (with_buf None ssn) p1) as Hq1.
  pose proof (decode_stream_body_advances f1 seq1 ack1 d1 win1
                (with_buf None ssn) p1 Hst Hfin Hb Hseq1) as Ha1.
  simpl in Hq1, Ha1. fold c in Hq1, Ha1.
  destruct Hq1 as [Hd1 Hc1]; [by apply send_accepts|].
  destruct (Hc1 Hmap) as [Hnil1 Hm1].
  rewrite Hnil1 in Hf1, Hf2. simp deliver in Hf1, Hf2. rewrite <- Hf1 in Hm1.
  destruct Ha1 as (_ & A2 & A3 & A4 & A5 & A6). rewrite <- Hf1 in A2, A3, A4, A5, A6.
  assert (Hsrc2' : is_src (client_ first.1) p2 = true).
  { rewrite <- Hsrc2. by apply is_src_same_endpoint. }
  destruct (Session_decode_from_client f2 seq2 ack2 d2 win2 first.1 p2 Hsrc2')
    as [Hs1 Hs2]. fold second in Hs1, Hs2.
  unfold decode_stream in Hs1, Hs2. simpl in Hs1, Hs2.
  pose proof (decode_stream_body_publishes f2 seq2 ack2 d2 win2 Client Server
                (with_buf None first.1) p2) as Hq2.
  simpl in Hq2. destruct Hq2 as [Hd2 Hc3].
  { apply send_accepts; [done|]. rewrite A3, A4. exact Hseq2. }
  repeat split.
  - rewrite Hp2. done.
  - by rewrite Hp1.
  - rewrite Hj2. exact Hd.
  - rewrite Hj1. exact Hm2.
  - rewrite Hf2. exact Hd1.
  - destruct (Hc3 Hm1) as [Hnil2 _]. rewrite Hnil2 in Hs2.
    simp deliver in Hs2. rewrite Hs2. exact Hd2.
Qed.

(** S4 with "world" at the sequence number that follows "hello". *)
Lemma reassembly_hello_world :
  let ssn := Scenario.established 0 in
  let p1 := Scenario.from_A 30 in
  let p2 := Scenario.from_A 20 in
  let parked := Session_decode ACK 6 2001 Scenario.world 65535 (ssn, p2) in
  let joined := Session_decode ACK 1 2001 Scenario.hello 65535 (parked.1, p1) in
  let first := Session_decode ACK 1 2001 Scenario.hello 65535 (ssn, p1) in
  let second := Session_decode ACK 6 2001 Scenario.world 65535 (first.1, p2) in
  prop_values parked.2 !! p_data_ = prop_values p2 !! p_data_
  ∧ seg_map_ parked.1 =
      {[ u32 (next_seq_ (client_ ssn) + Z.of_nat (length Scenario.hello)) :=
           [{| seg_data := Scenario.world; seg_seq := 6; seg_flags := ACK |}] ]}
  ∧ prop_values joined.2 !! p_data_
      = Some (Value_set (Scenario.hello ++ Scenario.world))
  ∧ seg_map_ joined.1 = ∅
  ∧ prop_values first.2 !! p_data_ = Some (Value_set Scenario.hello)
  ∧ prop_values second.2 !! p_data_ = Some (Value_set Scenario.world).
Proof.
  apply (reassembly_publishes_concatenation (Scenario.established 0)
           (Scenario.from_A 30) (Scenario.from_A 20)
           ACK ACK 1 6 2001 2001 65535 65535 Scenario.hello Scenario.world);
    vm_compute; first [reflexivity | discriminate].
Defined.

(** C4 as stated fails.  With "world" at sequence 11 and "hello" at
    sequence 1 the first packet is parked under key 11, the second
    publishes [data] = "hello" and leaves [next_seq_] at 6: the parked
    segment is not reached and "helloworld" is not published. *)
Lemma scenario_S4_publishes_hello_only :
  let ssn := Scenario.established 0 in
  let r1 := Session_decode ACK 11 2001 Scenario.world 65535
              (ssn, Scenario.from_A 20) in
  let r2 := Session_decode ACK 1 2001 Scenario.hello 65535
              (r1.1, Scenario.from_A 30) in
  status_ ssn = ESTABLISHED
  ∧ next_seq_ (client_ ssn) = 1
  ∧ prop_values r1.2 !! p_data_ = None
  ∧ prop_values r2.2 !! p_data_ = Some (Value_set Scenario.hello)
  ∧ prop_values r2.2 !! p_data_ ≠ Some (Value_set Scenario.helloworld)
  ∧ next_seq_ (client_ r2.1) = 6
  ∧ seg_map_ r2.1 !! 11 =
      Some [{| seg_data := Scenario.world; seg_seq := 11; seg_flags := ACK |}].
Proof. vm_compute. repeat split; discriminate. Qed.

(** ** Flow keys are direction independent *)

Lemma byte_val_inj x y : byte_val x = byte_val y → x = y.
Proof.
  unfold byte_val. intros Hxy.
  assert (Hn : Byte.to_N x = Byte.to_N y) by lia.
  assert (Hs : Some x = Some y)
    by (rewrite <- (Byte.of_to_N x), <- (Byte.of_to_N y); by rewrite Hn).
  congruence.
Qed.

Lemma memcmp_antisym a b n : memcmp b a n = - memcmp a b n.
Proof.
  revert a b. induction n as [|n IH]; intros a b; [by destruct a, b|].
  destruct a as [|x a], b as [|y b]; simpl; try reflexivity.
  rewrite (Z.eqb_sym (byte_val y)).
  destruct (byte_val x =? byte_val y); [apply IH | lia].
Qed.

Lemma memcmp_zero_eq a b :
  length a = length b → memcmp a b (length a) = 0 → a = b.
Proof.
  revert b. induction a as [|x a IH]; intros [|y b] Hlen; simpl in *;
    try discriminate; [reflexivity|].
  destruct (byte_val x =? byte_val y) eqn:E.
  - apply Z.eqb_eq, byte_val_inj in E. subst y. intros Hm.
    f_equal. apply IH; [lia | exact Hm].
  - apply Z.eqb_neq in E. lia.
Qed.

(** C6.  Two properties that name the same two endpoints in opposite
    directions, with addresses of equal length, get the same finalized
    key, whatever the keys held before. *)
Theorem make_key_symmetric (mixer : list byte → Z) (p q : Property)
    (key key' : HashKey) :
  length (prop_src_addr p) = length (prop_dst_addr p) →
  prop_src_addr q = prop_dst_addr p →
  prop_dst_addr q = prop_src_addr p →
  prop_src_port q = prop_dst_port p →
  prop_dst_port q = prop_src_port p →
  make_key mixer p key = make_key mixer q key'
  ∧ is_Some (make_key mixer p key).
Proof.
  intros Hlen Hs Hd Hsp Hdp. unfold make_key.
  rewrite Hs, Hd, Hsp, Hdp, <- Hlen.
  rewrite Nat.eqb_refl. simpl.
  split; [|by eexists].
  rewrite (memcmp_antisym (prop_src_addr p) (prop_dst_addr p)).
  rewrite Hlen at 2. rewrite <- Hlen.
  set (rc := memcmp (prop_src_addr p) (prop_dst_addr p) (length (prop_src_addr p))).
  assert (Heq : rc = 0 → prop_src_addr p = prop_dst_addr p).
  { intros H0. by apply memcmp_zero_eq. }
  unfold HashKey_finalize, HashKey_append, HashKey_resize, HashKey_clear. simpl.
  destruct (Z.compare_spec rc 0) as [H0|Hlt|Hgt].
  - rewrite H0. simpl. rewrite <- (Heq H0).
    destruct (Z.compare_spec (prop_src_port p) (prop_dst_port p)) as [He|Hl|Hg].
    + rewrite He, Z.gtb_ltb, Z.ltb_irrefl. reflexivity.
    + replace (prop_src_port p >? prop_dst_port p) with false
        by (symmetry; rewrite Z.gtb_ltb; apply Z.ltb_ge; lia).
      replace (prop_dst_port p >? prop_src_port p) with true
        by (symmetry; rewrite Z.gtb_ltb; apply Z.ltb_lt; lia).
      reflexivity.
    + replace (prop_src_port p >? prop_dst_port p) with true
        by (symmetry; rewrite Z.gtb_ltb; apply Z.ltb_lt; lia).
      replace (prop_dst_port p >? prop_src_port p) with false
        by (symmetry; rewrite Z.gtb_ltb; apply Z.ltb_ge; lia).
      reflexivity.
  - replace (rc >? 0) with false
      by (symmetry; rewrite Z.gtb_ltb; apply Z.ltb_ge; lia).
    replace (rc =? 0) with false by (symmetry; apply Z.eqb_neq; lia).
    replace (- rc >? 0) with true
      by (symmetry; rewrite Z.gtb_ltb; apply Z.ltb_lt; lia).
    reflexivity.
  - replace (rc >? 0) with true
      by (symmetry; rewrite Z.gtb_ltb; apply Z.ltb_lt; lia).
    replace (- rc >? 0) with false
      by (symmetry; rewrite Z.gtb_ltb; apply Z.ltb_ge; lia).
    replace (- rc =? 0) with false by (symmetry; apply Z.eqb_neq; lia).
    reflexivity.
Qed.

(** The two directions of the flow of scenario S2. *)
Lemma make_key_symmetric_S2 :
  make_key (fun _ => 0) (Scenario.from_A 0) HashKey_new
    = make_key (fun _ => 0) (Scenario.from_B 5) HashKey_new
  ∧ is_Some (make_key (fun _ => 0) (Scenario.from_A 0) HashKey_new).
Proof.
  apply (make_key_symmetric (fun _ => 0) (Scenario.from_A 0)
           (Scenario.from_B 5) HashKey_new HashKey_new); reflexivity.
Defined.

(** ** The handler registry *)

Section RegistryFacts.

Context {D : Type} `{Decoder D}.

Implicit Types k : Kernel D.

Lemma Kernel_clear_counters hid (k : Kernel D) :
  counters (Kernel_clear hid k).2 = counters k.
Proof. unfold Kernel_clear. by destruct (handler_map_ k !! hid). Qed.

Lemma invoke_counters entry prop (k : Kernel D) :
  counters (invoke entry prop k) = counters k.
Proof.
  unfold invoke. generalize (cb_clears (Handler.callback entry) prop).
  intros l. revert k. induction l as [|hid l IH]; intros k; simpl; [done|].
  rewrite IH. apply Kernel_clear_counters.
Qed.

Lemma fire_from_counters eid prop idxs (k : Kernel D) :
  counters (fire_from eid prop idxs k).1 = counters k.
Proof.
  revert k. induction idxs as [|j idxs IH]; intros k; simpl; [done|].
  destruct (slot k eid j); simpl; rewrite IH; [apply invoke_counters|done].
Qed.

Lemma dispatch_counters events prop (k : Kernel D) :
  counters (dispatch events prop k).1 = counters k.
Proof.
  revert k. induction events as [|e events IH]; intros k; simpl; [done|].
  rewrite IH. apply fire_from_counters.
Qed.

Lemma Kernel_step_counters pkt (k : Kernel D) :
  counters (Kernel_step pkt k).1 =
    (usize (recv_pkt_ k + 1), usize (recv_size_ k + cap_len pkt)).
Proof.
  unfold Kernel_step. simpl.
  destruct (dec_decode (dec_ k) (Payload_reset pkt) (Property_init pkt))
    as [d prop].
  by rewrite dispatch_counters.
Qed.

Lemma slot_vector k eid j :
  slot k eid j =
    match vector k eid !! j with Some (Some e) => Some e | _ => None end.
Proof. unfold slot, vector. by destruct (handlers_ k !! eid). Qed.

Lemma elem_of_live set e : e ∈ live set ↔ ∃ j, set !! j = Some (Some e).
Proof.
  unfold live. rewrite list_elem_of_omap. split.
  - intros (x & Hx & ->). by apply list_elem_of_lookup in Hx.
  - intros [j Hj]. exists (Some e). split; [|done].
    apply list_elem_of_lookup. eauto.
Qed.

Lemma elem_of_live_slot k eid e :
  e ∈ live (vector k eid) ↔ ∃ j, slot k eid j = Some e.
Proof.
  rewrite elem_of_live. split; intros [j Hj]; exists j.
  - by rewrite slot_vector, Hj.
  - rewrite slot_vector in Hj.
    destruct (vector k eid !! j) as [[e'|]|]; congruence.
Qed.

(** Reading the slots of a vector from first to last gives its live
    entries. *)
Lemma omap_slots (set : list (option Handler.Entry)) :
  omap (fun j => match set !! j with Some (Some e) => Some e | _ => None end)
       (seq 0 (length set))
  = live set.
Proof.
  induction set as [|x set IH] using rev_ind; [done|].
  rewrite length_app, Nat.add_1_r, seq_S, omap_app. simpl.
  unfold live in *. rewrite omap_app. f_equal.
  - rewrite <- IH. apply list_omap_ext. apply Forall2_same_length_lookup.
    split; [done|]. intros i a b Ha Hb. assert (a = b) by congruence. subst b.
    apply lookup_seq in Ha as [-> Hlt]. simpl.
    by rewrite lookup_app_l by done.
  - rewrite list_lookup_middle by done. by destruct x.
Qed.

Lemma omap_slot_seq k eid :
  omap (slot k eid) (seq 0 (length (vector k eid))) = live (vector k eid).
Proof.
  rewrite <- omap_slots. apply list_omap_ext, Forall_Forall2_diag, Forall_forall.
  intros j _. apply slot_vector.
Qed.

Lemma StronglySorted_sublist {A} (R : relation A) (l1 l2 : list A) :
  l1 `sublist_of` l2 → StronglySorted R l2 → StronglySorted R l1.
Proof.
  induction 1 as [|x l1 l2 Hsub IH|x l1 l2 Hsub IH]; intros Hs.
  - constructor.
  - apply StronglySorted_inv in Hs as [Hs Hall]. constructor; [auto|].
    eapply Forall_impl; [|done]. clear -Hsub Hall.
    rewrite Forall_forall in Hall |- *. intros y Hy. apply Hall.
    by eapply elem_of_sublist.
  - apply StronglySorted_inv in Hs as [Hs _]. auto.
Qed.

(** *** What [clear] does to a vector *)

Lemma tombstone_length hid set : length (tombstone hid set) = length set.
Proof.
  induction set as [|[e|] set IH]; simpl; [done| |by rewrite IH].
  case_decide; simpl; by rewrite ?IH.
Qed.

Lemma tombstone_lookup hid set j e :
  tombstone hid set !! j = Some (Some e) → set !! j = Some (Some e).
Proof.
  revert j. induction set as [|[e0|] set IH]; intros j; simpl; [done| |].
  - case_decide; destruct j; simpl; try done. apply IH.
  - destruct j; simpl; [done|apply IH].
Qed.

Lemma tombstone_keeps hid set j e :
  set !! j = Some (Some e) → Handler.id e ≠ hid →
  tombstone hid set !! j = Some (Some e).
Proof.
  revert j. induction set as [|[e0|] set IH]; intros j; simpl; [done| |].
  - case_decide; destruct j; simpl; try done.
    + intros [= <-]. done.
    + apply IH.
  - destruct j; simpl; [done|apply IH].
Qed.

Lemma tombstone_removes hid set j e :
  StronglySorted by_id (live set) →
  tombstone hid set !! j = Some (Some e) → Handler.id e ≠ hid.
Proof.
  revert j. induction set as [|[e0|] set IH]; intros j Hs; simpl; [done| |].
  - unfold live in Hs. simpl in Hs. apply StronglySorted_inv in Hs as [Hs Hall].
    case_decide as Hid; destruct j; simpl; try done.
    + intros Hj. rewrite Forall_forall in Hall.
      assert (He : e ∈ live set) by (apply elem_of_live; eauto).
      specialize (Hall e He). unfold by_id in Hall. lia.
    + intros [= <-]. done.
    + by apply IH.
  - destruct j; simpl; [done|]. by apply IH.
Qed.

Lemma tombstone_sublist hid set : live (tombstone hid set) `sublist_of` live set.
Proof.
  unfold live. induction set as [|[e0|] set IH]; simpl; [done| |done].
  case_decide; simpl.
  - by apply sublist_cons.
  - by apply sublist_skip.
Qed.

(** *** Kernels that only lose entries *)

Lemma thins_refl k : thins k k.
Proof. unfold thins. auto. Qed.

Lemma thins_trans k1 k2 k3 : thins k1 k2 → thins k2 k3 → thins k1 k3.
Proof.
  unfold thins. intros (L1 & S1 & G1) (L2 & S2 & G2). repeat split.
  - intros eid. by rewrite L2.
  - auto.
  - congruence.
Qed.

Lemma vector_alter (f : list (option Handler.Entry) → list (option Handler.Entry))
    (eid eid' : event_id) (hs : list (list (option Handler.Entry))) :
  default [] (alter f eid hs !! eid') =
    if decide (eid = eid') then
      match hs !! eid with Some set => f set | None => [] end
    else default [] (hs !! eid').
Proof.
  case_decide as He.
  - subst eid'. rewrite list_lookup_alter_eq. by destruct (hs !! eid).
  - by rewrite list_lookup_alter_ne.
Qed.

Lemma Kernel_clear_vector hid k entry eid :
  handler_map_ k !! hid = Some entry →
  vector (Kernel_clear hid k).2 eid =
    if decide (Handler.ev_id entry = eid)
    then match handlers_ k !! eid with
         | Some set => tombstone (Handler.id entry) set
         | None => []
         end
    else vector k eid.
Proof.
  intros Hm. unfold Kernel_clear, vector. rewrite Hm. simpl.
  rewrite vector_alter.
  repeat case_decide; subst; done.
Qed.

Lemma Kernel_clear_thins hid k : thins k (Kernel_clear hid k).2.
Proof.
  destruct (handler_map_ k !! hid) as [entry|] eqn:Hm.
  2:{ unfold Kernel_clear. rewrite Hm. apply thins_refl. }
  repeat split.
  - intros eid. rewrite (Kernel_clear_vector _ _ entry) by done.
    case_decide; [|done]. unfold vector.
    destruct (handlers_ k !! eid); [apply tombstone_length|done].
  - intros eid j e. rewrite !slot_vector.
    rewrite (Kernel_clear_vector _ _ entry) by done.
    case_decide; [|done]. unfold vector.
    destruct (handlers_ k !! eid) as [set|]; simpl; [|by destruct j].
    destruct (tombstone _ set !! j) as [[e'|]|] eqn:Ht; try done.
    apply tombstone_lookup in Ht. by rewrite Ht.
  - unfold Kernel_clear. by rewrite Hm.
Qed.

Lemma invoke_thins entry prop k : thins k (invoke entry prop k).
Proof.
  unfold invoke. generalize (cb_clears (Handler.callback entry) prop).
  intros l. revert k. induction l as [|hid l IH]; intros k; simpl.
  - apply thins_refl.
  - eapply thins_trans; [apply Kernel_clear_thins|apply IH].
Qed.

Lemma fire_from_thins eid prop idxs k : thins k (fire_from eid prop idxs k).1.
Proof.
  revert k. induction idxs as [|j idxs IH]; intros k; simpl.
  - apply thins_refl.
  - destruct (slot k eid j); simpl; [|apply IH].
    eapply thins_trans; [apply invoke_thins|apply IH].
Qed.

Lemma fire_event_thins eid prop k : thins k (fire_event eid prop k).1.
Proof. apply fire_from_thins. Qed.

Lemma dispatch_thins events prop k : thins k (dispatch events prop k).1.
Proof.
  revert k. induction events as [|e events IH]; intros k; simpl.
  - apply thins_refl.
  - eapply thins_trans; [apply fire_event_thins|apply IH].
Qed.

(** The callbacks that run are those of the slots as they are when the
    loop reads them: a sublist of what the slots held at any earlier
    time. *)
Lemma fire_from_sublist k0 eid prop idxs k :
  thins k0 k →
  (fire_from eid prop idxs k).2 `sublist_of` omap (slot k0 eid) idxs.
Proof.
  revert k. induction idxs as [|j idxs IH]; intros k Hthin; simpl; [done|].
  destruct (slot k eid j) as [e|] eqn:Hs; simpl.
  - rewrite (proj1 (proj2 Hthin) _ _ _ Hs).
    apply sublist_skip, IH.
    eapply thins_trans; [exact Hthin|apply invoke_thins].
  - destruct (slot k0 eid j); [apply sublist_cons|]; by apply IH.
Qed.

Lemma fire_event_sublist k0 eid prop k :
  thins k0 k →
  (fire_event eid prop k).2 `sublist_of` live (vector k0 eid).
Proof.
  intros Hthin. unfold fire_event. rewrite <- omap_slot_seq.
  fold (vector k eid). rewrite <- (proj1 Hthin eid).
  by apply fire_from_sublist.
Qed.

Lemma fire_from_quiet eid prop idxs k :
  quiet k prop →
  fire_from eid prop idxs k = (k, omap (slot k eid) idxs).
Proof.
  intros Hq. induction idxs as [|j idxs IH]; simpl; [done|].
  destruct (slot k eid j) as [e|] eqn:Hs; [|done].
  unfold invoke. rewrite (Hq _ _ _ Hs). simpl. by rewrite IH.
Qed.

Lemma dispatch_quiet events prop k :
  quiet k prop →
  dispatch events prop k =
    (k, concat ((fun e => live (vector k (ed_id e))) <$> events)).
Proof.
  intros Hq. induction events as [|e events IH]; simpl; [done|].
  unfold fire_event. fold (vector k (ed_id e)).
  rewrite fire_from_quiet by done. simpl. rewrite IH. simpl.
  by rewrite omap_slot_seq.
Qed.

(** *** The registry invariant *)

Lemma registry_ok_ext k k' :
  handlers_ k' = handlers_ k → handler_map_ k' = handler_map_ k →
  global_hdlr_id_ k' = global_hdlr_id_ k →
  registry_ok k → registry_ok k'.
Proof.
  intros Hh Hm Hg [L S M O].
  split; unfold slot, vector in *; rewrite ?Hh, ?Hm, ?Hg; auto.
Qed.

Lemma slot_bound k eid j e :
  registry_ok k → slot k eid j = Some e →
  (0 < Handler.id e ≤ global_hdlr_id_ k)%nat.
Proof.
  intros Hok Hs. destruct (ok_slot k Hok _ _ _ Hs) as [_ Hm].
  by destruct (ok_map k Hok _ _ Hm) as (_ & ? & _).
Qed.

Lemma registry_ok_new d : registry_ok (Kernel_new d).
Proof.
  assert (Hv : ∀ eid, vector (Kernel_new d) eid = []).
  { intros eid. unfold vector, Kernel_new. simpl.
    destruct (replicate event_size [] !! eid) as [set|] eqn:E; [|done].
    by apply lookup_replicate in E as [-> _]. }
  split.
  - simpl. apply length_replicate.
  - intros eid j e. rewrite slot_vector, Hv. by destruct j.
  - intros hid e. simpl. by rewrite lookup_empty.
  - intros eid. rewrite Hv. constructor.
Qed.

Lemma Kernel_on_unknown name cb k :
  lookup_event_id name = None → Kernel_on name cb k = (Handler.NONE, k).
Proof. unfold Kernel_on. by intros ->. Qed.

Lemma Kernel_on_vector name cb k eid eid' :
  lookup_event_id name = Some eid →
  registry_ok k →
  vector (Kernel_on name cb k).2 eid' =
    if decide (eid = eid') then
      vector k eid ++
        [Some {| Handler.cb_ := cb; Handler.ev_id_ := eid;
                 Handler.id_ := S (global_hdlr_id_ k) |}]
    else vector k eid'.
Proof.
  intros Hl Hok. unfold Kernel_on, vector. rewrite Hl. simpl.
  rewrite vector_alter. repeat case_decide; try done.
  apply lookup_event_id_lt in Hl. rewrite <- (ok_len k Hok) in Hl.
  apply lookup_lt_is_Some in Hl as [set Hset]. by rewrite Hset.
Qed.

Lemma Kernel_on_slot name cb (k : Kernel D) eid eid' j e :
  lookup_event_id name = Some eid →
  registry_ok k →
  slot (Kernel_on name cb k).2 eid' j = Some e ↔
  slot k eid' j = Some e ∨
  (eid' = eid ∧ j = length (vector k eid) ∧
   e = {| Handler.cb_ := cb; Handler.ev_id_ := eid;
          Handler.id_ := S (global_hdlr_id_ k) |}).
Proof.
  intros Hl Hok. rewrite !slot_vector.
  rewrite (Kernel_on_vector name cb k eid eid' Hl Hok).
  case_decide as He; [subst eid'|split; [by left|intros [?|(? & _)]; done]].
  destruct (decide (j < length (vector k eid))%nat) as [Hlt|Hge].
  - rewrite lookup_app_l by done. split; [auto|].
    intros [?|(_ & -> & _)]; [done|lia].
  - rewrite lookup_app_r by lia.
    rewrite (lookup_ge_None_2 (vector k eid) j) by lia.
    destruct (j - length (vector k eid))%nat as [|n] eqn:En; simpl.
    + split; [intros [= <-]; right; repeat split; lia|].
      intros [?|(_ & _ & ->)]; done.
    + split; [by destruct n|]. intros [?|(_ & -> & _)]; [done|lia].
Qed.

Lemma Kernel_on_global name cb (k : Kernel D) :
  (global_hdlr_id_ k ≤ global_hdlr_id_ (Kernel_on name cb k).2)%nat ∧
  ((Kernel_on name cb k).1 = Handler.NONE ∨
   (Kernel_on name cb k).1 = S (global_hdlr_id_ k)).
Proof.
  unfold Kernel_on. destruct (lookup_event_id name); simpl; [|by auto].
  split; [lia|by right].
Qed.

Lemma registry_ok_on name cb k :
  registry_ok k → registry_ok (Kernel_on name cb k).2.
Proof.
  intros Hok. destruct (lookup_event_id name) as [eid|] eqn:Hl.
  2:{ by rewrite Kernel_on_unknown. }
  set (entry := {| Handler.cb_ := cb; Handler.ev_id_ := eid;
                   Handler.id_ := S (global_hdlr_id_ k) |}).
  assert (Hfresh : handler_map_ k !! S (global_hdlr_id_ k) = None).
  { destruct (handler_map_ k !! S (global_hdlr_id_ k)) as [e|] eqn:E; [|done].
    destruct (ok_map k Hok _ _ E) as (_ & ? & _). lia. }
  assert (Hmap : handler_map_ (Kernel_on name cb k).2
                 = <[S (global_hdlr_id_ k) := entry]> (handler_map_ k)).
  { unfold Kernel_on. rewrite Hl. simpl. unfold map_insert, Handler.id. simpl.
    by rewrite Hfresh. }
  assert (Hglob : global_hdlr_id_ (Kernel_on name cb k).2 = S (global_hdlr_id_ k)).
  { unfold Kernel_on. by rewrite Hl. }
  pose proof (fun eid' j e => Kernel_on_slot name cb k eid eid' j e Hl Hok) as Hslot.
  fold entry in Hslot.
  split.
  - unfold Kernel_on. rewrite Hl. simpl. rewrite length_alter.
    apply (ok_len k Hok).
  - intros eid' j e Hs. rewrite Hmap. apply Hslot in Hs as [Hs|(-> & _ & ->)].
    + destruct (ok_slot k Hok _ _ _ Hs) as [He Hm]. split; [done|].
      pose proof (slot_bound k _ _ _ Hok Hs).
      rewrite lookup_insert_ne by lia. done.
    + split; [done|]. apply lookup_insert_eq.
  - intros hid e. rewrite Hmap, Hglob. rewrite lookup_insert.
    case_decide as Hh.
    + intros [= <-]. subst hid. split; [done|]. split; [lia|].
      exists (length (vector k eid)). apply Hslot. by right.
    + intros Hm. destruct (ok_map k Hok _ _ Hm) as (Hi & Hb & j & Hj).
      split; [done|]. split; [lia|]. exists j. apply Hslot. by left.
  - intros eid'. rewrite (Kernel_on_vector name cb k eid eid' Hl Hok).
    case_decide; [|apply (ok_sorted k Hok)].
    unfold live. rewrite omap_app. simpl. apply StronglySorted_app_2.
    + intros x1 x2 Hx1 Hx2. apply list_elem_of_singleton in Hx2 as ->.
      apply elem_of_live_slot in Hx1 as [j Hj].
      pose proof (slot_bound k _ _ _ Hok Hj). unfold by_id. simpl. lia.
    + apply (ok_sorted k Hok).
    + repeat constructor.
Qed.

Lemma absent_thins hid k k' : thins k k' → absent hid k → absent hid k'.
Proof. intros (_ & HS & _) Ha eid j e Hs. eapply Ha, HS, Hs. Qed.

Lemma Kernel_clear_unknown hid (k : Kernel D) :
  handler_map_ k !! hid = None → Kernel_clear hid k = (false, k).
Proof. unfold Kernel_clear. by intros ->. Qed.

Lemma Kernel_clear_slot hid (k : Kernel D) entry eid j e :
  registry_ok k → handler_map_ k !! hid = Some entry →
  (slot (Kernel_clear hid k).2 eid j = Some e ↔
   slot k eid j = Some e ∧ Handler.id e ≠ hid).
Proof.
  intros Hok Hm.
  destruct (ok_map k Hok _ _ Hm) as (Hid & Hb & j0 & Hj0).
  rewrite !slot_vector, (Kernel_clear_vector _ _ entry) by done.
  rewrite Hid. case_decide as He.
  - pose proof (ok_sorted k Hok eid) as Hs. unfold vector in *.
    destruct (handlers_ k !! eid) as [set|]; simpl in *;
      [|split; [discriminate|intros [? _]; discriminate]].
    split.
    + destruct (tombstone hid set !! j) as [[e'|]|] eqn:Ht; try done.
      intros [= ->]. split.
      * by rewrite (tombstone_lookup _ _ _ _ Ht).
      * by eapply tombstone_removes.
    + intros [Hj Hne].
      destruct (set !! j) as [[e'|]|] eqn:Hset; try done.
      injection Hj as ->. by rewrite (tombstone_keeps hid set j e).
  - split; [|by intros [? _]].
    intros Hj. split; [done|]. intros Hh.
    assert (Hs : slot k eid j = Some e) by (by rewrite slot_vector).
    destruct (ok_slot k Hok _ _ _ Hs) as [He' Hm'].
    rewrite Hh, Hm in Hm'. injection Hm' as ->. done.
Qed.

Lemma Kernel_clear_absent hid k :
  registry_ok k → absent hid (Kernel_clear hid k).2.
Proof.
  intros Hok eid j e Hs.
  destruct (handler_map_ k !! hid) as [entry|] eqn:Hm.
  - by apply (Kernel_clear_slot hid k entry) in Hs as [_ ?].
  - rewrite Kernel_clear_unknown in Hs by done. simpl in Hs.
    destruct (ok_slot k Hok _ _ _ Hs) as [_ Hm']. congruence.
Qed.

Lemma registry_ok_clear hid k :
  registry_ok k → registry_ok (Kernel_clear hid k).2.
Proof.
  intros Hok. destruct (handler_map_ k !! hid) as [entry|] eqn:Hm.
  2:{ by rewrite Kernel_clear_unknown. }
  assert (Hmap : handler_map_ (Kernel_clear hid k).2 = delete hid (handler_map_ k)).
  { unfold Kernel_clear. by rewrite Hm. }
  assert (Hglob : global_hdlr_id_ (Kernel_clear hid k).2 = global_hdlr_id_ k).
  { unfold Kernel_clear. by rewrite Hm. }
  split.
  - unfold Kernel_clear. rewrite Hm. simpl. rewrite length_alter.
    apply (ok_len k Hok).
  - intros eid j e Hs. apply (Kernel_clear_slot hid k entry) in Hs as [Hs Hne]; [|done..].
    destruct (ok_slot k Hok _ _ _ Hs) as [He Hm']. split; [done|].
    rewrite Hmap. by rewrite lookup_delete_ne.
  - intros h e. rewrite Hmap, Hglob. intros Hd.
    apply lookup_delete_Some in Hd as [Hne Hm'].
    destruct (ok_map k Hok _ _ Hm') as (Hi & Hb & j & Hj).
    split; [done|]. split; [done|]. exists j.
    apply (Kernel_clear_slot hid k entry); [done..|]. split; [done|]. congruence.
  - intros eid. rewrite (Kernel_clear_vector _ _ entry) by done.
    case_decide; [|apply (ok_sorted k Hok)].
    pose proof (ok_sorted k Hok eid) as Hs. unfold vector in Hs.
    destruct (handlers_ k !! eid) as [set|]; simpl in *; [|constructor].
    eapply StronglySorted_sublist; [apply tombstone_sublist|done].
Qed.

Lemma registry_ok_invoke entry prop k :
  registry_ok k → registry_ok (invoke entry prop k).
Proof.
  unfold invoke. generalize (cb_clears (Handler.callback entry) prop).
  intros l. revert k. induction l as [|hid l IH]; intros k Hok; simpl; [done|].
  by apply IH, registry_ok_clear.
Qed.

(** A callback that runs clears every id it lists. *)
Lemma invoke_absent entry prop k hid :
  registry_ok k → hid ∈ cb_clears (Handler.callback entry) prop →
  absent hid (invoke entry prop k).
Proof.
  unfold invoke. generalize (cb_clears (Handler.callback entry) prop).
  intros l. revert k. induction l as [|h l IH]; intros k Hok Hin; simpl.
  - by apply elem_of_nil in Hin.
  - apply elem_of_cons in Hin as [->|Hin].
    + eapply absent_thins; [|by apply Kernel_clear_absent].
      apply (invoke_thins {| Handler.cb_ := {| cb_tag := 0; cb_clears := fun _ => l |};
                             Handler.ev_id_ := 0%nat; Handler.id_ := 0%nat |} prop).
    + by apply IH; [apply registry_ok_clear|].
Qed.

Lemma registry_ok_fire_from eid prop idxs k :
  registry_ok k → registry_ok (fire_from eid prop idxs k).1.
Proof.
  revert k. induction idxs as [|j idxs IH]; intros k Hok; simpl; [done|].
  destruct (slot k eid j); simpl; apply IH; [by apply registry_ok_invoke|done].
Qed.

Lemma registry_ok_dispatch events prop k :
  registry_ok k → registry_ok (dispatch events prop k).1.
Proof.
  revert k. induction events as [|e events IH]; intros k Hok; simpl; [done|].
  by apply IH, registry_ok_fire_from.
Qed.

Lemma registry_ok_step pkt k :
  registry_ok k → registry_ok (Kernel_step pkt k).1.
Proof.
  intros Hok. unfold Kernel_step. simpl.
  destruct (dec_decode (dec_ k) (Payload_reset pkt) (Property_init pkt))
    as [d prop].
  apply registry_ok_dispatch. by eapply registry_ok_ext; [..|exact Hok].
Qed.

Lemma registry_ok_run pkts k :
  registry_ok k → registry_ok (Kernel_run pkts k).1.
Proof.
  revert k. induction pkts as [|pkt pkts IH]; intros k Hok; simpl; [done|].
  by apply IH, registry_ok_step.
Qed.

Lemma registry_ok_exec ops k :
  registry_ok k → registry_ok (exec ops k).1.
Proof.
  revert k. induction ops as [|op ops IH]; intros k Hok; simpl; [done|].
  apply IH. destruct op; simpl.
  - by apply registry_ok_on.
  - by apply registry_ok_clear.
  - by apply registry_ok_run.
Qed.

(** *** Firing *)

Lemma StronglySorted_lookup_lt {A} (R : relation A) (l : list A) i j x y :
  StronglySorted R l → (i < j)%nat → l !! i = Some x → l !! j = Some y →
  R x y.
Proof.
  intros Hs. revert i j. induction Hs as [|a l Hs IH Hall]; intros i j Hij Hi Hj.
  - by rewrite lookup_nil in Hi.
  - destruct j as [|j]; [lia|]. simpl in Hj. destruct i as [|i]; simpl in Hi.
    + injection Hi as ->. rewrite Forall_forall in Hall. apply Hall.
      by eapply list_elem_of_lookup_2.
    + apply (IH i j); [lia|done..].
Qed.

Lemma fire_event_sorted eid prop k :
  registry_ok k → StronglySorted by_id (fire_event eid prop k).2.
Proof.
  intros Hok. eapply StronglySorted_sublist.
  - apply (fire_event_sublist k), thins_refl.
  - apply (ok_sorted k Hok).
Qed.

(** One log per event, in push order; each log follows its vector. *)
Lemma dispatch_logs k0 events prop k :
  registry_ok k0 → thins k0 k →
  ∃ logs,
    (dispatch events prop k).2 = concat logs ∧
    Forall2 (fun ev log =>
               log `sublist_of` live (vector k0 (ed_id ev)) ∧
               StronglySorted by_id log)
            events logs.
Proof.
  intros Hok. revert k.
  induction events as [|ev events IH]; intros k Hthin; simpl.
  - exists []. split; [done|constructor].
  - destruct (IH (fire_event (ed_id ev) prop k).1) as (logs & Hc & Hf).
    { eapply thins_trans; [done|apply fire_event_thins]. }
    exists ((fire_event (ed_id ev) prop k).2 :: logs). split.
    + simpl. by rewrite Hc.
    + constructor; [|done].
      assert (Hsub : (fire_event (ed_id ev) prop k).2
                     `sublist_of` live (vector k0 (ed_id ev)))
        by (by apply fire_event_sublist).
      split; [done|].
      eapply StronglySorted_sublist; [done|apply (ok_sorted k0 Hok)].
Qed.

Lemma fire_from_absent hid eid prop idxs k :
  absent hid k →
  Forall (fun e => Handler.id e ≠ hid) (fire_from eid prop idxs k).2
  ∧ absent hid (fire_from eid prop idxs k).1.
Proof.
  revert k. induction idxs as [|j idxs IH]; intros k Ha; simpl; [by split|].
  destruct (slot k eid j) as [e|] eqn:Hs; simpl; [|by apply IH].
  destruct (IH (invoke e prop k)) as [Hl Hk].
  { eapply absent_thins; [apply invoke_thins|done]. }
  split; [|done]. constructor; [by eapply Ha|done].
Qed.

Lemma dispatch_absent hid events prop k :
  absent hid k →
  Forall (fun e => Handler.id e ≠ hid) (dispatch events prop k).2
  ∧ absent hid (dispatch events prop k).1.
Proof.
  revert k. induction events as [|ev events IH]; intros k Ha; simpl; [by split|].
  destruct (fire_from_absent hid (ed_id ev) prop
              (seq 0 (length (default [] (handlers_ k !! ed_id ev)))) k Ha)
    as [Hl Hk].
  destruct (IH _ Hk) as [Hl' Hk']. split; [|done].
  apply Forall_app. by split.
Qed.

Lemma gone_thins hid k k' : thins k k' → gone hid k → gone hid k'.
Proof.
  intros Ht [Ha Hg]. split; [by eapply absent_thins|].
  destruct Ht as (_ & _ & ->). done.
Qed.

Lemma Kernel_step_gone hid pkt k :
  gone hid k →
  Forall (fun e => Handler.id e ≠ hid) (Kernel_step pkt k).2
  ∧ gone hid (Kernel_step pkt k).1.
Proof.
  intros [Ha Hg]. unfold Kernel_step. simpl.
  destruct (dec_decode (dec_ k) (Payload_reset pkt) (Property_init pkt))
    as [d prop].
  match goal with
  | |- context [dispatch ?evs ?p ?k'] =>
      destruct (dispatch_absent hid evs p k') as [Hl Hk];
      [exact Ha|];
      pose proof (dispatch_thins evs p k') as (_ & _ & Hg')
  end.
  split; [done|]. split; [done|]. rewrite Hg'. done.
Qed.

Lemma Kernel_run_gone hid pkts k :
  gone hid k →
  Forall (fun e => Handler.id e ≠ hid) (Kernel_run pkts k).2
  ∧ gone hid (Kernel_run pkts k).1.
Proof.
  revert k. induction pkts as [|pkt pkts IH]; intros k Hg; simpl; [by split|].
  destruct (Kernel_step_gone hid pkt k Hg) as [Hl Hk].
  destruct (IH _ Hk) as [Hl' Hk']. split; [|done].
  apply Forall_app. by split.
Qed.

Lemma Kernel_on_gone hid name cb k :
  registry_ok k → gone hid k → gone hid (Kernel_on name cb k).2.
Proof.
  intros Hok [Ha Hg]. destruct (lookup_event_id name) as [eid|] eqn:Hl.
  2:{ by rewrite Kernel_on_unknown. }
  split.
  - intros eid' j e Hs.
    apply (Kernel_on_slot name cb k eid eid' j e Hl Hok) in Hs
      as [Hs|(_ & _ & ->)]; [by eapply Ha|]. simpl. lia.
  - destruct (Kernel_on_global name cb k) as [? _]. lia.
Qed.

Lemma exec_gone hid ops k :
  registry_ok k → gone hid k →
  Forall (fun e => Handler.id e ≠ hid) (exec ops k).2.
Proof.
  revert k. induction ops as [|op ops IH]; intros k Hok Hg; simpl; [done|].
  apply Forall_app. destruct op as [name cb|h|pkts]; simpl.
  - split; [done|]. apply IH; [by apply registry_ok_on|by apply Kernel_on_gone].
  - split; [done|].
    apply IH; [by apply registry_ok_clear|].
    eapply gone_thins; [apply Kernel_clear_thins|done].
  - destruct (Kernel_run_gone hid pkts k Hg) as [Hl Hk]. split; [done|].
    apply IH; [by apply registry_ok_run|done].
Qed.

Lemma exec_global_mono ops (k : Kernel D) :
  (global_hdlr_id_ k ≤ global_hdlr_id_ (exec ops k).1)%nat.
Proof.
  revert k. induction ops as [|op ops IH]; intros k; simpl; [done|].
  etrans; [|apply IH]. destruct op as [name cb|h|pkts]; simpl.
  - apply Kernel_on_global.
  - by destruct (Kernel_clear_thins h k) as (_ & _ & ->).
  - assert (Hr : ∀ pkts k, thins k (Kernel_run pkts k).1).
    { clear. intros pkts. induction pkts as [|pkt pkts IH]; intros k; simpl.
      - apply thins_refl.
      - eapply thins_trans; [|apply IH]. unfold Kernel_step. simpl.
        destruct (dec_decode _ _ _) as [d prop].
        eapply thins_trans; [|apply dispatch_thins]. by repeat split. }
    by destruct (Hr pkts k) as (_ & _ & ->).
Qed.

(** Once the callback of [e1] has run, no entry it cleared runs in what
    is left of the firing. *)
Lemma fire_from_after_clear hid eid prop idxs k l1 e1 l2 :
  registry_ok k →
  (fire_from eid prop idxs k).2 = l1 ++ e1 :: l2 →
  hid ∈ cb_clears (Handler.callback e1) prop →
  Forall (fun e => Handler.id e ≠ hid) l2
  ∧ absent hid (fire_from eid prop idxs k).1.
Proof.
  revert k l1. induction idxs as [|j idxs IH]; intros k l1 Hok Hlog Hin; simpl in *.
  - by destruct l1.
  - destruct (slot k eid j) as [e|] eqn:Hs; simpl in *; [|by eapply IH].
    destruct l1 as [|e' l1]; simpl in Hlog; injection Hlog as -> Hlog.
    + rewrite <- Hlog. apply fire_from_absent. by apply invoke_absent.
    + eapply IH; [by apply registry_ok_invoke|done..].
Qed.

(** ** Dispatch is what the specification asks for *)

Lemma expected_batch_cleared prop entries :
  ∀ cleared x,
    x ∈ (expected_batch prop cleared entries).2 ↔
    x ∈ cleared ∨
    ∃ e, e ∈ (expected_batch prop cleared entries).1
         ∧ x ∈ cb_clears (Handler.callback e) prop.
Proof.
  induction entries as [|e rest IH]; intros cleared x; simpl.
  - split; [auto|]. intros [?|(e & He & _)]; [done|]. by apply elem_of_nil in He.
  - case_decide as Hin; [apply IH|]. simpl. rewrite IH, elem_of_app. split.
    + intros [[Hx|Hx]|(e' & He' & Hx)]; [|by left|].
      * right. exists e. split; [apply list_elem_of_here|done].
      * right. exists e'. split; [by apply list_elem_of_further|done].
    + intros [Hx|(e' & He' & Hx)]; [by left; right|].
      apply elem_of_cons in He' as [->|He']; [by left; left|].
      right. by exists e'.
Qed.

Lemma expected_batch_runs prop entries :
  ∀ cleared e,
    e ∈ entries →
    Handler.id e ∉ (expected_batch prop cleared entries).2 →
    e ∈ (expected_batch prop cleared entries).1.
Proof.
  induction entries as [|e0 rest IH]; intros cleared e He Hn.
  - by apply elem_of_nil in He.
  - simpl in *. case_decide as Hin.
    + apply elem_of_cons in He as [->|He]; [|by apply IH].
      exfalso. apply Hn. apply expected_batch_cleared. by left.
    + simpl in *. apply elem_of_cons in He as [->|He];
        [apply list_elem_of_here|].
      apply list_elem_of_further. by apply IH.
Qed.

Lemma expected_dispatch_cleared registered prop events :
  ∀ cleared x,
    x ∈ (expected_dispatch registered prop events cleared).2 ↔
    x ∈ cleared ∨
    ∃ e, e ∈ (expected_dispatch registered prop events cleared).1
         ∧ x ∈ cb_clears (Handler.callback e) prop.
Proof.
  induction events as [|ev rest IH]; intros cleared x; simpl.
  - split; [auto|]. intros [?|(e & He & _)]; [done|]. by apply elem_of_nil in He.
  - rewrite IH, expected_batch_cleared. split.
    + intros [[Hx|(e & He & Hx)]|(e & He & Hx)]; [by left| |].
      * right. exists e. split; [|done]. apply elem_of_app. by left.
      * right. exists e. split; [|done]. apply elem_of_app. by right.
    + intros [Hx|(e & He & Hx)]; [by left; left|].
      apply elem_of_app in He as [He|He].
      * left. right. by exists e.
      * right. by exists e.
Qed.

Lemma expected_dispatch_runs registered prop events :
  ∀ cleared ev e,
    ev ∈ events → e ∈ registered (ed_id ev) →
    Handler.id e ∉ (expected_dispatch registered prop events cleared).2 →
    e ∈ (expected_dispatch registered prop events cleared).1.
Proof.
  induction events as [|ev0 rest IH]; intros cleared ev e Hev He Hn.
  - by apply elem_of_nil in Hev.
  - simpl in *. apply elem_of_app.
    apply elem_of_cons in Hev as [->|Hev].
    + left. apply expected_batch_runs; [done|].
      intros Hin. apply Hn. apply expected_dispatch_cleared. by left.
    + right. by eapply IH.
Qed.

Lemma struck_refl k : struck k [] k.
Proof.
  split; [done|]. intros eid j. destruct (slot k eid j); [|done].
  rewrite decide_False; [done|apply not_elem_of_nil].
Qed.

Lemma struck_ext k0 C C' k :
  (∀ x, x ∈ C ↔ x ∈ C') → struck k0 C k → struck k0 C' k.
Proof.
  intros Heq [Hl Hs]. split; [done|]. intros eid j. rewrite Hs.
  destruct (slot k0 eid j) as [e|]; [|done].
  destruct (decide (Handler.id e ∈ C)) as [Hin|Hin].
  - rewrite decide_True; [done|by apply Heq].
  - rewrite decide_False; [done|]. intros Hin'. by apply Hin, Heq.
Qed.

Lemma Kernel_clear_struck k0 C hid k :
  registry_ok k → struck k0 C k →
  struck k0 (hid :: C) (Kernel_clear hid k).2.
Proof.
  intros Hok [Hl Hs]. split.
  - intros eid. destruct (Kernel_clear_thins hid k) as (Hlen & _).
    by rewrite Hlen.
  - intros eid j.
    destruct (handler_map_ k !! hid) as [entry|] eqn:Hm.
    + destruct (slot (Kernel_clear hid k).2 eid j) as [e'|] eqn:Hs'.
      * apply (Kernel_clear_slot hid k entry eid j e' Hok Hm) in Hs'
          as [Hk Hne].
        rewrite Hs in Hk. destruct (slot k0 eid j) as [e|]; [|done].
        destruct (decide (Handler.id e ∈ C)) as [|Hn]; [done|].
        injection Hk as ->. rewrite decide_False; [done|].
        intros Hin. apply elem_of_cons in Hin as [?|?]; done.
      * destruct (slot k0 eid j) as [e|] eqn:H0; [|done].
        destruct (decide (Handler.id e ∈ hid :: C)) as [|Hn]; [done|].
        exfalso. apply not_elem_of_cons in Hn as [Hne Hn].
        assert (Hk : slot k eid j = Some e).
        { rewrite Hs, H0. by rewrite decide_False. }
        assert (Hs2 : slot (Kernel_clear hid k).2 eid j = Some e)
          by (by apply (Kernel_clear_slot hid k entry eid j e Hok Hm)).
        congruence.
    + rewrite Kernel_clear_unknown by done. simpl. rewrite Hs.
      destruct (slot k0 eid j) as [e|] eqn:H0; [|done].
      destruct (decide (Handler.id e ∈ C)) as [Hin|Hn].
      * rewrite decide_True; [done|by apply list_elem_of_further].
      * rewrite decide_False; [done|].
        intros Hin. apply elem_of_cons in Hin as [Heq|?]; [|done].
        assert (Hk : slot k eid j = Some e).
        { rewrite Hs, H0. by rewrite decide_False. }
        destruct (ok_slot k Hok _ _ _ Hk) as [_ Hm']. congruence.
Qed.

Lemma clears_struck k0 (l : list hdlr_id) :
  ∀ C k, registry_ok k → struck k0 C k →
    struck k0 (l ++ C) (fold_left (fun k hid => (Kernel_clear hid k).2) l k).
Proof.
  induction l as [|hid l IH]; intros C k Hok Hs; simpl; [done|].
  eapply struck_ext; [|apply IH; [by apply registry_ok_clear|
                                  by apply Kernel_clear_struck]].
  intros x. rewrite !elem_of_cons, !elem_of_app, elem_of_cons. tauto.
Qed.

Lemma invoke_struck k0 C entry prop k :
  registry_ok k → struck k0 C k →
  struck k0 (cb_clears (Handler.callback entry) prop ++ C) (invoke entry prop k).
Proof. apply clears_struck. Qed.

(** C8.  Take any kernel a program can have built with [on], [clear] and
    [run].  Dispatching the events of a property yields one batch of
    callback invocations per event, in the order the events were pushed;
    each batch runs entries of that event's vector in vector order (it is
    a sublist of the live entries and its ids grow).  When no callback
    clears anything the batches are exactly the live entries of the
    vectors, nulls skipped.  Registration order is vector order: of two
    handlers registered one after the other for the same event name, the
    one registered first runs first in every firing that runs both.
    Nothing is left out: the invocations are exactly those the
    specification asks for, event by event in push order and entry by
    entry in registration order, skipping the entries a callback that ran
    before has cleared; so every entry registered for a pushed event runs
    unless a callback that ran in this dispatch cleared its id; and the
    slots that are live afterwards are those that were live before and
    that no callback that ran has cleared. *)
Theorem dispatch_in_registration_order (d : D) (ops : list Op)
    (prop : Property) :
  let k := (exec ops (Kernel_new d)).1 in
  let log := (dispatch (prop_events prop) prop k).2 in
  (∃ logs,
     (dispatch (prop_events prop) prop k).2 = concat logs ∧
     Forall2 (fun ev log =>
                log `sublist_of` live (vector k (ed_id ev)) ∧
                StronglySorted by_id log)
             (prop_events prop) logs)
  ∧ (quiet k prop →
     (dispatch (prop_events prop) prop k).2 =
       concat ((fun ev => live (vector k (ed_id ev))) <$> prop_events prop))
  ∧ (∀ name cb1 ops2 cb2 ops3 eid i j e1 e2,
       let r1 := Kernel_on name cb1 k in
       let r2 := Kernel_on name cb2 (exec ops2 r1.2).1 in
       let log := (fire_event eid prop (exec ops3 r2.2).1).2 in
       log !! i = Some e1 → log !! j = Some e2 →
       Handler.id e1 = r1.1 → Handler.id e2 = r2.1 →
       (i < j)%nat)
  ∧ log = (expected_dispatch (fun eid => live (vector k eid)) prop
             (prop_events prop) []).1
  ∧ (∀ ev e,
       ev ∈ prop_events prop → e ∈ live (vector k (ed_id ev)) →
       (∀ e', e' ∈ log → Handler.id e ∉ cb_clears (Handler.callback e') prop) →
       e ∈ log)
  ∧ (∀ eid j e,
       slot (dispatch (prop_events prop) prop k).1 eid j = Some e ↔
       slot k eid j = Some e
       ∧ ∀ e', e' ∈ log → Handler.id e ∉ cb_clears (Handler.callback e') prop).
Proof.
  intros k log.
  assert (Hok : registry_ok k) by apply registry_ok_exec, registry_ok_new.
  (* one batch: the loop over the slots does what the specification asks *)
  assert (Hfire : ∀ eid idxs C k',
            registry_ok k' → struck k C k' →
            (fire_from eid prop idxs k').2
              = (expected_batch prop C (omap (slot k eid) idxs)).1
            ∧ struck k (expected_batch prop C (omap (slot k eid) idxs)).2
                     (fire_from eid prop idxs k').1).
  { intros eid idxs.
    induction idxs as [|j idxs IH]; intros C k' Hok' Hs; simpl; [done|].
    rewrite (proj2 Hs eid j).
    destruct (slot k eid j) as [e|] eqn:H0; simpl; [|by apply IH].
    case_decide as Hin; [by apply IH|]. simpl.
    destruct (IH (cb_clears (Handler.callback e) prop ++ C)
                 (invoke e prop k')) as [I1 I2].
    - by apply registry_ok_invoke.
    - by apply invoke_struck.
    - split; [by rewrite I1|done]. }
  (* the batches of all events *)
  assert (Hall : ∀ events C k',
            registry_ok k' → struck k C k' →
            (dispatch events prop k').2
              = (expected_dispatch (fun eid => live (vector k eid)) prop
                   events C).1
            ∧ struck k
                (expected_dispatch (fun eid => live (vector k eid)) prop
                   events C).2
                (dispatch events prop k').1).
  { induction events as [|ev rest IH]; intros C k' Hok' Hs; simpl; [done|].
    assert (Hok'' : registry_ok (fire_event (ed_id ev) prop k').1)
      by (unfold fire_event; by apply registry_ok_fire_from).
    unfold fire_event in *. fold (vector k' (ed_id ev)) in *.
    rewrite (proj1 Hs (ed_id ev)) in *. rewrite <- omap_slot_seq.
    destruct (Hfire (ed_id ev) (seq 0 (length (vector k (ed_id ev)))) C k'
                Hok' Hs) as [F1 F2].
    destruct (IH _ _ Hok'' F2) as [I1 I2].
    split; [by rewrite F1, I1|done]. }
  destruct (Hall (prop_events prop) [] k Hok (struck_refl k))
    as [Hexp Hstruck].
  fold log in Hexp.
  assert (Hcl : ∀ x,
            x ∈ (expected_dispatch (fun eid => live (vector k eid)) prop
                   (prop_events prop) []).2 ↔
            ∃ e', e' ∈ log ∧ x ∈ cb_clears (Handler.callback e') prop).
  { intros x. rewrite expected_dispatch_cleared, <- Hexp. split.
    - intros [Hx|?]; [by apply elem_of_nil in Hx|done].
    - by right. }
  split; [|split; [|split; [|split; [|split]]]].
  - apply dispatch_logs; [done|apply thins_refl].
  - intros Hq. by rewrite dispatch_quiet.
  - intros name cb1 ops2 cb2 ops3 eid i j e1 e2 r1 r2 log' Hi Hj H1 H2.
    set (k3 := (exec ops3 r2.2).1) in *.
    assert (Hok3 : registry_ok k3).
    { subst k3 r2 r1.
      by apply registry_ok_exec, registry_ok_on, registry_ok_exec,
               registry_ok_on. }
    assert (Hsorted : StronglySorted by_id log') by by apply fire_event_sorted.
    assert (Hpos : (0 < Handler.id e1)%nat).
    { assert (He : e1 ∈ live (vector k3 eid)).
      { eapply elem_of_sublist; [by eapply list_elem_of_lookup_2|].
        apply fire_event_sublist, thins_refl. }
      apply elem_of_live_slot in He as [j' Hj'].
      by destruct (slot_bound k3 _ _ _ Hok3 Hj'). }
    assert (Hlt : (r1.1 < r2.1)%nat).
    { destruct (lookup_event_id name) as [eid0|] eqn:Hl.
      - assert (Hr1 : r1.1 = S (global_hdlr_id_ k) ∧
                      global_hdlr_id_ r1.2 = S (global_hdlr_id_ k)).
        { subst r1. unfold Kernel_on. by rewrite Hl. }
        assert (Hr2 : r2.1 = S (global_hdlr_id_ (exec ops2 r1.2).1)).
        { subst r2. unfold Kernel_on. by rewrite Hl. }
        pose proof (exec_global_mono ops2 r1.2) as Hm.
        destruct Hr1 as [Hr1 Hg1]. lia.
      - assert (Hr1 : r1.1 = 0%nat).
        { subst r1. unfold Kernel_on. by rewrite Hl. }
        lia. }
    destruct (decide (i < j)%nat) as [|Hge]; [done|exfalso].
    destruct (decide (i = j)) as [->|Hne].
    + assert (e1 = e2) by congruence. subst e2. lia.
    + assert (Hr : by_id e2 e1).
      { apply (StronglySorted_lookup_lt by_id log' j i); [done|lia|done..]. }
      unfold by_id in Hr. lia.
  - exact Hexp.
  - intros ev e Hev He Hnone. rewrite Hexp.
    apply (expected_dispatch_runs _ prop (prop_events prop) [] ev e Hev He).
    intros Hin. apply Hcl in Hin as (e' & He' & Hx). by apply (Hnone e').
  - intros eid j e. rewrite (proj2 Hstruck eid j).
    destruct (slot k eid j) as [e0|]; [|split; [done|by intros [? _]]].
    case_decide as Hin.
    + split; [done|]. intros [[= ->] Hnone]. exfalso.
      apply Hcl in Hin as (e' & He' & Hx). by apply (Hnone e').
    + split.
      * intros [= ->]. split; [done|]. intros e' He' Hx. apply Hin, Hcl.
        by exists e'.
      * by intros [[= ->] _].
Qed.

(** C9.  On any kernel a program can have built: [clear(hid)] returns
    false and changes nothing when the id map has no [hid]; it returns
    true exactly when it has one.  Then the id is erased from the id map,
    the entry sat in a slot of the vector of its event, every slot that
    held an entry with this id now reads as null while the other slots
    read as before, and nothing the program does afterwards ([on], [clear]
    or [run] on any packets) invokes an entry with this id again. *)
Theorem clear_cancels_handler (d : D) (ops : list Op) (hid : hdlr_id) :
  let k := (exec ops (Kernel_new d)).1 in
  let r := Kernel_clear hid k in
  (handler_map_ k !! hid = None → r = (false, k))
  ∧ (r.1 = true ↔ is_Some (handler_map_ k !! hid))
  ∧ (r.1 = true →
       handler_map_ r.2 = delete hid (handler_map_ k)
       ∧ (∃ entry j,
            handler_map_ k !! hid = Some entry ∧ Handler.id entry = hid ∧
            slot k (Handler.ev_id entry) j = Some entry ∧
            slot r.2 (Handler.ev_id entry) j = None)
       ∧ (∀ eid j e,
            slot r.2 eid j = Some e ↔
            slot k eid j = Some e ∧ Handler.id e ≠ hid)
       ∧ (∀ eid, length (vector r.2 eid) = length (vector k eid))
       ∧ (∀ ops', Forall (fun e => Handler.id e ≠ hid) (exec ops' r.2).2)).
Proof.
  intros k r.
  assert (Hok : registry_ok k) by apply registry_ok_exec, registry_ok_new.
  split; [apply Kernel_clear_unknown|]. split.
  - subst r. unfold Kernel_clear.
    destruct (handler_map_ k !! hid); simpl; split; try done.
  - intros Htrue.
    destruct (handler_map_ k !! hid) as [entry|] eqn:Hm.
    2:{ subst r. rewrite Kernel_clear_unknown in Htrue by done. done. }
    destruct (ok_map k Hok _ _ Hm) as (Hid & Hb & j & Hj).
    split; [|split; [|split; [|split]]].
    + subst r. unfold Kernel_clear. by rewrite Hm.
    + exists entry, j. repeat split; try done.
      destruct (slot r.2 (Handler.ev_id entry) j) as [e|] eqn:Hs; [|done].
      apply (Kernel_clear_slot hid k entry) in Hs as [Hs Hne]; [|done..].
      congruence.
    + intros eid j' e. by apply (Kernel_clear_slot hid k entry).
    + apply (Kernel_clear_thins hid k).
    + intros ops'. apply exec_gone; [by apply registry_ok_clear|].
      split; [by apply Kernel_clear_absent|].
      destruct (Kernel_clear_thins hid k) as (_ & _ & Hg). subst r.
      rewrite Hg. lia.
Qed.

(** C10.  In a firing, once the callback of [e1] has called
    [clear(hid2)], no entry with id [hid2] runs in the rest of that
    firing, and none is left in any vector afterwards.  If [hid2] was
    registered after [e1], it has not run before [e1] either, so it does
    not run in this firing at all: the slot is nulled in place and read
    when the loop reaches it. *)
Theorem clear_in_callback_skips_handler (d : D) (ops : list Op)
    (prop : Property) (eid : event_id)
    (l1 l2 : list Handler.Entry) (e1 : Handler.Entry) (hid2 : hdlr_id) :
  let k := (exec ops (Kernel_new d)).1 in
  (fire_event eid prop k).2 = l1 ++ e1 :: l2 →
  hid2 ∈ cb_clears (Handler.callback e1) prop →
  Forall (fun e => Handler.id e ≠ hid2) l2
  ∧ absent hid2 (fire_event eid prop k).1
  ∧ ((Handler.id e1 < hid2)%nat →
     Forall (fun e => Handler.id e ≠ hid2) (fire_event eid prop k).2).
Proof.
  intros k Hlog Hin.
  assert (Hok : registry_ok k) by apply registry_ok_exec, registry_ok_new.
  destruct (fire_from_after_clear hid2 eid prop _ k l1 e1 l2 Hok Hlog Hin)
    as [Hl2 Habs].
  split; [done|]. split; [done|].
  intros Hlt. rewrite Hlog.
  pose proof (fire_event_sorted eid prop k Hok) as Hs. rewrite Hlog in Hs.
  apply Forall_app. split; [|constructor; [lia|done]].
  apply Forall_forall. intros x Hx.
  assert (Hr : by_id x e1).
  { eapply StronglySorted_app_1_elem_of; [exact Hs|done|]. by left. }
  unfold by_id in Hr. lia.
Qed.

End RegistryFacts.

(** ** Truncated packets *)

(** C7.  When [retain(20)] fails, [TCP::decode] returns [NONE] and
    leaves the payload, the property (values and events) and the module
    (session table, session count, clock) exactly as they were.  When the
    header is there but [retain(optlen)] fails, it returns [NONE] with the
    header fields written and the module untouched.  And whatever the
    decoder does with a packet, the kernel has counted it by then:
    [recv_pkt_] is one more and [recv_size_] is [cap_len] more. *)
Theorem truncated_tcp_header_no_side_effects (mixer : list byte → Z)
    (pd : Payload) (prop : Property) (tcp : TCP)
    {D : Type} `{Decoder D} (k : Kernel D) (pkt : Packet) :
  (retain tcp_header_size pd = None →
   TCP_decode mixer pd prop tcp = Some (Module_NONE, pd, prop, tcp))
  ∧ (∀ hdr pd1,
       retain tcp_header_size pd = Some (hdr, pd1) →
       0 < option_length hdr →
       retain (option_length hdr) pd1 = None →
       TCP_decode mixer pd prop tcp
         = Some (Module_NONE, pd1, header_properties hdr prop, tcp)
       ∧ prop_events (header_properties hdr prop) = prop_events prop)
  ∧ recv_pkt_ (Kernel_step pkt k).1 = usize (recv_pkt_ k + 1)
  ∧ recv_size_ (Kernel_step pkt k).1 = usize (recv_size_ k + cap_len pkt).
Proof.
  split; [|split].
  - intros Hr. unfold TCP_decode. by rewrite Hr.
  - intros hdr pd1 Hr Hlen Ho. unfold TCP_decode. rewrite Hr.
    apply Z.ltb_lt in Hlen. rewrite Hlen, Ho. done.
  - pose proof (Kernel_step_counters pkt k) as Hc.
    unfold counters in Hc. by injection Hc.
Qed.

Lemma truncated_tcp_header_short_packet :
  let k := Kernel_new TCP_new in
  let pd := Payload_reset short_packet in
  let pd' := Payload_reset short_options_packet in
  let prop := Property_init short_packet in
  TCP_decode (fun _ => 0) pd prop TCP_new = Some (Module_NONE, pd, prop, TCP_new)
  ∧ (∃ hdr pd1,
       retain tcp_header_size pd' = Some (hdr, pd1) ∧
       TCP_decode (fun _ => 0) pd' prop TCP_new
         = Some (Module_NONE, pd1, header_properties hdr prop, TCP_new))
  ∧ recv_pkt_ (Kernel_step short_packet k).1 = 1
  ∧ recv_size_ (Kernel_step short_packet k).1 = 10
  ∧ dec_ (Kernel_step short_packet k).1 = TCP_new
  ∧ (Kernel_step short_packet k).2 = [].
Proof.
  intros k pd pd' prop.
  destruct (truncated_tcp_header_no_side_effects (fun _ => 0) pd prop TCP_new
              k short_packet) as (H1 & _ & H3 & H4).
  destruct (truncated_tcp_header_no_side_effects (fun _ => 0) pd' prop TCP_new
              k short_packet) as (_ & H2 & _).
  split; [apply H1; reflexivity|].
  split.
  { eexists _, _. split; [reflexivity|].
    apply H2; [reflexivity | reflexivity | reflexivity]. }
  split; [rewrite H3; reflexivity|].
  split; [rewrite H4; reflexivity|].
  split; reflexivity.
Defined.

(** ** The kernel scenarios, run *)

(** S6: the first callback clears handler 2 while [established] is being
    fired; handler 2 does not run in that firing, handler 3 does. *)
Example S6_firing_skips_cleared_handler :
  (fire_event (ed_id ev_estb_) (Scenario.from_A 10)
     (exec S6_ops (Kernel_new TCP_new)).1).2
  = [S6_entry 1 [2%nat]; S6_entry 3 []].
Proof. vm_compute. reflexivity. Qed.

Lemma clear_in_callback_skips_handler_S6 :
  let k := (exec S6_ops (Kernel_new TCP_new)).1 in
  Forall (fun e => Handler.id e ≠ 2%nat) [S6_entry 3 []]
  ∧ absent 2%nat (fire_event (ed_id ev_estb_) (Scenario.from_A 10) k).1
  ∧ ((Handler.id (S6_entry 1 [2%nat]) < 2)%nat →
     Forall (fun e => Handler.id e ≠ 2%nat)
            (fire_event (ed_id ev_estb_) (Scenario.from_A 10) k).2).
Proof.
  apply (clear_in_callback_skips_handler TCP_new S6_ops (Scenario.from_A 10)
           (ed_id ev_estb_) [] [S6_entry 3 []] (S6_entry 1 [2%nat]) 2%nat).
  - vm_compute. reflexivity.
  - simpl. constructor.
Defined.

(** Scenario S6 with its third handler: the first handler runs and clears
    the second, the second is skipped, the third runs. *)
Lemma dispatch_in_registration_order_S6 :
  let k := (exec S6_ops (Kernel_new TCP_new)).1 in
  let prop := push_event ev_estb_ (Scenario.from_A 10) in
  let log := (dispatch (prop_events prop) prop k).2 in
  log = [S6_entry 1 [2%nat]; S6_entry 3 []]
  ∧ log = (expected_dispatch (fun eid => live (vector k eid)) prop
             (prop_events prop) []).1
  ∧ S6_entry 3 [] ∈ log
  ∧ slot (dispatch (prop_events prop) prop k).1 (ed_id ev_estb_) 1 = None.
Proof.
  intros k prop log.
  destruct (dispatch_in_registration_order TCP_new S6_ops prop)
    as (_ & _ & _ & Hexp & Hruns & Hslots).
  split; [vm_compute; reflexivity|]. split; [exact Hexp|]. split.
  - apply (Hruns ev_estb_ (S6_entry 3 [])).
    + vm_compute. apply list_elem_of_here.
    + vm_compute. apply list_elem_of_further, list_elem_of_further,
        list_elem_of_here.
    + intros e' He'.
      assert (Hlog : log = [S6_entry 1 [2%nat]; S6_entry 3 []])
        by (vm_compute; reflexivity).
      change (e' ∈ log) in He'. rewrite Hlog in He'.
      apply elem_of_cons in He' as [->|He'];
        [|apply elem_of_cons in He' as [->|He']; [|by apply elem_of_nil in He']];
        vm_compute; intros Hin;
        repeat (apply elem_of_cons in Hin as [Hin|Hin]; [discriminate Hin|]);
        by apply elem_of_nil in Hin.
  - destruct (slot (dispatch (prop_events prop) prop k).1 (ed_id ev_estb_) 1)
      as [e|] eqn:Hs; [|done].
    exfalso. apply Hslots in Hs as [Hs Hnone].
    assert (He : e = S6_entry 2 []) by (vm_compute in Hs; by injection Hs).
    subst e. apply (Hnone (S6_entry 1 [2%nat])).
    + vm_compute. apply list_elem_of_here.
    + vm_compute. apply list_elem_of_here.
Defined.

(** S2 through the kernel, with the handlers of S6 registered: the three
    packets are counted, the [established] of the third packet runs
    handlers 1 and 3, and a second flow that completes its handshake runs
    them again, never handler 2. *)
Example S2_through_the_kernel :
  let r := exec (S6_ops ++ [OpRun S2_packets]) (Kernel_new TCP_new) in
  let again :=
    Kernel_run
      [tcp_packet 20 (tcp_bytes 23456 80 5000 0 SYN []);
       tcp_packet 25 (tcp_bytes 80 23456 7000 5001 (Z.lor SYN ACK) []);
       tcp_packet 30 (tcp_bytes 23456 80 5001 7001 ACK [])] r.1 in
  Handler.id <$> r.2 = [1; 3]%nat
  ∧ recv_pkt_ r.1 = 3
  ∧ recv_size_ r.1 = 60
  ∧ Handler.id <$> again.2 = [1; 3]%nat
  ∧ recv_pkt_ again.1 = 6.
Proof. vm_compute. repeat split; reflexivity. Qed.

(** Two events pushed in the order [new_session], [established]: the
    handlers of [new_session] run first, each group in registration
    order; the registration for an unknown event got no id. *)
Example dispatch_push_order :
  let k := (exec quiet_ops (Kernel_new TCP_new)).1 in
  let prop := push_event ev_estb_ (push_event ev_new_ (Scenario.from_A 0)) in
  Handler.id <$> (dispatch (prop_events prop) prop k).2 = [2; 4; 1; 3]%nat
  ∧ global_hdlr_id_ k = 4%nat.
Proof. vm_compute. split; reflexivity. Qed.

(** C1 at the level of a session: after S2 the client sends five bytes
    in sequence; its [next_seq_] moves to 6 and [tx_server] is published
    as zero. *)
Example tx_server_is_published_as_zero :
  let r := Session_decode ACK 1001 2001 Scenario.hello 65535
             (Scenario.established 1000, Scenario.from_A 20) in
  next_seq_ (client_ r.1) = 6
  ∧ prop_values r.2 !! p_data_ = Some (Value_set Scenario.hello)
  ∧ prop_values r.2 !! p_tx_server_ =
      Some {| v_data := [Byte.x00; Byte.x00; Byte.x00; Byte.x00];
              v_endian := Some LITTLE |}.
Proof. vm_compute. repeat split; reflexivity. Qed.

(** * Further properties *)

(** ** More on streams *)

Lemma memcmp_refl a n : memcmp a a n = 0.
Proof.
  revert a. induction n as [|n IH]; intros [|x a]; simpl; try reflexivity.
  by rewrite Z.eqb_refl.
Qed.

Lemma Stream_match_spec s addr port :
  Stream_match s addr port = true ↔ addr_ s = addr ∧ port_ s = port.
Proof.
  unfold Stream_match.
  rewrite !andb_true_iff, Nat.eqb_eq, !Z.eqb_eq. split.
  - intros [[Hlen Hport] Hcmp]. split; [|done].
    symmetry. apply memcmp_zero_eq; [by symmetry|done].
  - intros [<- <-]. by rewrite memcmp_refl.
Qed.

(** X1.  [Stream::match] answers true exactly for the address bytes and
    the port the stream was built with.  So the client of a new session
    matches the source of the packet it was built from, and its server the
    destination. *)
Theorem Stream_match_iff_same_endpoint (s : Stream) (addr : list byte)
    (port : Z) (p : Property) (ssn_id : Z) :
  (Stream_match s addr port = true ↔ addr_ s = addr ∧ port_ s = port)
  ∧ is_src (client_ (Session_new p ssn_id)) p = true
  ∧ Stream_match (server_ (Session_new p ssn_id))
      (prop_dst_addr p) (prop_dst_port p) = true.
Proof.
  split; [apply Stream_match_spec|].
  split; apply Stream_match_spec; done.
Qed.

(** X2.  A stream that has its base accepts exactly the segment whose
    sequence number is base plus next expected, modulo 2^32: the
    comparison survives the wrap of the sequence space. *)
Theorem send_accepts_iff_expected_seq (flags seq ack data_len : Z)
    (s : Stream) :
  has_base_seq_ s = true →
  0 ≤ next_seq_ s < 2 ^ 32 →
  ((send flags seq ack data_len s).1 = true ↔
   u32 seq = u32 (base_seq_ s + next_seq_ s)).
Proof.
  intros Hb Hr. rewrite send_cases, Hb. unfold u32.
  destruct (next_seq_ s =? (seq - base_seq_ s) mod 2 ^ 32) eqn:E; simpl.
  - apply Z.eqb_eq in E. split; [intros _|done].
    rewrite E, Zplus_mod_idemp_r. f_equal. lia.
  - apply Z.eqb_neq in E. split; [done|]. intros Heq. exfalso. apply E.
    rewrite <- Zminus_mod_idemp_l, Heq, Zminus_mod_idemp_l.
    replace (base_seq_ s + next_seq_ s - base_seq_ s) with (next_seq_ s) by lia.
    symmetry. by apply Z.mod_small.
Qed.

(** The segment that follows a base of 2^32 - 1 has sequence number 0. *)
Lemma send_accepts_across_wrap :
  (send ACK 0 0 5 stream_before_wrap).1 = true ↔
  u32 0 = u32 (base_seq_ stream_before_wrap + next_seq_ stream_before_wrap).
Proof.
  apply (send_accepts_iff_expected_seq ACK 0 0 5 stream_before_wrap).
  - reflexivity.
  - vm_compute. split; [discriminate|reflexivity].
Defined.

(** ** More invariants of a session *)

Lemma same_identity_refl ssn : same_identity ssn ssn.
Proof. by repeat split. Qed.

Lemma same_identity_trans a b c :
  same_identity a b → same_identity b c → same_identity a c.
Proof.
  unfold same_identity. intros (?&?&?&?&?&?&?) (?&?&?&?&?&?&?).
  repeat split; congruence.
Qed.

Lemma send_identity flags seq ack len s :
  addr_ (send flags seq ack len s).2 = addr_ s ∧
  port_ (send flags seq ack len s).2 = port_ s ∧
  tx_size_ (send flags seq ack len s).2 = tx_size_ s.
Proof.
  rewrite send_cases.
  destruct (has_base_seq_ s); [destruct (_ =? _)|]; done.
Qed.

Lemma trans_state_identity flags sender seq len tv ssn :
  same_identity ssn (trans_state flags sender seq len tv ssn).2.
Proof.
  unfold trans_state, same_identity.
  destruct (status_ ssn), sender; simpl; case_ifs; simpl; done.
Qed.

Lemma decode_stream_body_identity f s ack d win sender recver st :
  same_identity st.1 (decode_stream_body f s ack d win sender recver st).1.2.1.
Proof.
  destruct st as [ssn p]. unfold decode_stream_body.
  pose proof (send_identity f s ack (Z.of_nat (length d)) (stream_of sender ssn))
    as (Ha & Hp & Ht).
  destruct (send _ _ _ _ _) as [ok s']. simpl in Ha, Hp, Ht.
  assert (H0 : same_identity ssn (with_stream sender s' ssn)).
  { unfold same_identity. destruct sender; simpl in *; by repeat split. }
  destruct ok; simpl; [|done].
  assert (H1 : same_identity ssn
            (with_stream recver
               (recv ack win (stream_of recver (with_stream sender s' ssn)))
               (with_stream sender s' ssn))).
  { eapply same_identity_trans; [exact H0|].
    unfold same_identity. destruct recver; simpl; by repeat split. }
  match goal with
  | |- context [trans_state ?a ?b ?c ?e ?g ?h] =>
      pose proof (trans_state_identity a b c e g h) as Hts;
      destruct (trans_state a b c e g h) as [ns ssn3]
  end.
  simpl in Hts. pose proof (same_identity_trans _ _ _ H1 Hts) as H3.
  destruct (buf_ ssn3) eqn:Hb; simpl; case_ifs; simpl;
    repeat (match goal with
            | |- context [match ?m !! ?k with _ => _ end] =>
                destruct (m !! k) eqn:?
            end; simpl);
    rewrite ?Hb; simpl; exact H3.
Qed.

Lemma Session_decode_identity flags seq ack data win st :
  same_identity st.1 (Session_decode flags seq ack data win st).1.
Proof.
  destruct st as [ssn p]. unfold Session_decode. rewrite clear_buf_eq.
  destruct (is_src _ p);
    match goal with
    | |- context [decode_stream ?a ?b ?c ?d ?e ?f ?g ?h] =>
        pose proof (decode_stream_preserves
                      (fun st' => same_identity ssn st'.1) a b c d e f g) as H1;
        specialize (H1 (fun f0 s0 d0 st0 Hs =>
                          same_identity_trans _ _ _ Hs
                            (decode_stream_body_identity f0 s0 c d0 e f g st0)) h);
        destruct (decode_stream a b c d e f g h) as [ok [ssn' p']]
    end; simpl in *; apply H1; by repeat split.
Qed.

Lemma Session_run_identity calls ssn :
  same_identity ssn (Session_run calls ssn).
Proof.
  revert ssn. induction calls as [|c calls IH]; intros ssn; simpl.
  - apply same_identity_refl.
  - eapply same_identity_trans; [|apply IH].
    apply (Session_decode_identity _ _ _ _ _ (ssn, dc_prop c)).
Qed.

Lemma decode_stream_body_control f s ack d win sender recver ssn p :
  let r := decode_stream_body f s ack d win sender recver (ssn, p) in
  let sr := send f s ack (Z.of_nat (length d)) (stream_of sender ssn) in
  r.1.1 = sr.1 ∧
  if sr.1 then
    same_control
      (trans_state f sender s (Z.of_nat (length d)) (prop_tv p)
         (after_send_recv ack win sender recver sr.2 ssn)).2
      r.1.2.1
  else same_control ssn r.1.2.1.
Proof.
  cbv zeta. unfold decode_stream_body, after_send_recv.
  pose proof (send_false f s ack (Z.of_nat (length d)) (stream_of sender ssn))
    as Hf.
  destruct (send _ _ _ _ _) as [ok s']. simpl in Hf.
  destruct ok; simpl.
  - destruct (trans_state _ _ _ _ _ _) as [ns ssn3]. simpl.
    destruct (buf_ ssn3) eqn:Hb; simpl; case_ifs; simpl;
      repeat (match goal with
              | |- context [match ?m !! ?k with _ => _ end] =>
                  destruct (m !! k) eqn:?
              end; simpl);
      rewrite ?Hb; simpl; by repeat split.
  - split; [done|]. destruct (Hf eq_refl) as (_ & _ & ->).
    unfold same_control. destruct sender; simpl; by repeat split.
Qed.

Lemma u32_range z : 0 ≤ u32 z < 2 ^ 32.
Proof. unfold u32. apply Z.mod_pos_bound. lia. Qed.

Lemma send_base flags seq ack len s :
  has_base_seq_ (send flags seq ack len s).2 = has_base_seq_ s
  ∧ base_seq_ (send flags seq ack len s).2 = base_seq_ s
  ∧ (0 ≤ next_seq_ s < 2 ^ 32 →
     0 ≤ next_seq_ (send flags seq ack len s).2 < 2 ^ 32).
Proof.
  rewrite send_cases.
  destruct (has_base_seq_ s) eqn:Hb; [destruct (_ =? _)|]; simpl;
    (split; [done|split; [done|]]); intros Hr;
    first [exact Hr | apply u32_range].
Qed.

Lemma trans_state_base flags sender seq len tv ssn :
  base_tracks_status ssn →
  base_tracks_status (trans_state flags sender seq len tv ssn).2
  ∧ base_stable ssn (trans_state flags sender seq len tv ssn).2.
Proof.
  unfold base_tracks_status, base_stable, trans_state.
  intros (Hc & Hs & Rc & Rs).
  pose proof (u32_range (1 + len)) as R1.
  pose proof (u32_range (next_seq_ (client_ ssn) + 1)) as R2.
  pose proof (u32_range (next_seq_ (server_ ssn) + 1)) as R3.
  destruct (status_ ssn) eqn:Hst; simpl in *;
    repeat match goal with
           | |- context [if ?b then _ else _] => destruct b eqn:?
           end; simpl; rewrite ?Hst; simpl;
    try (apply andb_true_iff in Heqb as [_ Hd];
         apply bool_decide_eq_true in Hd; subst sender; simpl);
    try (destruct sender; simpl);
    rewrite ?Hc, ?Hs; repeat split; auto; try done; lia.
Qed.

Lemma decode_stream_body_base f s ack d win sender recver st :
  base_tracks_status st.1 →
  base_tracks_status (decode_stream_body f s ack d win sender recver st).1.2.1
  ∧ base_stable st.1 (decode_stream_body f s ack d win sender recver st).1.2.1.
Proof.
  destruct st as [ssn p]. intros Hinv.
  pose proof (decode_stream_body_control f s ack d win sender recver ssn p)
    as [_ Hc]. cbv zeta in Hc.
  pose proof (send_base f s ack (Z.of_nat (length d)) (stream_of sender ssn))
    as (Sb & Sbase & Sr).
  destruct (send _ _ _ _ _) as [ok s']. simpl in *.
  destruct ok.
  - assert (H1 : base_tracks_status (after_send_recv ack win sender recver s' ssn)
                 ∧ base_stable ssn (after_send_recv ack win sender recver s' ssn)).
    { unfold base_tracks_status, base_stable, after_send_recv in *.
      destruct Hinv as (Hc1 & Hs1 & Rc & Rs).
      destruct sender, recver; simpl in *; rewrite ?Sb, ?Sbase;
        repeat split; auto; lia. }
    destruct H1 as [H1 H2].
    destruct (trans_state_base f sender s (Z.of_nat (length d)) (prop_tv p)
                (after_send_recv ack win sender recver s' ssn) H1) as [H3 H4].
    destruct Hc as (E1 & E2 & E3 & _).
    unfold base_tracks_status, base_stable in *. rewrite E1, E2, E3.
    split; [exact H3|].
    destruct H2 as [A1 A2], H4 as [B1 B2]. split.
    + intros Hb. destruct (A1 Hb) as [Hb' Hbase]. destruct (B1 Hb').
      split; [done|congruence].
    + intros Hb. destruct (A2 Hb) as [Hb' Hbase]. destruct (B2 Hb').
      split; [done|congruence].
  - destruct Hc as (E1 & E2 & E3 & _).
    unfold base_tracks_status, base_stable in *. rewrite E1, E2, E3.
    split; [exact Hinv|]. by split.
Qed.

Lemma base_stable_trans a b c :
  base_stable a b → base_stable b c → base_stable a c.
Proof.
  unfold base_stable. intros [A1 A2] [B1 B2]. split; intros Hb.
  - destruct (A1 Hb) as [? ?]. destruct (B1 H) as [? ?]. split; congruence.
  - destruct (A2 Hb) as [? ?]. destruct (B2 H) as [? ?]. split; congruence.
Qed.

Lemma Session_decode_base flags seq ack data win st :
  base_tracks_status st.1 →
  base_tracks_status (Session_decode flags seq ack data win st).1
  ∧ base_stable st.1 (Session_decode flags seq ack data win st).1.
Proof.
  destruct st as [ssn p]. intros Hinv. unfold Session_decode.
  rewrite clear_buf_eq.
  set (K := fun st' : Session * Property =>
              base_tracks_status st'.1 ∧ base_stable ssn st'.1).
  assert (Hstep : ∀ sender recver f s d st', K st' →
            K (decode_stream_body f s ack d win sender recver st').1.2).
  { intros sender recver f s d st' [H1 H2].
    destruct (decode_stream_body_base f s ack d win sender recver st' H1)
      as [H3 H4].
    split; [done|]. by eapply base_stable_trans. }
  assert (H0 : K (with_buf None ssn, p)).
  { split; [exact Hinv|]. by split. }
  destruct (is_src _ p);
    match goal with
    | |- context [decode_stream ?a ?b ?c ?d ?e ?f ?g ?h] =>
        pose proof (decode_stream_preserves K a b c d e f g (Hstep f g) h H0) as H1;
        destruct (decode_stream a b c d e f g h) as [ok [ssn' p']]
    end; exact H1.
Qed.

Lemma Session_run_base calls ssn :
  base_tracks_status ssn →
  base_tracks_status (Session_run calls ssn)
  ∧ base_stable ssn (Session_run calls ssn).
Proof.
  revert ssn. induction calls as [|c calls IH]; intros ssn Hinv; simpl.
  - split; [done|]. by split.
  - destruct (Session_decode_base (dc_flags c) (dc_seq c) (dc_ack c)
                (dc_data c) (dc_win c) (ssn, dc_prop c) Hinv) as [H1 H2].
    destruct (IH _ H1) as [H3 H4]. split; [done|].
    by eapply base_stable_trans.
Qed.

(** X3.  Over the lifetime of a session the client's base sequence number
    is set exactly when the status has left NONE and the server's exactly
    when it has passed SYN_SENT; a base that is set is never set again;
    and the next expected sequence numbers stay 32-bit values. *)
Theorem base_seq_is_set_once (p : Property) (ssn_id : Z)
    (calls more : list DecodeCall) :
  let ssn := Session_run calls (Session_new p ssn_id) in
  let ssn' := Session_run more ssn in
  has_base_seq_ (client_ ssn) = bool_decide (1 ≤ rank (status_ ssn))%nat
  ∧ has_base_seq_ (server_ ssn) = bool_decide (2 ≤ rank (status_ ssn))%nat
  ∧ (has_base_seq_ (client_ ssn) = true →
     has_base_seq_ (client_ ssn') = true ∧
     base_seq_ (client_ ssn') = base_seq_ (client_ ssn))
  ∧ (has_base_seq_ (server_ ssn) = true →
     has_base_seq_ (server_ ssn') = true ∧
     base_seq_ (server_ ssn') = base_seq_ (server_ ssn))
  ∧ 0 ≤ next_seq_ (client_ ssn) < 2 ^ 32
  ∧ 0 ≤ next_seq_ (server_ ssn) < 2 ^ 32.
Proof.
  intros ssn ssn'.
  assert (H0 : base_tracks_status (Session_new p ssn_id)).
  { unfold base_tracks_status. simpl. repeat split; done. }
  destruct (Session_run_base calls _ H0) as [(A1 & A2 & A3 & A4) _].
  destruct (Session_run_base more ssn (conj A1 (conj A2 (conj A3 A4))))
    as [_ [B1 B2]].
  repeat split; try done; try apply A3; try apply A4.
  - by apply B1.
  - by apply B1.
  - by apply B2.
  - by apply B2.
Qed.

(** X4.  Nothing after the constructor writes the endpoints or the id of
    a session: after any [decode] calls both streams have the address and
    port they were built with, so every packet is attributed to the same
    stream as before. *)
Theorem session_endpoints_never_change (ssn : Session)
    (calls : list DecodeCall) (p : Property) :
  let ssn' := Session_run calls ssn in
  addr_ (client_ ssn') = addr_ (client_ ssn)
  ∧ port_ (client_ ssn') = port_ (client_ ssn)
  ∧ addr_ (server_ ssn') = addr_ (server_ ssn)
  ∧ port_ (server_ ssn') = port_ (server_ ssn)
  ∧ id_ ssn' = id_ ssn
  ∧ is_src (client_ ssn') p = is_src (client_ ssn) p.
Proof.
  intros ssn'.
  destruct (Session_run_identity calls ssn) as (H1 & H2 & H3 & H4 & _ & _ & H7).
  repeat split; try done. by apply is_src_same_endpoint.
Qed.

Lemma Session_decode_tx flags seq ack data win st :
  let r := Session_decode flags seq ack data win st in
  prop_values r.2 !! p_tx_server_ =
    Some (Value_cpy (le_bytes 4 (tx_size (client_ r.1))) (Some LITTLE))
  ∧ prop_values r.2 !! p_tx_client_ =
    Some (Value_cpy (le_bytes 4 (tx_size (server_ r.1))) (Some LITTLE)).
Proof.
  destruct st as [ssn p]. unfold Session_decode.
  destruct (is_src _ p);
    destruct (decode_stream _ _ _ _ _ _ _ _) as [ok [ssn' p']]; simpl;
    (split; [rewrite lookup_insert_ne by done|]; apply lookup_insert_eq).
Qed.

(** X5.  [Session::decode] publishes [tx_server] and [tx_client] on every
    call, parked segment or not, and for a session built by the
    constructor both are four zero bytes whatever has been sent: no code
    path adds to [tx_size_]. *)
Theorem tx_counters_are_published_as_zero (p0 : Property) (ssn_id : Z)
    (calls : list DecodeCall) (flags seq ack : Z) (data : list byte)
    (win : Z) (p : Property) :
  let ssn := Session_run calls (Session_new p0 ssn_id) in
  let r := Session_decode flags seq ack data win (ssn, p) in
  let zero := {| v_data := [Byte.x00; Byte.x00; Byte.x00; Byte.x00];
                 v_endian := Some LITTLE |} in
  prop_values r.2 !! p_tx_server_ = Some zero
  ∧ prop_values r.2 !! p_tx_client_ = Some zero
  ∧ tx_size_ (client_ r.1) = 0
  ∧ tx_size_ (server_ r.1) = 0.
Proof.
  intros ssn r zero.
  destruct (Session_run_identity calls (Session_new p0 ssn_id))
    as (_ & _ & _ & _ & T1 & T2 & _).
  destruct (Session_decode_identity flags seq ack data win (ssn, p))
    as (_ & _ & _ & _ & T3 & T4 & _).
  fold ssn in T1, T2. fold r in T3, T4. simpl in T1, T2, T3, T4.
  rewrite T1 in T3. rewrite T2 in T4.
  destruct (Session_decode_tx flags seq ack data win (ssn, p)) as [V1 V2].
  fold r in V1, V2. unfold tx_size in V1, V2. rewrite T3 in V1. rewrite T4 in V2.
  repeat split; done.
Qed.

(** ** The parked segments are bounded by the packets seen *)

Lemma deliver_count ack win sender recver pending st :
  (seg_count (seg_map_ (deliver ack win sender recver pending st).1)
   ≤ seg_count (seg_map_ st.1) + length pending)%nat.
Proof.
  funelim (deliver ack win sender recver pending st).
  - simpl. lia.
  - pose proof (decode_stream_body_count (seg_flags tgt) (seg_seq tgt) ack
                  (seg_data tgt) win_size sender recver st) as Hc.
    cbv zeta in Hc. rewrite length_app in H. simpl.
    destruct Hc as [(_ & Hnil & Hc) | (_ & Hc)].
    + apply (f_equal length) in Hnil. simpl in Hnil. lia.
    + lia.
Qed.

Lemma decode_stream_count flags seq ack data win sender recver st :
  let r := decode_stream flags seq ack data win sender recver st in
  (seg_count (seg_map_ r.2.1)
   ≤ seg_count (seg_map_ st.1) + (if r.1 then 0 else 1))%nat.
Proof.
  unfold decode_stream. cbv zeta. simpl.
  pose proof (decode_stream_body_count flags seq ack data win sender recver st)
    as Hc.
  cbv zeta in Hc.
  pose proof (deliver_count ack win sender recver
                (decode_stream_body flags seq ack data win sender recver st).2
                (decode_stream_body flags seq ack data win sender recver st).1.2)
    as Hd.
  destruct Hc as [(-> & Hnil & Hc) | (-> & Hc)].
  - apply (f_equal length) in Hnil. simpl in Hnil. lia.
  - lia.
Qed.

Lemma Session_decode_count flags seq ack data win st :
  (seg_count (seg_map_ (Session_decode flags seq ack data win st).1)
   ≤ S (seg_count (seg_map_ st.1)))%nat.
Proof.
  destruct st as [ssn p]. unfold Session_decode. rewrite clear_buf_eq.
  destruct (is_src _ p);
    match goal with
    | |- context [decode_stream ?a ?b ?c ?d ?e ?f ?g ?h] =>
        pose proof (decode_stream_count a b c d e f g h) as Hc;
        cbv zeta in Hc;
        destruct (decode_stream a b c d e f g h) as [ok [ssn' p']]
    end; simpl in *; destruct ok; lia.
Qed.

(** X6.  A [decode] call parks at most one segment, and a segment taken
    out of [seg_map_] for delivery is either consumed or parked again, so
    a session never holds more parked segments than it has been handed
    packets. *)
Theorem parked_segments_bounded_by_calls (p : Property) (ssn_id : Z)
    (calls : list DecodeCall) (ssn : Session) :
  (seg_count (seg_map_ (Session_run calls ssn))
   ≤ seg_count (seg_map_ ssn) + length calls)%nat
  ∧ (seg_count (seg_map_ (Session_run calls (Session_new p ssn_id)))
     ≤ length calls)%nat.
Proof.
  assert (H : ∀ s, (seg_count (seg_map_ (Session_run calls s))
                    ≤ seg_count (seg_map_ s) + length calls)%nat).
  { induction calls as [|c calls IH]; intros s; simpl; [lia|].
    pose proof (Session_decode_count (dc_flags c) (dc_seq c) (dc_ack c)
                  (dc_data c) (dc_win c) (s, dc_prop c)) as Hc.
    simpl in Hc. specialize (IH (Session_decode (dc_flags c) (dc_seq c)
      (dc_ack c) (dc_data c) (dc_win c) (s, dc_prop c)).1).
    unfold Session_run in *. lia. }
  split; [apply H|].
  specialize (H (Session_new p ssn_id)). simpl in H.
  change (seg_count ∅) with 0%nat in H. exact H.
Qed.

(** ** A segment out of sequence *)

(** A segment the sender's stream refuses: the call parks it and sets the
    two counters. *)
Lemma Session_decode_refused flags seq ack data win ssn p :
  let sender := if is_src (client_ ssn) p then Client else Server in
  let s := stream_of sender ssn in
  has_base_seq_ s = true →
  u32 (seq - base_seq_ s) ≠ next_seq_ s →
  Session_decode flags seq ack data win (ssn, p) =
    (with_seg_map
       (park (u32 (seq - base_seq_ s))
             {| seg_data := data; seg_seq := seq; seg_flags := flags |}
             (seg_map_ ssn))
       (with_buf None ssn),
     set_value p_tx_client_
       (Value_cpy (le_bytes 4 (tx_size (server_ ssn))) (Some LITTLE))
       (set_value p_tx_server_
          (Value_cpy (le_bytes 4 (tx_size (client_ ssn))) (Some LITTLE)) p)).
Proof.
  intros sender s Hb Hne. subst s.
  unfold Session_decode. rewrite clear_buf_eq.
  change (client_ (with_buf None ssn)) with (client_ ssn).
  subst sender.
  destruct (is_src (client_ ssn) p); cbv zeta;
    unfold decode_stream, decode_stream_body; simpl stream_of;
    simpl stream_of in Hb, Hne;
    match goal with
    | |- context [send ?a ?b ?c ?d ?e] =>
        destruct (send_next_seq a b c d e) as (_ & _ & ->); [done|done|]
    end; simpl; simp deliver; simpl;
    destruct ssn; reflexivity.
Qed.

(** X7.  A segment whose sequence number is not the one its sender's
    stream expects has no effect but being parked.  After [decode] the
    chain under the segment's relative sequence number is the chain that
    was there, if any, with a segment of the packet's payload, sequence
    number and flags at its end, and every other key of [seg_map_] holds
    what it held; both streams, the status and its history, [closing_],
    the id and the timestamps are as before and there is no reassembly
    buffer.  No event is pushed and no [data] is published: the only
    values set are the two counters, and the rest of the property is
    untouched. *)
Theorem out_of_sequence_segment_is_only_parked (flags seq ack : Z)
    (data : list byte) (win : Z) (ssn : Session) (p : Property) :
  let sender := if is_src (client_ ssn) p then Client else Server in
  let s := stream_of sender ssn in
  let k := u32 (seq - base_seq_ s) in
  let seg := {| seg_data := data; seg_seq := seq; seg_flags := flags |} in
  let r := Session_decode flags seq ack data win (ssn, p) in
  has_base_seq_ s = true →
  k ≠ next_seq_ s →
  seg_map_ r.1 !! k = Some (default [] (seg_map_ ssn !! k) ++ [seg])
  ∧ (∀ k', k' ≠ k → seg_map_ r.1 !! k' = seg_map_ ssn !! k')
  ∧ client_ r.1 = client_ ssn ∧ server_ r.1 = server_ ssn
  ∧ status_ r.1 = status_ ssn ∧ status_log_ r.1 = status_log_ ssn
  ∧ closing_ r.1 = closing_ ssn ∧ id_ r.1 = id_ ssn
  ∧ ts_init_ r.1 = ts_init_ ssn ∧ ts_estb_ r.1 = ts_estb_ ssn
  ∧ ts_rtt_ r.1 = ts_rtt_ ssn
  ∧ buf_ r.1 = None
  ∧ prop_events r.2 = prop_events p
  ∧ prop_tv r.2 = prop_tv p
  ∧ prop_src_addr r.2 = prop_src_addr p ∧ prop_dst_addr r.2 = prop_dst_addr p
  ∧ prop_src_port r.2 = prop_src_port p ∧ prop_dst_port r.2 = prop_dst_port p
  ∧ prop_values r.2 =
      <[p_tx_client_ :=
          {| v_data := le_bytes 4 (u32 (tx_size_ (server_ ssn)));
             v_endian := Some LITTLE |}]>
        (<[p_tx_server_ :=
             {| v_data := le_bytes 4 (u32 (tx_size_ (client_ ssn)));
                v_endian := Some LITTLE |}]> (prop_values p))
  ∧ prop_values r.2 !! p_data_ = prop_values p !! p_data_.
Proof.
  intros sender s k seg r Hb Hne. subst r.
  rewrite (Session_decode_refused flags seq ack data win ssn p Hb Hne).
  fold sender. fold s. fold k. fold seg. simpl.
  split; [|split].
  - unfold park. destruct (seg_map_ ssn !! k); simpl; apply lookup_insert_eq.
  - intros k' Hk'. unfold park.
    destruct (seg_map_ ssn !! k); by rewrite lookup_insert_ne.
  - repeat split.
    rewrite lookup_insert_ne by done. by rewrite lookup_insert_ne by done.
Qed.

(** The second copy of a segment the client has already sent. *)
Lemma out_of_sequence_retransmission :
  let ssn := after_hello in
  let p := Scenario.from_A 30 in
  let sender := if is_src (client_ ssn) p then Client else Server in
  let s := stream_of sender ssn in
  let k := u32 (1001 - base_seq_ s) in
  let seg := {| seg_data := Scenario.hello; seg_seq := 1001;
                seg_flags := ACK |} in
  let r := Session_decode ACK 1001 2001 Scenario.hello 65535 (ssn, p) in
  seg_map_ r.1 !! k = Some (default [] (seg_map_ ssn !! k) ++ [seg])
  ∧ (∀ k', k' ≠ k → seg_map_ r.1 !! k' = seg_map_ ssn !! k')
  ∧ client_ r.1 = client_ ssn ∧ server_ r.1 = server_ ssn
  ∧ status_ r.1 = status_ ssn ∧ status_log_ r.1 = status_log_ ssn
  ∧ closing_ r.1 = closing_ ssn ∧ id_ r.1 = id_ ssn
  ∧ ts_init_ r.1 = ts_init_ ssn ∧ ts_estb_ r.1 = ts_estb_ ssn
  ∧ ts_rtt_ r.1 = ts_rtt_ ssn
  ∧ buf_ r.1 = None
  ∧ prop_events r.2 = prop_events p
  ∧ prop_tv r.2 = prop_tv p
  ∧ prop_src_addr r.2 = prop_src_addr p ∧ prop_dst_addr r.2 = prop_dst_addr p
  ∧ prop_src_port r.2 = prop_src_port p ∧ prop_dst_port r.2 = prop_dst_port p
  ∧ prop_values r.2 =
      <[p_tx_client_ :=
          {| v_data := le_bytes 4 (u32 (tx_size_ (server_ ssn)));
             v_endian := Some LITTLE |}]>
        (<[p_tx_server_ :=
             {| v_data := le_bytes 4 (u32 (tx_size_ (client_ ssn)));
                v_endian := Some LITTLE |}]> (prop_values p))
  ∧ prop_values r.2 !! p_data_ = prop_values p !! p_data_.
Proof.
  apply (out_of_sequence_segment_is_only_parked ACK 1001 2001 Scenario.hello
           65535 after_hello (Scenario.from_A 30)).
  - vm_compute; reflexivity.
  - vm_compute; discriminate.
Defined.

(** The same call, and the same segment a third time, in numbers: the
    copies queue up under key 1 while the stream expects 6. *)
Example retransmissions_queue_up :
  let r := Session_decode ACK 1001 2001 Scenario.hello 65535
             (after_hello, Scenario.from_A 30) in
  let r' := Session_decode ACK 1001 2001 Scenario.hello 65535
              (r.1, Scenario.from_A 40) in
  seg_map_ after_hello = ∅
  ∧ seg_map_ r.1 = {[ 1 := [hello_again] ]}
  ∧ seg_map_ r'.1 = {[ 1 := [hello_again; hello_again] ]}
  ∧ next_seq_ (client_ r'.1) = 6.
Proof. vm_compute. done. Qed.

(** ** Events and transitions *)

Lemma announces_refl st : announces st st.
Proof. exists []. simpl. by rewrite !app_nil_r. Qed.

Lemma announces_trans a b c : announces a b → announces b c → announces a c.
Proof.
  intros (n1 & L1 & E1) (n2 & L2 & E2). exists (n1 ++ n2).
  rewrite L2, L1, E2, E1, omap_app, !app_assoc. done.
Qed.

Lemma trans_state_returns flags sender seq seg_len tv ssn :
  let r := trans_state flags sender seq seg_len tv ssn in
  (r.1 = NONE ∧ status_log_ r.2 = status_log_ ssn)
  ∨ (r.1 ≠ NONE ∧ status_log_ r.2 = status_log_ ssn ++ [r.1]).
Proof.
  unfold trans_state.
  destruct (status_ ssn) eqn:Hs; simpl; case_ifs; simpl; auto.
Qed.

Lemma decode_stream_body_announces f s ack d win sender recver st :
  announces st (decode_stream_body f s ack d win sender recver st).1.2.
Proof.
  destruct st as [ssn p]. unfold announces, decode_stream_body.
  destruct (send _ _ _ _ _) as [ok s'].
  destruct ok; simpl; [|exists []; simpl; by rewrite !app_nil_r].
  match goal with
  | |- context [trans_state ?a ?b ?c ?e ?g ?h] =>
      pose proof (trans_state_returns a b c e g h) as Hts;
      destruct (trans_state a b c e g h) as [ns ssn3]
  end.
  simpl in Hts.
  exists (match ns with NONE => [] | _ => [ns] end).
  destruct Hts as [[-> Hl] | [Hn Hl]].
  - simpl. destruct (buf_ ssn3) eqn:Hb; simpl; case_ifs; simpl;
      repeat (match goal with
              | |- context [match ?m !! ?k with _ => _ end] =>
                  destruct (m !! k) eqn:?
              end; simpl);
      rewrite ?Hb; simpl; rewrite !app_nil_r; done.
  - destruct ns; try done; simpl;
      destruct (buf_ ssn3) eqn:Hb; simpl; case_ifs; simpl;
      repeat (match goal with
              | |- context [match ?m !! ?k with _ => _ end] =>
                  destruct (m !! k) eqn:?
              end; simpl);
      rewrite ?Hb, ?app_nil_r; simpl; done.
Qed.

Lemma Session_decode_announces flags seq ack data win st :
  announces st (Session_decode flags seq ack data win st).
Proof.
  destruct st as [ssn p]. unfold Session_decode. rewrite clear_buf_eq.
  assert (H0 : announces (ssn, p) (with_buf None ssn, p))
    by apply (announces_refl (ssn, p)).
  assert (Hstep : ∀ sender recver f s d st',
            announces (ssn, p) st' →
            announces (ssn, p)
              (decode_stream_body f s ack d win sender recver st').1.2).
  { intros. eapply announces_trans; [eassumption|].
    apply decode_stream_body_announces. }
  destruct (is_src _ p);
    match goal with
    | |- context [decode_stream ?a ?b ?c ?d ?e ?f ?g ?h] =>
        pose proof (decode_stream_preserves (announces (ssn, p))
                      a b c d e f g (Hstep f g) h H0) as H1;
        destruct (decode_stream a b c d e f g h) as [ok [ssn' p']]
    end; exact H1.
Qed.

(** X8.  The events a [decode] call pushes are exactly those of the
    statuses the session entered during the call, in that order:
    [established] on entering ESTABLISHED, [closed] on entering CLOSED,
    nothing otherwise.  For a session built by the constructor no status
    occurs twice in the history, so either event is pushed at most once
    in the lifetime of a session. *)
Theorem events_announce_transitions (p0 : Property) (ssn_id : Z)
    (calls : list DecodeCall) (flags seq ack : Z) (data : list byte)
    (win : Z) (p : Property) :
  let ssn := Session_run calls (Session_new p0 ssn_id) in
  let r := Session_decode flags seq ack data win (ssn, p) in
  ∃ new,
    status_log_ r.1 = status_log_ ssn ++ new
    ∧ prop_events r.2 = prop_events p ++ omap event_of new
    ∧ NoDup (status_log_ ssn ++ new).
Proof.
  intros ssn r.
  destruct (Session_decode_announces flags seq ack data win (ssn, p))
    as (new & Hl & He).
  fold r in Hl, He. simpl in Hl, He.
  exists new. split; [exact Hl|]. split; [exact He|].
  rewrite <- Hl.
  assert (Hinv : log_on_path ssn).
  { apply (Session_run_status_step calls (Session_new p0 ssn_id)).
    reflexivity. }
  assert (Hinv' : log_on_path r.1).
  { by apply (Session_decode_status_step flags seq ack data win (ssn, p)). }
  rewrite Hinv'. eapply sublist_NoDup; [|apply sublist_take].
  by apply (bool_decide_unpack _).
Qed.

(** ** Reassembly of a run of parked segments *)

(** An in-sequence segment without FIN on an ESTABLISHED session. *)
Lemma decode_stream_body_in_sequence f seq ack d win sender ssn p :
  let s := stream_of sender ssn in
  let k := u32 (next_seq_ s + Z.of_nat (length d)) in
  let r := decode_stream_body f seq ack d win sender (other sender) (ssn, p) in
  status_ ssn = ESTABLISHED →
  Z.land f FIN = 0 →
  has_base_seq_ s = true →
  u32 (seq - base_seq_ s) = next_seq_ s →
  r.2 = default [] (seg_map_ ssn !! k)
  ∧ seg_map_ r.1.2.1 = delete k (seg_map_ ssn)
  ∧ buf_ r.1.2.1 =
      match buf_ ssn, seg_map_ ssn !! k with
      | None, None => None
      | _, _ => Some (default [] (buf_ ssn) ++ d)
      end
  ∧ prop_values r.1.2.2 !! p_data_ = Some (Value_set (default [] (buf_ ssn) ++ d))
  ∧ status_ r.1.2.1 = ESTABLISHED
  ∧ has_base_seq_ (stream_of sender r.1.2.1) = true
  ∧ base_seq_ (stream_of sender r.1.2.1) = base_seq_ s
  ∧ next_seq_ (stream_of sender r.1.2.1) = k.
Proof.
  intros s k r Hst Hfin Hb Hseq. subst r k s. unfold decode_stream_body.
  rewrite send_cases, Hb, Hseq, Z.eqb_refl.
  destruct sender; simpl; unfold trans_state; simpl; rewrite Hst, Hfin; simpl;
    unfold next_seq; simpl;
    (destruct (buf_ ssn) as [b|] eqn:Hbuf; simpl;
     (destruct (0 <? size (seg_map_ ssn))%nat eqn:Hsz; simpl;
      [ destruct (seg_map_ ssn !! _) as [chain|] eqn:Hk; simpl;
        rewrite ?Hbuf; simpl;
        repeat split; try done; try apply lookup_insert_eq;
        by rewrite delete_id
      | apply Nat.ltb_ge in Hsz;
        assert (He : seg_map_ ssn = ∅)
          by (apply map_size_empty_iff; lia);
        rewrite He, lookup_empty, delete_empty; simpl;
        repeat split; try done; apply lookup_insert_eq ])).
Qed.

Lemma chained_keys_fresh k s rest :
  NoDup ((k, [s]) :: chained (u32 (k + Z.of_nat (length (seg_data s)))) rest).*1 →
  (list_to_map (chained (u32 (k + Z.of_nat (length (seg_data s)))) rest)
     : gmap Z (list Segment)) !! k = None.
Proof.
  simpl. intros Hnd. apply NoDup_cons in Hnd as [Hk _].
  by apply not_elem_of_list_to_map.
Qed.

(** Delivering a segment that continues the stream, with the rest of the
    run parked behind it, consumes the whole run. *)
Lemma deliver_run ack win sender rest :
  ∀ s ssn p,
    let st := stream_of sender ssn in
    let k := u32 (next_seq_ st + Z.of_nat (length (seg_data s))) in
    status_ ssn = ESTABLISHED →
    has_base_seq_ st = true →
    in_sequence (base_seq_ st) (next_seq_ st) (s :: rest) →
    seg_map_ ssn = list_to_map (chained k rest) →
    NoDup (chained k rest).*1 →
    let r := deliver ack win sender (other sender) [s] (ssn, p) in
    prop_values r.2 !! p_data_ =
      Some (Value_set (default [] (buf_ ssn) ++ seg_data s
                       ++ concat (seg_data <$> rest)))
    ∧ seg_map_ r.1 = ∅
    ∧ status_ r.1 = ESTABLISHED
    ∧ has_base_seq_ (stream_of sender r.1) = true
    ∧ base_seq_ (stream_of sender r.1) = base_seq_ st
    ∧ next_seq_ (stream_of sender r.1) =
        u32 (next_seq_ st
             + Z.of_nat (length (seg_data s ++ concat (seg_data <$> rest)))).
Proof.
  induction rest as [|s2 rest IH]; intros s ssn p st k Hst Hb Hin Hmap Hnd r;
    subst r; simp deliver; rewrite app_nil_r;
    destruct Hin as (Hseq & Hfin & Hin);
    destruct (decode_stream_body_in_sequence (seg_flags s) (seg_seq s) ack
                (seg_data s) win sender ssn p Hst Hfin Hb Hseq)
      as (Hc & Hm & Hbuf & Hd & Hst' & Hb' & Hbase & Hnext);
    fold st in Hc, Hm, Hbuf, Hd, Hbase, Hnext; fold k in Hc, Hm, Hbuf, Hd, Hnext;
    destruct (decode_stream_body _ _ _ _ _ _ _ _) as [[ok [ssn1 p1]] chain];
    simpl in Hc, Hm, Hbuf, Hd, Hst', Hb', Hbase, Hnext; simpl fst; simpl snd.
  - simpl in Hmap. rewrite Hmap, lookup_empty in Hc. rewrite Hmap, delete_empty in Hm.
    simpl in Hc. subst chain. simp deliver. simpl.
    rewrite !app_nil_r. repeat split; done.
  - simpl in Hmap, Hnd.
    rewrite Hmap, lookup_insert_eq in Hc, Hbuf. simpl in Hc. subst chain.
    pose proof (chained_keys_fresh k s2 rest Hnd) as Hfresh.
    rewrite Hmap, delete_insert_eq, delete_id in Hm by exact Hfresh.
    apply NoDup_cons in Hnd as [_ Hnd].
    assert (Hb1 : buf_ ssn1 = Some (default [] (buf_ ssn) ++ seg_data s))
      by (rewrite Hbuf; by destruct (buf_ ssn)).
    destruct (IH s2 ssn1 p1) as (R1 & R2 & R3 & R4 & R5 & R6).
    + exact Hst'.
    + exact Hb'.
    + rewrite Hbase, Hnext. exact Hin.
    + rewrite Hnext. exact Hm.
    + rewrite Hnext. exact Hnd.
    + rewrite Hb1 in R1. simpl in R1. rewrite <- app_assoc in R1.
      rewrite Hnext in R6. rewrite Hbase in R5.
      repeat split; try done.
      rewrite R6, fmap_cons. cbn [concat]. rewrite !length_app. unfold k, u32.
      rewrite !Nat2Z.inj_add.
      rewrite Zplus_mod_idemp_l. f_equal. lia.
Qed.

(** A call of [decode_stream] is the delivery of its own segment. *)
Lemma decode_stream_as_deliver f seq ack d win sender recver st :
  (decode_stream f seq ack d win sender recver st).2 =
    deliver ack win sender recver
      [{| seg_data := d; seg_seq := seq; seg_flags := f |}] st.
Proof. unfold decode_stream. simpl. simp deliver. by rewrite app_nil_r. Qed.

(** X9.  On an ESTABLISHED session, when the segment the sender's stream
    expects arrives and the segments parked in [seg_map_] form a run that
    starts right behind it, one [decode] call consumes the whole run: the
    published [data] is the payload of the call followed by the payloads
    of the run, nothing stays parked and [next_seq_] has moved past all
    of it. *)
Theorem reassembly_consumes_parked_run (f seq ack : Z) (d : list byte)
    (win : Z) (ssn : Session) (p : Property) (segs : list Segment) :
  let sender := if is_src (client_ ssn) p then Client else Server in
  let st := stream_of sender ssn in
  let k := u32 (next_seq_ st + Z.of_nat (length d)) in
  let r := Session_decode f seq ack d win (ssn, p) in
  status_ ssn = ESTABLISHED →
  has_base_seq_ st = true →
  Z.land f FIN = 0 →
  u32 (seq - base_seq_ st) = next_seq_ st →
  in_sequence (base_seq_ st) k segs →
  seg_map_ ssn = list_to_map (chained k segs) →
  NoDup (chained k segs).*1 →
  prop_values r.2 !! p_data_
    = Some (Value_set (d ++ concat (seg_data <$> segs)))
  ∧ seg_map_ r.1 = ∅
  ∧ status_ r.1 = ESTABLISHED
  ∧ next_seq_ (stream_of sender r.1)
    = u32 (next_seq_ st + Z.of_nat (length (d ++ concat (seg_data <$> segs)))).
Proof.
  intros sender st k r Hst Hb Hfin Hseq Hin Hmap Hnd.
  pose proof (deliver_run ack win sender segs
                {| seg_data := d; seg_seq := seq; seg_flags := f |}
                (with_buf None ssn) p) as Hrun.
  cbv zeta in Hrun.
  assert (Hs : stream_of sender (with_buf None ssn) = st)
    by (subst st; by destruct sender).
  rewrite Hs in Hrun. simpl seg_data in Hrun. simpl buf_ in Hrun.
  change (seg_map_ (with_buf None ssn)) with (seg_map_ ssn) in Hrun.
  change (status_ (with_buf None ssn)) with (status_ ssn) in Hrun.
  specialize (Hrun Hst Hb (conj Hseq (conj Hfin Hin)) Hmap Hnd).
  rewrite <- decode_stream_as_deliver in Hrun.
  assert (Hr : r.1 = (decode_stream f seq ack d win sender (other sender)
                        (with_buf None ssn, p)).2.1
               ∧ prop_values r.2 !! p_data_ =
                 prop_values (decode_stream f seq ack d win sender (other sender)
                        (with_buf None ssn, p)).2.2 !! p_data_).
  { subst r. unfold Session_decode. rewrite clear_buf_eq.
    change (client_ (with_buf None ssn)) with (client_ ssn).
    subst sender. destruct (is_src (client_ ssn) p); cbv zeta; simpl other;
      destruct (decode_stream _ _ _ _ _ _ _ _) as [ok [ssn' p']]; simpl;
      (split; [done|]); rewrite lookup_insert_ne by done;
      by rewrite lookup_insert_ne by done. }
  destruct Hr as [Hr1 Hr2]. rewrite Hr1, Hr2.
  destruct Hrun as (R1 & R2 & R3 & _ & _ & R6). simpl in R1.
  repeat split; done.
Qed.

(** "hello" arrives after "world" and "!". *)
Lemma reassembly_hello_world_bang :
  let ssn := world_and_bang_parked in
  let p := Scenario.from_A 30 in
  let segs := [{| seg_data := Scenario.world; seg_seq := 6; seg_flags := ACK |};
               {| seg_data := bang; seg_seq := 11; seg_flags := ACK |}] in
  let sender := if is_src (client_ ssn) p then Client else Server in
  let st := stream_of sender ssn in
  let r := Session_decode ACK 1 2001 Scenario.hello 65535 (ssn, p) in
  prop_values r.2 !! p_data_
    = Some (Value_set (Scenario.hello ++ concat (seg_data <$> segs)))
  ∧ seg_map_ r.1 = ∅
  ∧ status_ r.1 = ESTABLISHED
  ∧ next_seq_ (stream_of sender r.1)
    = u32 (next_seq_ st
           + Z.of_nat (length (Scenario.hello ++ concat (seg_data <$> segs)))).
Proof.
  intros ssn p segs.
  apply (reassembly_consumes_parked_run ACK 1 2001 Scenario.hello 65535
           world_and_bang_parked (Scenario.from_A 30) segs).
  - vm_compute; reflexivity.
  - vm_compute; reflexivity.
  - vm_compute; reflexivity.
  - vm_compute; reflexivity.
  - vm_compute. repeat split.
  - vm_compute; reflexivity.
  - apply (bool_decide_unpack _). vm_compute. reflexivity.
Defined.

Example hello_world_bang_is_published :
  prop_values
    (Session_decode ACK 1 2001 Scenario.hello 65535
       (world_and_bang_parked, Scenario.from_A 30)).2 !! p_data_
  = Some (Value_set (String.list_byte_of_string "helloworld!")).
Proof. vm_compute. reflexivity. Qed.

(** ** The handshake, from the first SYN *)

(** With nothing parked, a segment the sender's stream accepts is the
    whole of the call. *)
Lemma Session_decode_nothing_parked f seq ack d win ssn p :
  let sender := if is_src (client_ ssn) p then Client else Server in
  let sent := send f seq ack (Z.of_nat (length d)) (stream_of sender ssn) in
  let ssn1 := with_stream sender sent.2 (with_buf None ssn) in
  let ssn2 := with_stream (other sender)
                (recv ack win (stream_of (other sender) ssn1)) ssn1 in
  let ts := trans_state f sender seq (Z.of_nat (length d)) (prop_tv p) ssn2 in
  let p1 := if bool_decide (ts.1 = ESTABLISHED)
            then set_value p_rtt_3wh_ (rtt_3wh_value (ts_rtt_ ts.2))
                   (push_event ev_estb_ p)
            else p in
  let p2 := if bool_decide (ts.1 = CLOSED) then push_event ev_close_ p1
            else p1 in
  seg_map_ ssn = ∅ →
  sent.1 = true →
  Session_decode f seq ack d win (ssn, p) =
    (ts.2,
     set_value p_tx_client_
       (Value_cpy (le_bytes 4 (tx_size (server_ ts.2))) (Some LITTLE))
       (set_value p_tx_server_
          (Value_cpy (le_bytes 4 (tx_size (client_ ts.2))) (Some LITTLE))
          (set_value p_data_ (Value_set d) p2))).
Proof.
  intros sender sent ssn1 ssn2 ts p1 p2 Hmap Hok.
  unfold Session_decode. rewrite clear_buf_eq.
  change (client_ (with_buf None ssn)) with (client_ ssn).
  subst p2 p1 ts ssn2 ssn1 sent sender.
  destruct (is_src (client_ ssn) p); cbv zeta;
    unfold decode_stream, decode_stream_body; simpl stream_of in *;
    (destruct (send _ _ _ _ _) as [ok s']; simpl in Hok; subst ok; simpl;
     match goal with
     | |- context [trans_state ?a ?b ?c ?e ?g ?h] =>
         pose proof (trans_state_seg_map a b c e g h) as Hm;
         pose proof (trans_state_buf a b c e g h) as Hbf;
         destruct (trans_state a b c e g h) as [ns ssn3]
     end;
     simpl in Hm, Hbf; rewrite Hbf; simpl; rewrite Hm, Hmap, map_size_empty;
     simpl; simp deliver; reflexivity).
Qed.

(** X10.  The three-way handshake as a whole.  A session built from the
    first packet, which is a bare SYN, sees a bare SYN|ACK from the other
    endpoint and then a bare ACK from the first, whose sequence number is
    the one the SYN announced.  The status passes through SYN_SENT and
    SYNACK_SENT to ESTABLISHED; only the third packet pushes an event,
    [established]; [ts_init_] is the time of the first packet, [ts_estb_]
    that of the third, [ts_rtt_] their difference (seconds and
    microseconds subtracted, a second borrowed when needed) and
    [rtt_3wh] the microseconds between the two as a 32-bit integer, least
    significant byte first; either stream has the sequence number of its SYN as
    base and expects what follows the payloads seen; nothing is parked.
    The acknowledgement numbers are not looked at. *)
Theorem three_way_handshake_establishes (p1 p2 p3 : Property)
    (ssn_id seq1 seq2 seq3 ack1 ack2 ack3 win1 win2 win3 : Z)
    (d1 d2 d3 : list byte) :
  let ssn0 := Session_new p1 ssn_id in
  let r1 := Session_decode SYN seq1 ack1 d1 win1 (ssn0, p1) in
  let r2 := Session_decode (Z.lor SYN ACK) seq2 ack2 d2 win2 (r1.1, p2) in
  let r3 := Session_decode ACK seq3 ack3 d3 win3 (r2.1, p3) in
  let t1 := prop_tv p1 in
  let t3 := prop_tv p3 in
  let rtt :=
    if tv_usec t3 - tv_usec t1 <? 0
    then {| tv_sec := tv_sec t3 - tv_sec t1 - 1;
            tv_usec := tv_usec t3 - tv_usec t1 + 1000000 |}
    else {| tv_sec := tv_sec t3 - tv_sec t1;
            tv_usec := tv_usec t3 - tv_usec t1 |} in
  let usecs :=
    (tv_sec t3 * 1000000 + tv_usec t3) - (tv_sec t1 * 1000000 + tv_usec t1) in
  is_src (client_ ssn0) p2 = false →
  is_src (client_ ssn0) p3 = true →
  u32 (seq3 - seq1) = u32 (1 + Z.of_nat (length d1)) →
  status_log_ r3.1 = [NONE; SYN_SENT; SYNACK_SENT; ESTABLISHED]
  ∧ status_ r3.1 = ESTABLISHED
  ∧ prop_events r1.2 = prop_events p1
  ∧ prop_events r2.2 = prop_events p2
  ∧ prop_events r3.2 = prop_events p3 ++ [ev_estb_]
  ∧ ts_init_ r3.1 = t1
  ∧ ts_estb_ r3.1 = t3
  ∧ ts_rtt_ r3.1 = rtt
  ∧ tv_sec (ts_rtt_ r3.1) * 1000000 + tv_usec (ts_rtt_ r3.1) = usecs
  ∧ prop_values r3.2 !! p_rtt_3wh_
    = Some {| v_data := le_bytes 4 (u32 usecs); v_endian := Some LITTLE |}
  ∧ base_seq_ (client_ r3.1) = seq1
  ∧ next_seq_ (client_ r3.1)
    = u32 (1 + Z.of_nat (length d1) + Z.of_nat (length d3))
  ∧ base_seq_ (server_ r3.1) = seq2
  ∧ next_seq_ (server_ r3.1) = u32 (1 + Z.of_nat (length d2))
  ∧ seg_map_ r3.1 = ∅.
Proof.
  intros ssn0 r1 r2 r3 t1 t3 rtt usecs Hsrc2 Hsrc3 Hseq.
  assert (Hrtt : rtt = timersub (prop_tv p3) (prop_tv p1)) by reflexivity.
  assert (Hus : tv_sec rtt * 1000000 + tv_usec rtt = usecs)
    by (rewrite Hrtt; apply timersub_microseconds).
  clearbody rtt usecs. subst t1 t3.
  assert (Hsrc1 : is_src (client_ ssn0) p1 = true).
  { apply Stream_match_spec. done. }
  (* the SYN *)
  pose proof (Session_decode_nothing_parked SYN seq1 ack1 d1 win1 ssn0 p1) as E1.
  cbv zeta in E1. rewrite Hsrc1 in E1. simpl in E1.
  specialize (E1 eq_refl eq_refl). fold ssn0 in E1. fold r1 in E1.
  set (c1 := {| has_base_seq_ := true; base_seq_ := seq1;
                next_seq_ := u32 (1 + Z.of_nat (length d1));
                ack_ := 0; win_size_ := 0; addr_ := prop_src_addr p1;
                port_ := prop_src_port p1; tx_size_ := 0 |}).
  set (s1 := {| has_base_seq_ := false; base_seq_ := 0; next_seq_ := 0;
                ack_ := ack1; win_size_ := win1; addr_ := prop_dst_addr p1;
                port_ := prop_dst_port p1; tx_size_ := 0 |}).
  assert (S1 : r1.1 =
    {| client_ := c1; server_ := s1; closing_ := None; id_ := ssn_id;
       status_ := SYN_SENT; ts_init_ := prop_tv p1; ts_estb_ := Timeval 0 0;
       ts_rtt_ := Timeval 0 0; buf_ := None; seg_map_ := ∅;
       status_log_ := [NONE; SYN_SENT] |}) by (rewrite E1; reflexivity).
  assert (P1 : prop_events r1.2 = prop_events p1) by (rewrite E1; reflexivity).
  (* the SYN|ACK *)
  pose proof (Session_decode_nothing_parked (Z.lor SYN ACK) seq2 ack2 d2 win2
                r1.1 p2) as E2.
  cbv zeta in E2. rewrite S1 in E2.
  change (is_src (client_ _) p2) with (is_src (client_ ssn0) p2) in E2.
  rewrite Hsrc2 in E2. simpl in E2.
  specialize (E2 eq_refl eq_refl).
  set (s2 := {| has_base_seq_ := true; base_seq_ := seq2;
                next_seq_ := u32 (1 + Z.of_nat (length d2));
                ack_ := ack1; win_size_ := win1; addr_ := prop_dst_addr p1;
                port_ := prop_dst_port p1; tx_size_ := 0 |}).
  set (c2 := {| has_base_seq_ := true; base_seq_ := seq1;
                next_seq_ := u32 (1 + Z.of_nat (length d1));
                ack_ := ack2; win_size_ := win2; addr_ := prop_src_addr p1;
                port_ := prop_src_port p1; tx_size_ := 0 |}).
  assert (S2 : r2.1 =
    {| client_ := c2; server_ := s2; closing_ := None; id_ := ssn_id;
       status_ := SYNACK_SENT; ts_init_ := prop_tv p1; ts_estb_ := Timeval 0 0;
       ts_rtt_ := Timeval 0 0; buf_ := None; seg_map_ := ∅;
       status_log_ := [NONE; SYN_SENT; SYNACK_SENT] |})
    by (unfold r2; rewrite S1, E2; reflexivity).
  assert (P2 : prop_events r2.2 = prop_events p2)
    by (unfold r2; rewrite S1, E2; reflexivity).
  (* the ACK *)
  pose proof (Session_decode_nothing_parked ACK seq3 ack3 d3 win3 r2.1 p3) as E3.
  cbv zeta in E3. rewrite S2 in E3.
  change (is_src (client_ _) p3) with (is_src (client_ ssn0) p3) in E3.
  rewrite Hsrc3 in E3. simpl stream_of in E3.
  assert (Hsend : send ACK seq3 ack3 (Z.of_nat (length d3)) c2 =
            (true,
             {| has_base_seq_ := true; base_seq_ := seq1;
                next_seq_ := u32 (u32 (1 + Z.of_nat (length d1))
                                  + Z.of_nat (length d3));
                ack_ := ack2; win_size_ := win2; addr_ := prop_src_addr p1;
                port_ := prop_src_port p1; tx_size_ := 0 |})).
  { rewrite send_cases. simpl. rewrite Hseq, Z.eqb_refl. reflexivity. }
  rewrite Hsend in E3. simpl in E3.
  specialize (E3 eq_refl eq_refl).
  unfold r3. rewrite S2, E3. cbn -[timersub le_bytes]. rewrite <- Hrtt, Hus.
  repeat split; try done.
  - rewrite lookup_insert_ne by done. rewrite lookup_insert_ne by done.
    rewrite lookup_insert_ne by done. rewrite lookup_insert_eq.
    unfold rtt_3wh_value, Value_cpy. by rewrite Hus.
  - unfold u32. rewrite Zplus_mod_idemp_l. done.
Qed.

(** The handshake of scenario S2 on a slow path: SYN at 10.700000 s,
    SYN|ACK at 11.400000 s, ACK at 12.200000 s. *)
Lemma three_way_handshake_slow_path :
  let p1 := stamped 10 700000 (Scenario.from_A 0) in
  let p2 := stamped 11 400000 (Scenario.from_B 0) in
  let p3 := stamped 12 200000 (Scenario.from_A 0) in
  let ssn0 := Session_new p1 1 in
  let r1 := Session_decode SYN 1000 0 [] 65535 (ssn0, p1) in
  let r2 := Session_decode (Z.lor SYN ACK) 2000 1001 [] 65535 (r1.1, p2) in
  let r3 := Session_decode ACK 1001 2001 [] 65535 (r2.1, p3) in
  let t1 := prop_tv p1 in
  let t3 := prop_tv p3 in
  let rtt :=
    if tv_usec t3 - tv_usec t1 <? 0
    then {| tv_sec := tv_sec t3 - tv_sec t1 - 1;
            tv_usec := tv_usec t3 - tv_usec t1 + 1000000 |}
    else {| tv_sec := tv_sec t3 - tv_sec t1;
            tv_usec := tv_usec t3 - tv_usec t1 |} in
  let usecs :=
    (tv_sec t3 * 1000000 + tv_usec t3) - (tv_sec t1 * 1000000 + tv_usec t1) in
  status_log_ r3.1 = [NONE; SYN_SENT; SYNACK_SENT; ESTABLISHED]
  ∧ status_ r3.1 = ESTABLISHED
  ∧ prop_events r1.2 = prop_events p1
  ∧ prop_events r2.2 = prop_events p2
  ∧ prop_events r3.2 = prop_events p3 ++ [ev_estb_]
  ∧ ts_init_ r3.1 = t1
  ∧ ts_estb_ r3.1 = t3
  ∧ ts_rtt_ r3.1 = rtt
  ∧ tv_sec (ts_rtt_ r3.1) * 1000000 + tv_usec (ts_rtt_ r3.1) = usecs
  ∧ prop_values r3.2 !! p_rtt_3wh_
    = Some {| v_data := le_bytes 4 (u32 usecs); v_endian := Some LITTLE |}
  ∧ base_seq_ (client_ r3.1) = 1000
  ∧ next_seq_ (client_ r3.1)
    = u32 (1 + Z.of_nat (length (@nil byte)) + Z.of_nat (length (@nil byte)))
  ∧ base_seq_ (server_ r3.1) = 2000
  ∧ next_seq_ (server_ r3.1) = u32 (1 + Z.of_nat (length (@nil byte)))
  ∧ seg_map_ r3.1 = ∅.
Proof.
  intros p1 p2 p3.
  apply (three_way_handshake_establishes p1 p2 p3 1 1000 2000 1001 0 1001 2001
           65535 65535 65535 [] [] []); vm_compute; reflexivity.
Defined.

(** The same handshake in numbers. *)
Example three_way_handshake_slow_path_values :
  let p1 := stamped 10 700000 (Scenario.from_A 0) in
  let p2 := stamped 11 400000 (Scenario.from_B 0) in
  let p3 := stamped 12 200000 (Scenario.from_A 0) in
  let r1 := Session_decode SYN 1000 0 [] 65535 (Session_new p1 1, p1) in
  let r2 := Session_decode (Z.lor SYN ACK) 2000 1001 [] 65535 (r1.1, p2) in
  let r3 := Session_decode ACK 1001 2001 [] 65535 (r2.1, p3) in
  ts_rtt_ r3.1 = Timeval 1 500000
  ∧ prop_values r3.2 !! p_rtt_3wh_
    = Some {| v_data := [Byte.x60; Byte.xe3; Byte.x16; Byte.x00];
              v_endian := Some LITTLE |}.
Proof. vm_compute. done. Qed.

(** ** Flows picked up in mid-stream *)

Lemma rank_NONE st : (rank st ≤ 0)%nat → st = NONE.
Proof. destruct st; simpl; first [done | lia]. Qed.

Lemma decode_stream_body_unsynced f s ack d win sender recver st :
  base_tracks_status st.1 → unsynced st.1 →
  unsynced (decode_stream_body f s ack d win sender recver st).1.2.1.
Proof.
  destruct st as [ssn p]. intros (Hc & Hs & _) Hun Hst'. simpl in *.
  destruct (decode_stream_body_status_step f s ack d win sender recver (ssn, p))
    as (_ & _ & Hrank).
  simpl in Hrank. rewrite Hst' in Hrank. apply rank_NONE in Hrank.
  specialize (Hun Hrank). rewrite Hrank in Hc, Hs. simpl in Hc, Hs.
  clear Hst'. unfold decode_stream_body.
  assert (Hsend : send f s ack (Z.of_nat (length d)) (stream_of sender ssn)
                  = (true, stream_of sender ssn)).
  { rewrite send_cases. by destruct sender; simpl; rewrite ?Hc, ?Hs. }
  rewrite Hsend. simpl.
  match goal with
  | |- context [trans_state ?a ?b ?c ?e ?g ?h] =>
      pose proof (trans_state_seg_map a b c e g h) as Hm;
      pose proof (trans_state_buf a b c e g h) as Hbf;
      destruct (trans_state a b c e g h) as [ns ssn3]
  end.
  simpl in Hm, Hbf.
  assert (Hm' : seg_map_ ssn3 = ∅).
  { rewrite Hm. by destruct sender, recver. }
  destruct (buf_ ssn3); simpl; rewrite Hm', map_size_empty; simpl; done.
Qed.

Lemma Session_decode_unsynced flags seq ack data win st :
  base_tracks_status st.1 → unsynced st.1 →
  unsynced (Session_decode flags seq ack data win st).1.
Proof.
  destruct st as [ssn p]. intros Hb Hun. unfold Session_decode.
  rewrite clear_buf_eq.
  set (K := fun st' : Session * Property =>
              base_tracks_status st'.1 ∧ unsynced st'.1).
  assert (Hstep : ∀ sender recver f s d st', K st' →
            K (decode_stream_body f s ack d win sender recver st').1.2).
  { intros sender recver f s d st' [H1 H2]. split.
    - by apply decode_stream_body_base.
    - by apply decode_stream_body_unsynced. }
  assert (H0 : K (with_buf None ssn, p)) by (split; [exact Hb|exact Hun]).
  destruct (is_src _ p);
    match goal with
    | |- context [decode_stream ?a ?b ?c ?d ?e ?f ?g ?h] =>
        pose proof (decode_stream_preserves K a b c d e f g (Hstep f g) h H0) as H1;
        destruct (decode_stream a b c d e f g h) as [ok [ssn' p']]
    end; apply H1.
Qed.

Lemma Session_run_unsynced calls ssn :
  base_tracks_status ssn → unsynced ssn → unsynced (Session_run calls ssn).
Proof.
  revert ssn. induction calls as [|c calls IH]; intros ssn Hb Hun; simpl.
  - exact Hun.
  - apply IH.
    + by apply (Session_decode_base _ _ _ _ _ (ssn, dc_prop c)).
    + by apply (Session_decode_unsynced _ _ _ _ _ (ssn, dc_prop c)).
Qed.

(** X11.  As long as the status of a session is NONE, which is where a
    flow picked up in mid-stream stays, every segment is accepted as it
    comes: [data] is published as the payload of the packet alone,
    nothing is ever parked, no event is pushed, and the status moves, to
    SYN_SENT, only on a bare SYN from the client's endpoint. *)
Theorem unsynchronised_session_passes_segments_through (p0 : Property)
    (ssn_id : Z) (calls : list DecodeCall) (flags seq ack : Z)
    (data : list byte) (win : Z) (p : Property) :
  let ssn := Session_run calls (Session_new p0 ssn_id) in
  let r := Session_decode flags seq ack data win (ssn, p) in
  status_ ssn = NONE →
  seg_map_ ssn = ∅
  ∧ prop_values r.2 !! p_data_ = Some (Value_set data)
  ∧ seg_map_ r.1 = ∅
  ∧ prop_events r.2 = prop_events p
  ∧ status_ r.1 =
      (if (flags =? SYN) && is_src (client_ ssn) p then SYN_SENT else NONE).
Proof.
  intros ssn r Hst.
  assert (H0 : base_tracks_status (Session_new p0 ssn_id)).
  { unfold base_tracks_status. simpl. repeat split; done. }
  destruct (Session_run_base calls _ H0) as [Hb _]. fold ssn in Hb.
  assert (Hun : unsynced ssn).
  { apply Session_run_unsynced; [exact H0|]. intros _. reflexivity. }
  specialize (Hun Hst).
  destruct Hb as (Hc & Hs & _). rewrite Hst in Hc, Hs. simpl in Hc, Hs.
  pose proof (Session_decode_nothing_parked flags seq ack data win ssn p) as E.
  cbv zeta in E.
  assert (Hsend : ∀ sender,
            send flags seq ack (Z.of_nat (length data)) (stream_of sender ssn)
            = (true, stream_of sender ssn)).
  { intros sender. rewrite send_cases.
    by destruct sender; simpl; rewrite ?Hc, ?Hs. }
  rewrite Hsend in E. specialize (E Hun eq_refl). fold r in E.
  split; [exact Hun|]. rewrite E. clear E r.
  unfold trans_state.
  destruct (is_src (client_ ssn) p); simpl; rewrite Hst;
    destruct (flags =? SYN); simpl; rewrite ?Hun; repeat split; try done;
    rewrite lookup_insert_ne by done; rewrite lookup_insert_ne by done;
    apply lookup_insert_eq.
Qed.

(** A flow first seen at an ACK with data: the next segment, out of
    sequence for any reader, is published as it is. *)
Lemma mid_stream_segment_passes_through :
  let ssn := Session_run
               [Scenario.call ACK 5000 7000 Scenario.hello (Scenario.from_A 0)]
               (Session_new (Scenario.from_A 0) 1) in
  let r := Session_decode ACK 9000 7000 Scenario.world 65535
             (ssn, Scenario.from_A 5) in
  seg_map_ ssn = ∅
  ∧ prop_values r.2 !! p_data_ = Some (Value_set Scenario.world)
  ∧ seg_map_ r.1 = ∅
  ∧ prop_events r.2 = prop_events (Scenario.from_A 5)
  ∧ status_ r.1 =
      (if (ACK =? SYN) && is_src (client_ ssn) (Scenario.from_A 5)
       then SYN_SENT else NONE).
Proof.
  apply (unsynchronised_session_passes_segments_through (Scenario.from_A 0) 1
           [Scenario.call ACK 5000 7000 Scenario.hello (Scenario.from_A 0)]
           ACK 9000 7000 Scenario.world 65535 (Scenario.from_A 5)).
  vm_compute. reflexivity.
Defined.

(** ** Closing *)

Lemma trans_state_closing flags sender seq len tv ssn :
  closing_known ssn → closing_known (trans_state flags sender seq len tv ssn).2.
Proof.
  unfold closing_known, trans_state.
  destruct (status_ ssn) eqn:Hs; simpl; case_ifs; simpl; rewrite ?Hs;
    intros Hk [?|?]; try done; apply Hk; auto.
Qed.

Lemma trans_state_waits flags sender seq len tv ssn :
  waits_for_peer sender ssn →
  trans_state flags sender seq len tv ssn = (NONE, ssn).
Proof.
  intros [Hs Hc]. unfold trans_state. rewrite Hs, Hc.
  rewrite bool_decide_eq_true_2 by done. simpl. by rewrite andb_false_r.
Qed.

Lemma decode_stream_body_closing f s ack d win sender recver st :
  closing_known st.1 →
  closing_known (decode_stream_body f s ack d win sender recver st).1.2.1.
Proof.
  destruct st as [ssn p]. intros Hk.
  pose proof (decode_stream_body_control f s ack d win sender recver ssn p)
    as [_ Hc]. cbv zeta in Hc.
  destruct (send _ _ _ _ _) as [ok s']. simpl in Hc. destruct ok.
  - pose proof (trans_state_closing f sender s (Z.of_nat (length d)) (prop_tv p)
                  (after_send_recv ack win sender recver s' ssn)) as Ht.
    destruct Hc as (_ & _ & Hst & Hcl & _).
    unfold closing_known in *. rewrite Hst, Hcl. apply Ht.
    by destruct sender, recver.
  - destruct Hc as (_ & _ & Hst & Hcl & _).
    unfold closing_known in *. by rewrite Hst, Hcl.
Qed.

Lemma decode_stream_body_waits f s ack d win sender recver st :
  waits_for_peer sender st.1 →
  waits_for_peer sender (decode_stream_body f s ack d win sender recver st).1.2.1
  ∧ prop_events (decode_stream_body f s ack d win sender recver st).1.2.2
    = prop_events st.2.
Proof.
  destruct st as [ssn p]. intros Hw.
  pose proof (decode_stream_body_control f s ack d win sender recver ssn p)
    as [_ Hc]. cbv zeta in Hc.
  destruct (decode_stream_body_announces f s ack d win sender recver (ssn, p))
    as (new & Hl & He).
  assert (Hsame :
    status_ (decode_stream_body f s ack d win sender recver (ssn, p)).1.2.1
      = status_ ssn
    ∧ closing_ (decode_stream_body f s ack d win sender recver (ssn, p)).1.2.1
      = closing_ ssn
    ∧ status_log_ (decode_stream_body f s ack d win sender recver (ssn, p)).1.2.1
      = status_log_ ssn).
  { destruct (send _ _ _ _ _) as [ok s']. simpl in Hc. destruct ok.
    - rewrite trans_state_waits in Hc.
      + unfold same_control, after_send_recv in Hc.
        destruct Hc as (_ & _ & H1 & H2 & _ & _ & _ & H3).
        rewrite H1, H2, H3. by destruct sender, recver.
      + destruct Hw. split; by destruct sender, recver.
    - destruct Hc as (_ & _ & H1 & H2 & _ & _ & _ & H3). done. }
  destruct Hsame as (Hst & Hcl & Hlog).
  split.
  - destruct Hw as [Hw1 Hw2]. simpl in Hw1, Hw2.
    split; [by rewrite Hst|by rewrite Hcl].
  - simpl in Hl, He. rewrite Hlog in Hl.
    rewrite <- (app_nil_r (status_log_ ssn)) in Hl at 1.
    apply app_inv_head in Hl. subst new. simpl in He.
    by rewrite app_nil_r in He.
Qed.

Lemma Session_decode_closing flags seq ack data win st :
  closing_known st.1 →
  closing_known (Session_decode flags seq ack data win st).1.
Proof.
  destruct st as [ssn p]. intros Hk. unfold Session_decode.
  rewrite clear_buf_eq.
  destruct (is_src _ p);
    match goal with
    | |- context [decode_stream ?a ?b ?c ?d ?e ?f ?g ?h] =>
        pose proof (decode_stream_preserves
                      (fun st' => closing_known st'.1) a b c d e f g
                      (fun f0 s0 d0 st0 =>
                         decode_stream_body_closing f0 s0 c d0 e f g st0)
                      h Hk) as H1;
        destruct (decode_stream a b c d e f g h) as [ok [ssn' p']]
    end; exact H1.
Qed.

Lemma Session_run_closing calls ssn :
  closing_known ssn → closing_known (Session_run calls ssn).
Proof.
  revert ssn. induction calls as [|c calls IH]; intros ssn Hk; simpl.
  - exact Hk.
  - apply IH. by apply (Session_decode_closing _ _ _ _ _ (ssn, dc_prop c)).
Qed.

(** X12.  A session in CLOSING knows which stream sent the first FIN, and
    nothing that stream sends afterwards, a second FIN included, closes
    the session or pushes an event: [closed] takes a FIN from the other
    side. *)
Theorem close_takes_a_fin_of_the_other_side (p0 : Property) (ssn_id : Z)
    (calls : list DecodeCall) (flags seq ack : Z) (data : list byte)
    (win : Z) (p : Property) :
  let ssn := Session_run calls (Session_new p0 ssn_id) in
  let sender := if is_src (client_ ssn) p then Client else Server in
  let r := Session_decode flags seq ack data win (ssn, p) in
  status_ ssn = CLOSING →
  is_Some (closing_ ssn)
  ∧ (closing_ ssn = Some sender →
     status_ r.1 = CLOSING ∧ closing_ r.1 = Some sender
     ∧ prop_events r.2 = prop_events p).
Proof.
  intros ssn sender r Hst. split.
  - apply (Session_run_closing calls (Session_new p0 ssn_id)); [|by left].
    intros [?|?]; done.
  - intros Hcl. subst r. unfold Session_decode. rewrite clear_buf_eq.
    set (K := fun st' : Session * Property =>
                waits_for_peer sender st'.1 ∧ prop_events st'.2 = prop_events p).
    assert (Hstep : ∀ recver f s d st', K st' →
              K (decode_stream_body f s ack d win sender recver st').1.2).
    { intros recver f s d st' [H1 H2].
      destruct (decode_stream_body_waits f s ack d win sender recver st' H1)
        as [H3 H4].
      split; [exact H3|congruence]. }
    assert (H0 : K (with_buf None ssn, p)) by done.
    change (client_ (with_buf None ssn)) with (client_ ssn).
    subst sender.
    destruct (is_src (client_ ssn) p);
      match goal with
      | |- context [decode_stream ?a ?b ?c ?d ?e ?f ?g ?h] =>
          pose proof (decode_stream_preserves K a b c d e f g (Hstep g) h H0)
            as [[H1 H2] H3];
          destruct (decode_stream a b c d e f g h) as [ok [ssn' p']]
      end; simpl in *; done.
Qed.

(** The client sends its FIN a second time. *)
Lemma second_fin_of_the_client_does_not_close :
  let p := Scenario.from_A 30 in
  let ssn := Session_run fin_sent_by_client (Session_new (Scenario.from_A 0) 1) in
  let sender := if is_src (client_ ssn) p then Client else Server in
  let r := Session_decode (Z.lor FIN ACK) 2 2001 [] 65535 (ssn, p) in
  is_Some (closing_ ssn)
  ∧ status_ r.1 = CLOSING ∧ closing_ r.1 = Some sender
  ∧ prop_events r.2 = prop_events p.
Proof.
  intros p ssn sender r.
  destruct (close_takes_a_fin_of_the_other_side (Scenario.from_A 0) 1
              fin_sent_by_client (Z.lor FIN ACK) 2 2001 [] 65535
              (Scenario.from_A 30)) as [H1 H2].
  - vm_compute; reflexivity.
  - split; [exact H1|]. apply H2. vm_compute; reflexivity.
Defined.

Example fin_of_the_server_closes :
  let ssn := Session_run fin_sent_by_client (Session_new (Scenario.from_A 0) 1) in
  let r := Session_decode (Z.lor FIN ACK) 2001 3 [] 65535
             (ssn, Scenario.from_B 30) in
  status_ ssn = CLOSING ∧ closing_ ssn = Some Client
  ∧ status_ r.1 = CLOSED ∧ prop_events r.2 = [ev_close_].
Proof. vm_compute. done. Qed.

(** ** [flag2str] *)

Lemma elem_of_all_u8 f : 0 ≤ f < 256 → f ∈ all_u8.
Proof.
  intros Hf. unfold all_u8. apply list_elem_of_fmap.
  exists (Z.to_nat f). split; [lia|]. apply elem_of_seq. lia.
Qed.

Lemma flag2str_checked :
  forallb (fun f => forallb (flag2str_agrees_with_mask f) all_u8) all_u8 = true.
Proof. vm_compute. reflexivity. Qed.

(** X13.  [flag2str] shows exactly the four flags that [TCP::decode]
    hands to the session: two flag bytes are printed alike if and only if
    they are the same after the mask. *)
Theorem flag2str_shows_the_masked_flags (f g : Z) :
  0 ≤ f < 256 → 0 ≤ g < 256 →
  (flag2str f = flag2str g ↔ mask_flags f = mask_flags g).
Proof.
  intros Hf Hg.
  pose proof flag2str_checked as Hc.
  rewrite forallb_forall in Hc.
  specialize (Hc f). rewrite <- list_elem_of_In in Hc.
  specialize (Hc (elem_of_all_u8 f Hf)).
  rewrite forallb_forall in Hc.
  specialize (Hc g). rewrite <- list_elem_of_In in Hc.
  specialize (Hc (elem_of_all_u8 g Hg)).
  unfold flag2str_agrees_with_mask in Hc.
  apply bool_decide_eq_true_1 in Hc.
  split; intros Heq.
  - rewrite bool_decide_eq_true_2 in Hc by exact Heq.
    symmetry in Hc. by apply bool_decide_eq_true_1 in Hc.
  - rewrite (bool_decide_eq_true_2 (mask_flags f = mask_flags g)) in Hc
      by exact Heq.
    by apply bool_decide_eq_true_1 in Hc.
Qed.

(** PUSH is not among the flags shown. *)
Lemma flag2str_ignores_push :
  flag2str (Z.lor SYN ACK) = flag2str (Z.lor (Z.lor SYN ACK) PUSH) ↔
  mask_flags (Z.lor SYN ACK) = mask_flags (Z.lor (Z.lor SYN ACK) PUSH).
Proof.
  apply (flag2str_shows_the_masked_flags (Z.lor SYN ACK)
           (Z.lor (Z.lor SYN ACK) PUSH)); vm_compute;
    (split; [discriminate | reflexivity]).
Defined.

Example flag2str_synack : flag2str (Z.lor SYN ACK) = "*S*A"%string.
Proof. reflexivity. Qed.

(** ** Flow keys tell flows apart *)

Lemma byte_val_of_Z z : byte_val (byte_of_Z z) = u8 z.
Proof.
  unfold byte_val, byte_of_Z.
  assert (Hr : 0 ≤ u8 z < 256) by (unfold u8; apply Z.mod_pos_bound; lia).
  destruct (Byte.of_N (Z.to_N (u8 z))) as [b|] eqn:E.
  - apply Byte.to_of_N in E. rewrite E. lia.
  - apply Byte.of_N_None_iff in E. lia.
Qed.

Lemma le_bytes_2_inj x y :
  0 ≤ x < 2 ^ 16 → 0 ≤ y < 2 ^ 16 → le_bytes 2 x = le_bytes 2 y → x = y.
Proof.
  intros Hx Hy. simpl. intros [= H0 H1].
  apply (f_equal byte_val) in H0, H1. rewrite !byte_val_of_Z in H0, H1.
  unfold u8 in H0, H1. rewrite !Z.shiftr_div_pow2 in H1 by lia.
  change (2 ^ 8) with 256 in *. change (2 ^ 16) with 65536 in *.
  rewrite (Z.mod_small (x / 256)) in H1
    by (split; [apply Z.div_pos; lia | apply Z.div_lt_upper_bound; lia]).
  rewrite (Z.mod_small (y / 256)) in H1
    by (split; [apply Z.div_pos; lia | apply Z.div_lt_upper_bound; lia]).
  rewrite (Z.div_mod x 256), (Z.div_mod y 256) by lia. lia.
Qed.

(** The bytes of a key: the two endpoints one after the other, each as
    address and two port bytes. *)
Lemma make_key_data mixer p key kp :
  make_key mixer p key = Some kp →
  length (prop_src_addr p) = length (prop_dst_addr p)
  ∧ hk_hash kp = Some (mixer (hk_data kp))
  ∧ (hk_data kp = prop_src_addr p ++ le_bytes 2 (prop_src_port p)
                  ++ prop_dst_addr p ++ le_bytes 2 (prop_dst_port p)
     ∨ hk_data kp = prop_dst_addr p ++ le_bytes 2 (prop_dst_port p)
                    ++ prop_src_addr p ++ le_bytes 2 (prop_src_port p)).
Proof.
  unfold make_key.
  destruct (length (prop_src_addr p) =? length (prop_dst_addr p))%nat eqn:El;
    [|discriminate].
  apply Nat.eqb_eq in El. simpl.
  destruct (_ || _); intros [= <-]; simpl;
    rewrite <- !app_assoc; (split; [done|]); (split; [done|]); auto.
Qed.

Lemma endpoints_inj (a b a' b' : list byte) (x y x' y' : Z) :
  length a = length b → length a' = length b' →
  0 ≤ x < 2 ^ 16 → 0 ≤ y < 2 ^ 16 → 0 ≤ x' < 2 ^ 16 → 0 ≤ y' < 2 ^ 16 →
  a ++ le_bytes 2 x ++ b ++ le_bytes 2 y
    = a' ++ le_bytes 2 x' ++ b' ++ le_bytes 2 y' →
  a = a' ∧ x = x' ∧ b = b' ∧ y = y'.
Proof.
  intros Hl Hl' Hx Hy Hx' Hy' Heq.
  assert (Hlen : length a = length a').
  { apply (f_equal length) in Heq. rewrite !length_app in Heq.
    simpl in Heq. lia. }
  apply app_inj_1 in Heq as [-> Heq]; [|exact Hlen].
  apply app_inj_1 in Heq as [Hp Heq]; [|done].
  apply app_inj_1 in Heq as [-> Heq]; [|lia].
  apply le_bytes_2_inj in Hp; [|done..].
  apply le_bytes_2_inj in Heq; [|done..].
  done.
Qed.

(** X14.  Two packets whose keys hold the same bytes name the same two
    endpoints, in the same or in the opposite direction: flows that
    differ in an address or a port never share a session. *)
Theorem make_key_separates_flows (mixer : list byte → Z) (p q : Property)
    (key key' kp kq : HashKey) :
  0 ≤ prop_src_port p < 2 ^ 16 → 0 ≤ prop_dst_port p < 2 ^ 16 →
  0 ≤ prop_src_port q < 2 ^ 16 → 0 ≤ prop_dst_port q < 2 ^ 16 →
  make_key mixer p key = Some kp →
  make_key mixer q key' = Some kq →
  hk_data kp = hk_data kq →
  same_flow p q.
Proof.
  intros Hsp Hdp Hsq Hdq Hp Hq Heq.
  destruct (make_key_data mixer p key kp Hp) as (Lp & _ & Dp).
  destruct (make_key_data mixer q key' kq Hq) as (Lq & _ & Dq).
  unfold same_flow, src_endpoint, dst_endpoint.
  destruct Dp as [Dp|Dp], Dq as [Dq|Dq]; rewrite Dp, Dq in Heq;
    apply endpoints_inj in Heq; try done;
    destruct Heq as (-> & -> & -> & ->); auto.
Qed.

(** The two directions of scenario S2 are one flow. *)
Lemma make_key_separates_flows_S2 :
  same_flow (Scenario.from_A 0) (Scenario.from_B 5).
Proof.
  apply (make_key_separates_flows (fun _ => 0) (Scenario.from_A 0)
           (Scenario.from_B 5) HashKey_new HashKey_new
           (default HashKey_new
              (make_key (fun _ => 0) (Scenario.from_A 0) HashKey_new))
           (default HashKey_new
              (make_key (fun _ => 0) (Scenario.from_B 5) HashKey_new)));
    vm_compute; first [reflexivity | split; [discriminate | reflexivity]].
Defined.

(** ** What a session writes to the property *)

Lemma session_frame_refl p : session_frame p p.
Proof. by repeat split. Qed.

Lemma session_frame_trans a b c :
  session_frame a b → session_frame b c → session_frame a c.
Proof.
  intros (?&?&?&?&?&Ha) (?&?&?&?&?&Hb).
  repeat split; try congruence. intros k Hk. by rewrite Hb, Ha.
Qed.

Lemma session_frame_push e p : session_frame p (push_event e p).
Proof. by repeat split. Qed.

Lemma session_frame_set k v p :
  k ∈ session_params → session_frame p (set_value k v p).
Proof.
  intros Hk. repeat split; try done. intros k' Hk'. simpl.
  apply lookup_insert_ne. intros ->. done.
Qed.

Lemma decode_stream_body_frame f s ack d win sender recver st :
  session_frame st.2 (decode_stream_body f s ack d win sender recver st).1.2.2.
Proof.
  destruct st as [ssn p]. unfold decode_stream_body.
  destruct (send _ _ _ _ _) as [ok s'].
  destruct ok; simpl; [|apply session_frame_refl].
  destruct (trans_state _ _ _ _ _ _) as [ns ssn3].
  assert (H1 : session_frame p
            (if bool_decide (ns = ESTABLISHED)
             then set_value p_rtt_3wh_ (rtt_3wh_value (ts_rtt_ ssn3))
                    (push_event ev_estb_ p)
             else p)).
  { case_bool_decide; [|apply session_frame_refl].
    eapply session_frame_trans; [apply session_frame_push|].
    apply session_frame_set. by apply (bool_decide_unpack _). }
  set (q1 := if bool_decide (ns = ESTABLISHED) then _ else p) in *.
  assert (H2 : session_frame p
            (if bool_decide (ns = CLOSED) then push_event ev_close_ q1 else q1)).
  { case_bool_decide; [|exact H1].
    eapply session_frame_trans; [exact H1|apply session_frame_push]. }
  set (q2 := if bool_decide (ns = CLOSED) then _ else q1) in *.
  assert (H3 : ∀ v, session_frame p (set_value p_data_ v q2)).
  { intros v. eapply session_frame_trans; [exact H2|].
    apply session_frame_set. by apply (bool_decide_unpack _). }
  destruct (buf_ ssn3) eqn:Hb; simpl; case_ifs; simpl;
    repeat (match goal with
            | |- context [match ?m !! ?k with _ => _ end] =>
                destruct (m !! k) eqn:?
            end; simpl);
    apply H3.
Qed.

Lemma Session_decode_frame flags seq ack data win st :
  session_frame st.2 (Session_decode flags seq ack data win st).2.
Proof.
  destruct st as [ssn p]. unfold Session_decode. rewrite clear_buf_eq.
  set (K := fun st' : Session * Property => session_frame p st'.2).
  assert (Hstep : ∀ sender recver f s d st', K st' →
            K (decode_stream_body f s ack d win sender recver st').1.2).
  { intros sender recver f s d st' H1.
    eapply session_frame_trans; [exact H1|apply decode_stream_body_frame]. }
  assert (H0 : K (with_buf None ssn, p)) by apply session_frame_refl.
  destruct (is_src _ p);
    match goal with
    | |- context [decode_stream ?a ?b ?c ?d ?e ?f ?g ?h] =>
        pose proof (decode_stream_preserves K a b c d e f g (Hstep f g) h H0) as H1;
        destruct (decode_stream a b c d e f g h) as [ok [ssn' p']]
    end; unfold K in H1; simpl in *;
    (eapply session_frame_trans; [exact H1|]);
    (eapply session_frame_trans;
       [|apply session_frame_set; by apply (bool_decide_unpack _)]);
    apply session_frame_set; by apply (bool_decide_unpack _).
Qed.

(** X17.  [Session::decode] leaves the packet's timestamp and endpoints
    in the property as they were, keeps the events already pushed in
    front of its own, and writes no value but [data], [rtt_3wh],
    [tx_server] and [tx_client]. *)
Theorem session_writes_only_its_values (flags seq ack : Z)
    (data : list byte) (win : Z) (ssn : Session) (p : Property) :
  let r := Session_decode flags seq ack data win (ssn, p) in
  prop_tv r.2 = prop_tv p
  ∧ prop_src_addr r.2 = prop_src_addr p ∧ prop_dst_addr r.2 = prop_dst_addr p
  ∧ prop_src_port r.2 = prop_src_port p ∧ prop_dst_port r.2 = prop_dst_port p
  ∧ prop_events p `prefix_of` prop_events r.2
  ∧ ∀ k, k ∉ [p_data_; p_rtt_3wh_; p_tx_server_; p_tx_client_] →
         prop_values r.2 !! k = prop_values p !! k.
Proof.
  intros r.
  destruct (Session_decode_frame flags seq ack data win (ssn, p))
    as (H1 & H2 & H3 & H4 & H5 & H6).
  destruct (Session_decode_announces flags seq ack data win (ssn, p))
    as (new & _ & He).
  fold r in H1, H2, H3, H4, H5, H6, He. simpl in *.
  repeat split; try done.
  rewrite He. by apply prefix_app_r.
Qed.

(** ** [TCP::decode] on a header with a short data offset *)

Lemma data_offset_nonneg hdr : 0 ≤ data_offset hdr.
Proof.
  unfold data_offset. apply Z.shiftr_nonneg. apply Z.land_nonneg. right. lia.
Qed.

(** X15.  A data offset below five words is not checked for: the option
    length wraps around in [size_t], no packet has that many bytes left,
    and [decode] returns after the header values have been set, without
    looking for a session. *)
Theorem short_data_offset_is_dropped (mixer : list byte → Z)
    (pd : Payload) (prop : Property) (tcp : TCP)
    (hdr : list byte) (pd1 : Payload) :
  retain tcp_header_size pd = Some (hdr, pd1) →
  data_offset hdr < tcp_header_size →
  Payload_length pd1 < 2 ^ 64 - tcp_header_size →
  option_length hdr = 2 ^ 64 - tcp_header_size + data_offset hdr
  ∧ TCP_decode mixer pd prop tcp
    = Some (Module_NONE, pd1, header_properties hdr prop, tcp).
Proof.
  intros Hhdr Hoff Hlen.
  pose proof (data_offset_nonneg hdr) as H0.
  assert (Hopt : option_length hdr = 2 ^ 64 - tcp_header_size + data_offset hdr).
  { unfold option_length, usize. fold (data_offset hdr).
    unfold tcp_header_size in *. symmetry.
    apply (Z.mod_unique _ _ (-1)); [left; lia | lia]. }
  split; [exact Hopt|].
  unfold TCP_decode. rewrite Hhdr. cbv zeta. rewrite Hopt.
  unfold tcp_header_size in *.
  replace (0 <? 2 ^ 64 - 20 + data_offset hdr) with true
    by (symmetry; apply Z.ltb_lt; lia).
  unfold retain.
  replace (Payload_length pd1 <? 2 ^ 64 - 20 + data_offset hdr) with true
    by (symmetry; apply Z.ltb_lt; lia).
  reflexivity.
Qed.

(** A header whose data offset field is 0. *)
Lemma short_data_offset_zero :
  let pd := Payload_reset zero_offset_packet in
  let prop := Property_init zero_offset_packet in
  let hdr := replicate 20 Byte.x00 in
  let pd1 := {| pd_bytes := pd_bytes pd; pd_pos := 20 |} in
  option_length hdr = 2 ^ 64 - tcp_header_size + data_offset hdr
  ∧ TCP_decode (fun _ => 0) pd prop TCP_new
    = Some (Module_NONE, pd1, header_properties hdr prop, TCP_new).
Proof.
  intros pd prop hdr pd1.
  apply (short_data_offset_is_dropped (fun _ => 0) pd prop TCP_new hdr pd1);
    vm_compute; reflexivity.
Defined.

(** ** Sessions and the module's counters *)

Lemma event_of_not_new (new : list Status) : ev_new_ ∉ omap event_of new.
Proof.
  intros Hin. apply list_elem_of_omap in Hin as (st & _ & Hst).
  destruct st; discriminate Hst.
Qed.

Lemma track_session_accounts mixer hdr seg prop tcp prop' tcp' :
  track_session mixer hdr seg prop tcp = Some (prop', tcp') →
  curr_ts_ tcp' = Z.max (curr_ts_ tcp) (tv_sec (prop_tv prop))
  ∧ prop_tv prop' = prop_tv prop
  ∧ ∃ evs, prop_events prop' = prop_events prop ++ evs
           ∧ accounted tcp tcp' prop' evs.
Proof.
  unfold track_session. cbv zeta.
  set (tcp1 := if curr_ts_ tcp <? tv_sec (prop_tv prop) then _ else tcp).
  assert (Hts : curr_ts_ tcp1 = Z.max (curr_ts_ tcp) (tv_sec (prop_tv prop))
                ∧ ssn_count_ tcp1 = ssn_count_ tcp).
  { subst tcp1. destruct (curr_ts_ tcp <? _) eqn:E.
    - apply Z.ltb_lt in E. destruct (init_ts_ tcp); simpl; split; lia.
    - apply Z.ltb_ge in E. split; lia. }
  destruct Hts as [Hts Hcnt].
  destruct (make_key mixer prop HashKey_new) as [key|]; [|discriminate].
  destruct (LruHash_get key _) as [ssn|] eqn:Hget.
  - (* a known session *)
    match goal with
    | |- context [Session_decode ?a ?b ?c ?d ?e ?st] =>
        pose proof (Session_decode_announces a b c d e st) as (new & _ & He);
        pose proof (Session_decode_frame a b c d e st) as (Htv & _);
        destruct (Session_decode a b c d e st) as [ssn' p']
    end.
    simpl in He, Htv. intros [= <- <-]. simpl.
    split; [exact Hts|]. split; [exact Htv|].
    exists (omap event_of new). split; [exact He|].
    left. split; [exact Hcnt|apply event_of_not_new].
  - (* a new session *)
    match goal with
    | |- context [Session_decode ?a ?b ?c ?d ?e ?st] =>
        pose proof (Session_decode_announces a b c d e st) as (new & _ & He);
        pose proof (Session_decode_frame a b c d e st)
          as (Htv & _ & _ & _ & _ & Hv);
        destruct (Session_decode a b c d e st) as [ssn' p']
    end.
    simpl in He, Htv, Hv. intros [= <- <-]. simpl.
    split; [exact Hts|]. split; [exact Htv|].
    exists (ev_new_ :: omap event_of new). split.
    + rewrite He, <- app_assoc. reflexivity.
    + right. rewrite Hcnt. split; [done|]. split.
      * eexists. split; [done|apply event_of_not_new].
      * rewrite Hv by (by apply (bool_decide_unpack _)).
        rewrite Hcnt. apply lookup_insert_eq.
Qed.

(** X16.  A call of [TCP::decode] that returns moves the module's clock
    forward to the packet's second, or leaves it; it appends to the
    events of the property, and [ssn_count_] moves, by one, exactly when
    [new_session] is among the events appended, in which case it comes
    first and the id published for the session is the new count. *)
Theorem decode_counts_new_sessions (mixer : list byte → Z) (pd : Payload)
    (prop : Property) (tcp : TCP) (m : option nat) (pd' : Payload)
    (prop' : Property) (tcp' : TCP) :
  TCP_decode mixer pd prop tcp = Some (m, pd', prop', tcp') →
  m = Module_NONE
  ∧ prop_tv prop' = prop_tv prop
  ∧ (curr_ts_ tcp' = curr_ts_ tcp
     ∨ curr_ts_ tcp' = Z.max (curr_ts_ tcp) (tv_sec (prop_tv prop)))
  ∧ ∃ evs, prop_events prop' = prop_events prop ++ evs
           ∧ accounted tcp tcp' prop' evs.
Proof.
  unfold TCP_decode.
  assert (Hnone : ∀ q : Property, prop_events q = prop_events prop →
            ∃ evs, prop_events q = prop_events prop ++ evs
                   ∧ accounted tcp tcp q evs).
  { intros q Hq. exists []. rewrite app_nil_r. split; [exact Hq|].
    left. split; [done|]. apply not_elem_of_nil. }
  destruct (retain tcp_header_size pd) as [[hdr pd1]|].
  2:{ intros [= <- <- <- <-]. repeat split; auto. }
  cbv zeta.
  set (q := header_properties hdr prop).
  assert (Hq : prop_events q = prop_events prop ∧ prop_tv q = prop_tv prop)
    by done.
  destruct Hq as [Hq Hqt].
  destruct (0 <? option_length hdr).
  - destruct (retain (option_length hdr) pd1) as [[opt pd2]|].
    2:{ intros [= <- <- <- <-]. repeat split; auto. }
    destruct (0 <? Payload_length pd2);
      [destruct (retain (Payload_length pd2) pd2) as [[seg pd3]|]|];
      match goal with
      | |- context [track_session ?a ?b ?c ?d ?e] =>
          pose proof (track_session_accounts a b c d e) as Hacc;
          destruct (track_session a b c d e) as [[p1 t1]|]; [|discriminate]
      end;
      intros [= <- <- <- <-];
      destruct (Hacc _ _ eq_refl) as (H1 & H2 & H3);
      repeat split; auto.
  - destruct (0 <? Payload_length pd1);
      [destruct (retain (Payload_length pd1) pd1) as [[seg pd3]|]|];
      match goal with
      | |- context [track_session ?a ?b ?c ?d ?e] =>
          pose proof (track_session_accounts a b c d e) as Hacc;
          destruct (track_session a b c d e) as [[p1 t1]|]; [|discriminate]
      end;
      intros [= <- <- <- <-];
      destruct (Hacc _ _ eq_refl) as (H1 & H2 & H3);
      repeat split; auto.
Qed.

(** The SYN of scenario S2 on a new module. *)
Lemma decode_counts_the_first_syn :
  let pkt := tcp_packet 0 (tcp_bytes 12345 80 1000 0 SYN []) in
  let pd := Payload_reset pkt in
  let prop := Property_init pkt in
  let r := dec_decode TCP_new pd prop in
  (None : option nat) = Module_NONE
  ∧ prop_tv r.2 = prop_tv prop
  ∧ (curr_ts_ r.1 = curr_ts_ TCP_new
     ∨ curr_ts_ r.1 = Z.max (curr_ts_ TCP_new) (tv_sec (prop_tv prop)))
  ∧ ∃ evs, prop_events r.2 = prop_events prop ++ evs
           ∧ accounted TCP_new r.1 r.2 evs.
Proof.
  intros pkt pd prop r.
  apply (decode_counts_new_sessions (fun _ => 0) pd prop TCP_new None
           {| pd_bytes := pd_bytes pd; pd_pos := 20 |} r.2 r.1).
  vm_compute. reflexivity.
Defined.

Example first_syn_makes_session_one :
  let pkt := tcp_packet 0 (tcp_bytes 12345 80 1000 0 SYN []) in
  let r := dec_decode TCP_new (Payload_reset pkt) (Property_init pkt) in
  ssn_count_ r.1 = 1 ∧ prop_events r.2 = [ev_new_]
  ∧ prop_values r.2 !! p_ssn_id_
    = Some (Value_cpy (le_bytes 8 1) None).
Proof. vm_compute. done. Qed.

(** ** The header values *)

Lemma keeps_header_refl p : keeps_header p p.
Proof. by repeat split. Qed.

Lemma keeps_header_trans a b c :
  keeps_header a b → keeps_header b c → keeps_header a c.
Proof.
  intros (?&?&Ha) (?&?&Hb). repeat split; try congruence.
  intros k Hk. by rewrite Hb, Ha.
Qed.

Lemma keeps_header_set k v p :
  k ∈ later_params → keeps_header p (set_value k v p).
Proof.
  intros Hk. repeat split; try done. intros k' Hk'. simpl.
  apply lookup_insert_ne. intros ->. done.
Qed.

Lemma keeps_header_push e p : keeps_header p (push_event e p).
Proof. by repeat split. Qed.

Lemma keeps_header_frame p q : session_frame p q → keeps_header p q.
Proof.
  intros (_ & _ & _ & H1 & H2 & H3). repeat split; try done.
  intros k Hk. apply H3. intros Hin. apply Hk.
  unfold session_params, later_params in *.
  repeat (apply elem_of_cons in Hin as [->|Hin]);
    [by apply (bool_decide_unpack _)..|].
  by apply elem_of_nil in Hin.
Qed.

Lemma track_session_keeps_header mixer hdr seg prop tcp prop' tcp' :
  track_session mixer hdr seg prop tcp = Some (prop', tcp') →
  keeps_header prop prop'.
Proof.
  unfold track_session. cbv zeta.
  destruct (make_key mixer prop HashKey_new) as [key|]; [|discriminate].
  destruct (LruHash_get key _) as [ssn|];
    match goal with
    | |- context [Session_decode ?a ?b ?c ?d ?e ?st] =>
        pose proof (Session_decode_frame a b c d e st) as Hf;
        destruct (Session_decode a b c d e st) as [ssn' p']
    end;
    simpl in Hf; intros [= <- <-]; apply keeps_header_frame in Hf;
    (eapply keeps_header_trans; [|exact Hf]);
    (eapply keeps_header_trans;
       [|apply (keeps_header_set p_ssn_id_); by apply (bool_decide_unpack _)]);
    first [apply keeps_header_refl | apply keeps_header_push].
Qed.

Lemma set_value_lookup k v p k' :
  prop_values (set_value k v p) !! k' =
    if decide (k = k') then Some v else prop_values p !! k'.
Proof.
  simpl. case_decide; [subst; apply lookup_insert_eq|by apply lookup_insert_ne].
Qed.

Lemma header_properties_values hdr prop :
  prop_src_port (header_properties hdr prop) = be_val (hdr_src_port_ hdr)
  ∧ prop_dst_port (header_properties hdr prop) = be_val (hdr_dst_port_ hdr)
  ∧ Forall (fun kv => prop_values (header_properties hdr prop) !! kv.1
                      = Some kv.2)
           (header_values hdr).
Proof.
  split; [done|]. split; [done|].
  unfold header_values, header_properties, set_flag, flag_value. cbv zeta.
  repeat (constructor;
          [cbn [fst snd]; rewrite !set_value_lookup; reflexivity|]).
  constructor.
Qed.

(** X23.  Once the 20 bytes of the header have been retained, whatever
    [decode] goes on to do, options, segment, session and all, it returns
    the property with the ports and the header values of this header:
    nothing written later touches them.  The value left under [offset] is
    the header byte itself. *)
Theorem header_values_reach_the_caller (mixer : list byte → Z)
    (pd : Payload) (prop : Property) (tcp : TCP) (m : option nat)
    (pd' : Payload) (prop' : Property) (tcp' : TCP)
    (hdr : list byte) (pd1 : Payload) :
  retain tcp_header_size pd = Some (hdr, pd1) →
  TCP_decode mixer pd prop tcp = Some (m, pd', prop', tcp') →
  hdr = take 20 (drop (pd_pos pd) (pd_bytes pd))
  ∧ prop_src_port prop' = be_val (hdr_src_port_ hdr)
  ∧ prop_dst_port prop' = be_val (hdr_dst_port_ hdr)
  ∧ Forall (fun kv => prop_values prop' !! kv.1 = Some kv.2)
           (header_values hdr).
Proof.
  intros Hhdr Hdec.
  assert (Hh : hdr = take 20 (drop (pd_pos pd) (pd_bytes pd))).
  { unfold retain in Hhdr. destruct (_ <? _); [discriminate|].
    by injection Hhdr as <- _. }
  split; [exact Hh|].
  assert (Hk : keeps_header (header_properties hdr prop) prop').
  { unfold TCP_decode in Hdec. rewrite Hhdr in Hdec. cbv zeta in Hdec.
    set (q := header_properties hdr prop) in *.
    assert (Hset : ∀ k v, k ∈ later_params → keeps_header q (set_value k v q))
      by (intros; by apply keeps_header_set).
    destruct (0 <? option_length hdr).
    - destruct (retain (option_length hdr) pd1) as [[opt pd2]|].
      2:{ injection Hdec as _ _ <- _. apply keeps_header_refl. }
      assert (H1 : keeps_header q (set_value p_optdata_ (Value_set opt) q))
        by (apply Hset; by apply (bool_decide_unpack _)).
      destruct (0 <? Payload_length pd2);
        [destruct (retain (Payload_length pd2) pd2) as [[seg pd3]|]|];
        match type of Hdec with
        | context [track_session ?a ?b ?c ?d ?e] =>
            pose proof (track_session_keeps_header a b c d e) as Ht;
            destruct (track_session a b c d e) as [[p1 t1]|]; [|discriminate]
        end;
        injection Hdec as _ _ <- _; specialize (Ht _ _ eq_refl);
        (eapply keeps_header_trans; [|exact Ht]);
        try (eapply keeps_header_trans;
             [exact H1|apply keeps_header_set; by apply (bool_decide_unpack _)]);
        exact H1.
    - destruct (0 <? Payload_length pd1);
        [destruct (retain (Payload_length pd1) pd1) as [[seg pd3]|]|];
        match type of Hdec with
        | context [track_session ?a ?b ?c ?d ?e] =>
            pose proof (track_session_keeps_header a b c d e) as Ht;
            destruct (track_session a b c d e) as [[p1 t1]|]; [|discriminate]
        end;
        injection Hdec as _ _ <- _; specialize (Ht _ _ eq_refl);
        (eapply keeps_header_trans; [|exact Ht]);
        try (apply keeps_header_set; by apply (bool_decide_unpack _));
        apply keeps_header_refl. }
  destruct Hk as (K1 & K2 & K3).
  destruct (header_properties_values hdr prop) as (V1 & V2 & V3).
  split; [by rewrite K1|]. split; [by rewrite K2|].
  unfold header_values in *.
  repeat match goal with
         | H : Forall _ (_ :: _) |- _ => apply Forall_cons in H as [? H]
         end.
  repeat (constructor;
          [simpl; rewrite K3 by (by apply (bool_decide_unpack _)); assumption|]).
  constructor.
Qed.

(** The SYN of scenario S2. *)
Lemma header_values_of_the_syn :
  let pkt := tcp_packet 0 (tcp_bytes 12345 80 1000 0 SYN []) in
  let pd := Payload_reset pkt in
  let hdr := tcp_bytes 12345 80 1000 0 SYN [] in
  let r := dec_decode TCP_new pd (Property_init pkt) in
  hdr = take 20 (drop (pd_pos pd) (pd_bytes pd))
  ∧ prop_src_port r.2 = be_val (hdr_src_port_ hdr)
  ∧ prop_dst_port r.2 = be_val (hdr_dst_port_ hdr)
  ∧ Forall (fun kv => prop_values r.2 !! kv.1 = Some kv.2)
           (header_values hdr).
Proof.
  intros pkt pd hdr r.
  apply (header_values_reach_the_caller (fun _ => 0) pd (Property_init pkt)
           TCP_new None {| pd_bytes := pd_bytes pd; pd_pos := 20 |} r.2 r.1
           hdr {| pd_bytes := pd_bytes pd; pd_pos := 20 |});
    vm_compute; reflexivity.
Defined.

Example offset_value_is_the_header_byte :
  let pkt := tcp_packet 0 (tcp_bytes 12345 80 1000 0 SYN []) in
  prop_values
    (dec_decode TCP_new (Payload_reset pkt) (Property_init pkt)).2 !! p_offset_
  = Some (Value_set [Byte.x50]).
Proof. vm_compute. reflexivity. Qed.

(** ** RST *)

Lemma trans_state_rst flags sender seq len tv ssn :
  Z.land flags RST ≠ 0 → Z.land flags FIN = 0 →
  trans_state flags sender seq len tv ssn = (NONE, ssn).
Proof.
  intros Hrst Hfin. unfold trans_state.
  assert (H1 : (flags =? SYN) = false)
    by (apply Z.eqb_neq; intros ->; by apply Hrst).
  assert (H2 : (flags =? Z.lor SYN ACK) = false)
    by (apply Z.eqb_neq; intros ->; by apply Hrst).
  assert (H3 : (flags =? ACK) = false)
    by (apply Z.eqb_neq; intros ->; by apply Hrst).
  rewrite H1, H2, H3, Hfin. simpl. by destruct (status_ ssn).
Qed.

(** X24.  The state machine has no case for RST: with nothing parked, a
    packet that carries RST and no FIN leaves the status, its history and
    [closing_] as they are and pushes no event, in whatever state the
    session is and whether or not the segment is in sequence. *)
Theorem rst_changes_no_status (flags seq ack : Z) (data : list byte)
    (win : Z) (ssn : Session) (p : Property) :
  let r := Session_decode flags seq ack data win (ssn, p) in
  Z.land flags RST ≠ 0 →
  Z.land flags FIN = 0 →
  seg_map_ ssn = ∅ →
  status_ r.1 = status_ ssn
  ∧ status_log_ r.1 = status_log_ ssn
  ∧ closing_ r.1 = closing_ ssn
  ∧ prop_events r.2 = prop_events p.
Proof.
  intros r Hrst Hfin Hmap. subst r.
  set (sender := if is_src (client_ ssn) p then Client else Server).
  destruct (send flags seq ack (Z.of_nat (length data)) (stream_of sender ssn)).1
    eqn:Hok.
  - pose proof (Session_decode_nothing_parked flags seq ack data win ssn p) as E.
    cbv zeta in E. fold sender in E. specialize (E Hmap Hok).
    rewrite trans_state_rst in E by done. simpl in E. rewrite E. simpl.
    by destruct sender.
  - destruct (send_false _ _ _ _ _ Hok) as (Hb & Hne & _).
    rewrite (Session_decode_refused flags seq ack data win ssn p);
      fold sender; [done|exact Hb|congruence].
Qed.

(** An RST|ACK in sequence on the ESTABLISHED session of S2. *)
Lemma rst_on_the_established_session :
  let ssn := Scenario.established 0 in
  let p := Scenario.from_B 20 in
  let r := Session_decode (Z.lor RST ACK) 2001 1 [] 65535 (ssn, p) in
  status_ r.1 = status_ ssn
  ∧ status_log_ r.1 = status_log_ ssn
  ∧ closing_ r.1 = closing_ ssn
  ∧ prop_events r.2 = prop_events p.
Proof.
  apply (rst_changes_no_status (Z.lor RST ACK) 2001 1 [] 65535
           (Scenario.established 0) (Scenario.from_B 20)).
  - vm_compute. discriminate.
  - vm_compute. reflexivity.
  - vm_compute. reflexivity.
Defined.

(** ** Parked segments are not lost *)

(** X25.  One activation of [decode_stream] never drops a parked chain.
    A chain under key [k] is afterwards still there as it was; or it is
    there with the refused segment of this activation appended, [k] being
    that segment's relative sequence number; or the segment was accepted,
    [k] is the sequence number the sender's stream now expects, and the
    chain is the one handed to delivery. *)
Theorem parked_chain_is_kept_or_delivered (flags seq ack : Z)
    (data : list byte) (win : Z) (sender recver : StreamId)
    (st : Session * Property) (k : Z) (chain : list Segment) :
  let r := decode_stream_body flags seq ack data win sender recver st in
  seg_map_ st.1 !! k = Some chain →
  seg_map_ r.1.2.1 !! k = Some chain
  ∨ (r.1.1 = false
     ∧ k = u32 (seq - base_seq_ (stream_of sender st.1))
     ∧ seg_map_ r.1.2.1 !! k =
         Some (chain ++ [{| seg_data := data; seg_seq := seq;
                            seg_flags := flags |}]))
  ∨ (r.1.1 = true
     ∧ k = next_seq_ (stream_of sender r.1.2.1)
     ∧ r.2 = chain
     ∧ seg_map_ r.1.2.1 !! k = None).
Proof.
  destruct st as [ssn p]. simpl. intros Hk. unfold decode_stream_body.
  pose proof (send_false flags seq ack (Z.of_nat (length data))
                (stream_of sender ssn)) as Hf.
  destruct (send _ _ _ _ _) as [ok s'] eqn:Hsend.
  destruct ok; simpl in *.
  - match goal with
    | |- context [trans_state ?a ?b ?c ?e ?g ?h] =>
        pose proof (trans_state_seg_map a b c e g h) as Hm;
        destruct (trans_state a b c e g h) as [ns ssn3]
    end.
    simpl in Hm.
    assert (Hm' : seg_map_ ssn3 = seg_map_ ssn)
      by (rewrite Hm; by destruct sender, recver).
    assert (Hsb : ∀ b, stream_of sender (with_buf b ssn3) = stream_of sender ssn3)
      by (intros; by destruct sender).
    assert (Hsm : ∀ m b, stream_of sender (with_seg_map m (with_buf b ssn3))
                         = stream_of sender ssn3)
      by (intros; by destruct sender).
    assert (Hsm' : ∀ m, stream_of sender (with_seg_map m ssn3)
                        = stream_of sender ssn3)
      by (intros; by destruct sender).
    destruct (buf_ ssn3) eqn:Hb; simpl;
      rewrite ?Hsb; unfold next_seq;
      (destruct (0 <? size (seg_map_ ssn3))%nat eqn:Hsz; simpl;
       [|left; by rewrite Hm']);
      (destruct (seg_map_ ssn3 !! next_seq_ (stream_of sender ssn3))
         as [chain'|] eqn:Hn; simpl; [|left; by rewrite Hm']);
      rewrite ?Hb; simpl; rewrite ?Hsb, ?Hsm, ?Hsm';
      (destruct (decide (k = next_seq_ (stream_of sender ssn3))) as [->|Hne];
       [ right; right; rewrite Hm' in Hn; rewrite Hk in Hn;
         injection Hn as <-;
         repeat split; try done; apply lookup_delete_eq
       | left; rewrite lookup_delete_ne by done; by rewrite Hm' ]).
  - destruct (Hf eq_refl) as (Hbase & Hne & ->).
    assert (Hs : stream_of sender (with_stream sender (stream_of sender ssn) ssn)
                 = stream_of sender ssn) by (by destruct sender).
    rewrite Hs. unfold to_rel_seq. rewrite park_lookup.
    assert (Hmm : seg_map_ (with_stream sender (stream_of sender ssn) ssn)
                  = seg_map_ ssn) by (by destruct sender).
    rewrite ?Hmm.
    destruct (decide (u32 (seq - base_seq_ (stream_of sender ssn)) = k))
      as [<-|Hd].
    + right; left. rewrite Hk. simpl. done.
    + left. exact Hk.
Qed.

(** "hello" arrives while "world" waits under key 6: the chain is handed
    to delivery. *)
Lemma parked_world_is_delivered :
  let st := (world_and_bang_parked, Scenario.from_A 30) in
  let world := {| seg_data := Scenario.world; seg_seq := 6; seg_flags := ACK |} in
  let r := decode_stream_body ACK 1 2001 Scenario.hello 65535 Client Server st in
  seg_map_ r.1.2.1 !! 6 = Some [world]
  ∨ (r.1.1 = false
     ∧ 6 = u32 (1 - base_seq_ (stream_of Client st.1))
     ∧ seg_map_ r.1.2.1 !! 6 =
         Some ([world] ++ [{| seg_data := Scenario.hello; seg_seq := 1;
                              seg_flags := ACK |}]))
  ∨ (r.1.1 = true
     ∧ 6 = next_seq_ (stream_of Client r.1.2.1)
     ∧ r.2 = [world]
     ∧ seg_map_ r.1.2.1 !! 6 = None).
Proof.
  intros st world.
  apply (parked_chain_is_kept_or_delivered ACK 1 2001 Scenario.hello 65535
           Client Server st 6 [world]).
  vm_compute. reflexivity.
Defined.

(** ** More on the registry *)

Section RegistryInvariant.

Context {D : Type} `{Decoder D}.

Implicit Types k : Kernel D.

(** X18.  Whatever a program has done with a kernel, the two indexes of
    its registry agree: the vectors cover the events of the decoder;
    every entry in a vector sits under its own event and is the entry the
    id map holds for its id; every entry of the id map is in the vector of
    its event, under an id that has been handed out and is not
    [Handler::NONE]; and along a vector ids grow strictly. *)
Theorem registry_stays_consistent (d : D) (ops : list Op) :
  let k := (exec ops (Kernel_new d)).1 in
  length (handlers_ k) = event_size
  ∧ (∀ eid j e, slot k eid j = Some e →
       Handler.ev_id e = eid ∧ handler_map_ k !! Handler.id e = Some e)
  ∧ (∀ hid e, handler_map_ k !! hid = Some e →
       Handler.id e = hid ∧ hid ≠ Handler.NONE
       ∧ (hid ≤ global_hdlr_id_ k)%nat
       ∧ ∃ j, slot k (Handler.ev_id e) j = Some e)
  ∧ (∀ eid, StronglySorted by_id (live (vector k eid))).
Proof.
  intros k.
  assert (Hok : registry_ok k) by apply registry_ok_exec, registry_ok_new.
  split; [apply (ok_len k Hok)|]. split; [apply (ok_slot k Hok)|].
  split; [|apply (ok_sorted k Hok)].
  intros hid e Hm. destruct (ok_map k Hok _ _ Hm) as (H1 & H2 & H3).
  unfold Handler.NONE. repeat split; [done|lia|lia|done].
Qed.

Lemma live_app (s1 s2 : list (option Handler.Entry)) :
  live (s1 ++ s2) = live s1 ++ live s2.
Proof. unfold live. apply omap_app. Qed.

Lemma Kernel_on_fresh k :
  registry_ok k → handler_map_ k !! S (global_hdlr_id_ k) = None.
Proof.
  intros Hok.
  destruct (handler_map_ k !! S (global_hdlr_id_ k)) as [e|] eqn:E; [|done].
  destruct (ok_map k Hok _ _ E) as (_ & ? & _). lia.
Qed.

Lemma Kernel_on_map name cb k eid :
  registry_ok k → lookup_event_id name = Some eid →
  handler_map_ (Kernel_on name cb k).2
  = <[S (global_hdlr_id_ k) :=
        {| Handler.cb_ := cb; Handler.ev_id_ := eid;
           Handler.id_ := S (global_hdlr_id_ k) |}]> (handler_map_ k).
Proof.
  intros Hok Hl. unfold Kernel_on. rewrite Hl. simpl.
  unfold map_insert, Handler.id. simpl. by rewrite Kernel_on_fresh.
Qed.

(** X19.  [on] refuses a name no module has defined and leaves the
    kernel alone.  Otherwise it returns an id that is not
    [Handler::NONE], is larger than every id handed out before and is in
    use by no handler; the new entry goes into the id map under that id
    and to the back of the vector of its event; the other vectors and
    the packet counters stay as they are. *)
Theorem on_registers_under_a_fresh_id (d : D) (ops : list Op)
    (name : string) (cb : Callback) :
  let k := (exec ops (Kernel_new d)).1 in
  let r := Kernel_on name cb k in
  (lookup_event_id name = None → r = (Handler.NONE, k))
  ∧ (∀ eid, lookup_event_id name = Some eid →
       let e := {| Handler.cb_ := cb; Handler.ev_id_ := eid;
                   Handler.id_ := r.1 |} in
       r.1 ≠ Handler.NONE
       ∧ (global_hdlr_id_ k < r.1)%nat
       ∧ global_hdlr_id_ r.2 = r.1
       ∧ handler_map_ k !! r.1 = None
       ∧ (∀ eid' j e', slot k eid' j = Some e' → Handler.id e' ≠ r.1)
       ∧ handler_map_ r.2 = <[r.1 := e]> (handler_map_ k)
       ∧ vector r.2 eid = vector k eid ++ [Some e]
       ∧ (∀ eid', eid' ≠ eid → vector r.2 eid' = vector k eid')
       ∧ counters r.2 = counters k).
Proof.
  intros k r.
  assert (Hok : registry_ok k) by apply registry_ok_exec, registry_ok_new.
  split; [apply Kernel_on_unknown|].
  intros eid Hl e.
  assert (Hr : r.1 = S (global_hdlr_id_ k)).
  { subst r. unfold Kernel_on. by rewrite Hl. }
  subst e. rewrite Hr.
  split; [done|]. split; [lia|].
  split; [subst r; unfold Kernel_on; by rewrite Hl|].
  split; [by apply Kernel_on_fresh|].
  split.
  { intros eid' j e' Hs. pose proof (slot_bound k eid' j e' Hok Hs). lia. }
  split; [by apply Kernel_on_map|].
  split.
  { subst r. rewrite (Kernel_on_vector name cb k eid eid Hl Hok).
    by rewrite decide_True. }
  split.
  { intros eid' Hne. subst r.
    rewrite (Kernel_on_vector name cb k eid eid' Hl Hok).
    by rewrite decide_False. }
  subst r. unfold Kernel_on. by rewrite Hl.
Qed.

Lemma tombstone_last hid set e :
  Forall (fun o => ∀ e', o = Some e' → Handler.id e' ≠ hid) set →
  Handler.id e = hid →
  tombstone hid (set ++ [Some e]) = set ++ [None].
Proof.
  intros Hall He. induction Hall as [|o set Ho Hall IH]; simpl.
  - by rewrite decide_True.
  - destruct o as [e'|]; [|by rewrite IH].
    rewrite decide_False by (by apply Ho). by rewrite IH.
Qed.

(** X20.  Registering a handler and clearing it again gives back the
    registry there was: [clear] returns true, the id map and the live
    entries of every vector are those from before, and a second [clear]
    of the id returns false.  What stays is the spent id and a null slot
    at the back of the event's vector: vectors never shrink. *)
Theorem on_then_clear_restores_the_registry (d : D) (ops : list Op)
    (name : string) (cb : Callback) (eid : event_id) :
  let k := (exec ops (Kernel_new d)).1 in
  let r := Kernel_on name cb k in
  let c := Kernel_clear r.1 r.2 in
  lookup_event_id name = Some eid →
  c.1 = true
  ∧ handler_map_ c.2 = handler_map_ k
  ∧ (∀ eid', live (vector c.2 eid') = live (vector k eid'))
  ∧ vector c.2 eid = vector k eid ++ [None]
  ∧ global_hdlr_id_ c.2 = S (global_hdlr_id_ k)
  ∧ (Kernel_clear r.1 c.2).1 = false.
Proof.
  intros k r c Hl.
  assert (Hok : registry_ok k) by apply registry_ok_exec, registry_ok_new.
  assert (Hok' : registry_ok r.2) by by apply registry_ok_on.
  set (e := {| Handler.cb_ := cb; Handler.ev_id_ := eid;
               Handler.id_ := S (global_hdlr_id_ k) |}).
  assert (Hr : r.1 = S (global_hdlr_id_ k)).
  { subst r. unfold Kernel_on. by rewrite Hl. }
  assert (Hmap : handler_map_ r.2 = <[S (global_hdlr_id_ k) := e]> (handler_map_ k))
    by by apply Kernel_on_map.
  assert (Hm : handler_map_ r.2 !! r.1 = Some e).
  { rewrite Hmap, Hr. apply lookup_insert_eq. }
  assert (Hc : c = (true,
            {| dec_ := dec_ r.2;
               handlers_ := alter (tombstone (Handler.id e)) (Handler.ev_id e)
                              (handlers_ r.2);
               handler_map_ := delete r.1 (handler_map_ r.2);
               global_hdlr_id_ := global_hdlr_id_ r.2;
               recv_pkt_ := recv_pkt_ r.2; recv_size_ := recv_size_ r.2 |})).
  { subst c. unfold Kernel_clear. by rewrite Hm. }
  assert (Hcm : handler_map_ c.2 = handler_map_ k).
  { rewrite Hc. simpl. rewrite Hmap, Hr, delete_insert_eq.
    apply delete_id. by apply Kernel_on_fresh. }
  assert (Hv : ∀ eid', vector c.2 eid' =
            if decide (eid = eid') then vector k eid ++ [None]
            else vector k eid').
  { intros eid'. subst c.
    rewrite (Kernel_clear_vector r.1 r.2 e eid' Hm). simpl.
    case_decide as He; [subst eid'|].
    - pose proof (Kernel_on_vector name cb k eid eid Hl Hok) as Hv.
      rewrite decide_True in Hv by done. fold r in Hv. fold e in Hv.
      assert (Hlt : (eid < length (handlers_ r.2))%nat).
      { rewrite (ok_len r.2 Hok'). by eapply lookup_event_id_lt. }
      apply lookup_lt_is_Some in Hlt as [set Hset].
      unfold vector in Hv at 1. rewrite Hset in Hv. simpl in Hv.
      rewrite Hset, Hv. apply tombstone_last; [|done].
      apply Forall_forall. intros o Ho e' ->.
      apply list_elem_of_lookup in Ho as [j Hj].
      assert (Hs : slot k eid j = Some e') by (by rewrite slot_vector, Hj).
      pose proof (slot_bound k eid j e' Hok Hs). simpl. lia.
    - subst r. rewrite (Kernel_on_vector name cb k eid eid' Hl Hok).
      by rewrite decide_False. }
  split; [by rewrite Hc|]. split; [exact Hcm|].
  split.
  { intros eid'. rewrite Hv. case_decide; [subst eid'|done].
    rewrite live_app. simpl. by rewrite app_nil_r. }
  split; [by rewrite Hv, decide_True|].
  split.
  { rewrite Hc. simpl. subst r. unfold Kernel_on. by rewrite Hl. }
  rewrite Kernel_clear_unknown; [done|].
  rewrite Hcm, Hr. by apply Kernel_on_fresh.
Qed.

Lemma total_cap_len_app l1 l2 :
  total_cap_len (l1 ++ l2) = total_cap_len l1 + total_cap_len l2.
Proof. induction l1 as [|pkt l1 IH]; simpl; [done|]. rewrite IH. lia. Qed.

Lemma usize_add_l a b : usize (usize a + b) = usize (a + b).
Proof. unfold usize. by rewrite Zplus_mod_idemp_l. Qed.

Lemma Kernel_run_counts pkts :
  ∀ (k : Kernel D) a b,
    recv_pkt_ k = usize a → recv_size_ k = usize b →
    recv_pkt_ (Kernel_run pkts k).1 = usize (a + Z.of_nat (length pkts))
    ∧ recv_size_ (Kernel_run pkts k).1 = usize (b + total_cap_len pkts).
Proof.
  induction pkts as [|pkt pkts IH]; intros k a b Ha Hb; simpl.
  - by rewrite !Z.add_0_r.
  - pose proof (Kernel_step_counters pkt k) as Hs.
    unfold counters in Hs. injection Hs as Hs1 Hs2.
    destruct (IH (Kernel_step pkt k).1 (a + 1) (b + cap_len pkt)) as [I1 I2].
    + by rewrite Hs1, Ha, usize_add_l.
    + by rewrite Hs2, Hb, usize_add_l.
    + rewrite I1, I2. split; f_equal; lia.
Qed.

Lemma exec_counts ops :
  ∀ (k : Kernel D) a b,
    recv_pkt_ k = usize a → recv_size_ k = usize b →
    recv_pkt_ (exec ops k).1
      = usize (a + Z.of_nat (length (packets_of ops)))
    ∧ recv_size_ (exec ops k).1
      = usize (b + total_cap_len (packets_of ops)).
Proof.
  induction ops as [|op ops IH]; intros k a b Ha Hb.
  - simpl. by rewrite !Z.add_0_r.
  - change (packets_of (op :: ops))
      with (match op with OpRun pkts => pkts | _ => [] end ++ packets_of ops).
    rewrite length_app, total_cap_len_app, Nat2Z.inj_add, !Z.add_assoc.
    simpl. apply IH.
    + destruct op as [name cb|hid|pkts]; simpl.
      * rewrite Z.add_0_r. unfold Kernel_on.
        by destruct (lookup_event_id name).
      * rewrite Z.add_0_r.
        pose proof (Kernel_clear_counters hid k) as Hc.
        unfold counters in Hc. injection Hc as -> _. done.
      * by apply (Kernel_run_counts pkts k a b).
    + destruct op as [name cb|hid|pkts]; simpl.
      * rewrite Z.add_0_r. unfold Kernel_on.
        by destruct (lookup_event_id name).
      * rewrite Z.add_0_r.
        pose proof (Kernel_clear_counters hid k) as Hc.
        unfold counters in Hc. injection Hc as _ ->. done.
      * by apply (Kernel_run_counts pkts k a b).
Qed.

(** X21.  The two counters of a kernel say how many packets [run] has
    pulled and how many captured bytes they had, in 64-bit arithmetic,
    whatever the decoder made of the packets and whatever the callbacks
    did; registering and clearing handlers does not count. *)
Theorem counters_count_the_packets_run (d : D) (ops : list Op) :
  let k := (exec ops (Kernel_new d)).1 in
  recv_pkt_ k = usize (Z.of_nat (length (packets_of ops)))
  ∧ recv_size_ k = usize (total_cap_len (packets_of ops)).
Proof.
  intros k. apply (exec_counts ops (Kernel_new d) 0 0); reflexivity.
Qed.

(** X22.  A callback runs only for an event the packet has pushed, and
    only if its handler is registered when the dispatch starts: a packet
    without events runs nothing. *)
Theorem handlers_run_only_for_pushed_events (d : D) (ops : list Op)
    (prop : Property) (e : Handler.Entry) :
  let k := (exec ops (Kernel_new d)).1 in
  e ∈ (dispatch (prop_events prop) prop k).2 →
  Handler.ev_id e ∈ ed_id <$> prop_events prop
  ∧ handler_map_ k !! Handler.id e = Some e.
Proof.
  intros k Hin.
  assert (Hok : registry_ok k) by apply registry_ok_exec, registry_ok_new.
  destruct (dispatch_logs k (prop_events prop) prop k Hok (thins_refl k))
    as (logs & Hlog & Hall).
  rewrite Hlog, list_elem_of_In in Hin.
  apply in_concat in Hin as (log & Hll & Hel).
  apply list_elem_of_In in Hll. apply list_elem_of_In in Hel.
  apply list_elem_of_lookup in Hll as [i Hi].
  destruct (Forall2_lookup_r _ _ _ _ _ Hall Hi) as (ev & Hev & Hsub & _).
  assert (He : e ∈ live (vector k (ed_id ev))).
  { eapply elem_of_sublist; [exact Hel|exact Hsub]. }
  apply elem_of_live_slot in He as [j Hj].
  destruct (ok_slot k Hok _ _ _ Hj) as [H1 H2].
  split; [|exact H2]. rewrite H1.
  apply list_elem_of_fmap. exists ev. split; [done|].
  by eapply list_elem_of_lookup_2.
Qed.

End RegistryInvariant.

(** A fourth handler for [established], registered and cleared. *)
Lemma on_then_clear_after_S6 :
  let k := (exec S6_ops (Kernel_new TCP_new)).1 in
  let r := Kernel_on "established" (cb_clearing 4 []) k in
  let c := Kernel_clear r.1 r.2 in
  c.1 = true
  ∧ handler_map_ c.2 = handler_map_ k
  ∧ (∀ eid', live (vector c.2 eid') = live (vector k eid'))
  ∧ vector c.2 (ed_id ev_estb_) = vector k (ed_id ev_estb_) ++ [None]
  ∧ global_hdlr_id_ c.2 = S (global_hdlr_id_ k)
  ∧ (Kernel_clear r.1 c.2).1 = false.
Proof.
  apply (on_then_clear_restores_the_registry TCP_new S6_ops "established"
           (cb_clearing 4 []) (ed_id ev_estb_)).
  reflexivity.
Defined.

(** The first handler of scenario S6 when [established] is pushed. *)
Lemma first_handler_runs_for_established :
  let k := (exec S6_ops (Kernel_new TCP_new)).1 in
  let prop := push_event ev_estb_ (Scenario.from_A 10) in
  Handler.ev_id (S6_entry 1 [2%nat]) ∈ ed_id <$> prop_events prop
  ∧ handler_map_ k !! Handler.id (S6_entry 1 [2%nat])
    = Some (S6_entry 1 [2%nat]).
Proof.
  apply (handlers_run_only_for_pushed_events TCP_new S6_ops
           (push_event ev_estb_ (Scenario.from_A 10)) (S6_entry 1 [2%nat])).
  vm_compute. apply list_elem_of_here.
Defined.
